(** * ntfy-me-mcp: markdown detection and URL action extraction

    A shallow embedding of [build/helpers/markdown.js] (containsMarkdown,
    hasCommonMarkdownPatterns, detectMarkdown) and of [src/utils/actions.ts]
    (cleanUrl, processActions), together with the fragment of the JavaScript
    run time these functions rest on: strings of UTF-16 code units, the
    backtracking semantics of regular expressions (ECMA-262, 22.2), RegExp
    objects with their [lastIndex], exceptions and [try]/[catch]. *)

From Stdlib Require Import Ascii String.
From Stdlib Require Import List NArith Arith Bool Lia Sorted.
Import ListNotations.

Set Implicit Arguments.

(** ** JavaScript strings *)

Module JS.

(** A string is a sequence of UTF-16 code units. *)
Definition char := N.
Definition jsstring := list char.

Definition str (s : string) : jsstring :=
  map N_of_ascii (list_ascii_of_string s).

Definition chr (a : ascii) : char := N_of_ascii a.

Fixpoint string_eqb (s t : jsstring) : bool :=
  match s, t with
  | [], [] => true
  | a :: s', b :: t' => N.eqb a b && string_eqb s' t'
  | _, _ => false
  end.

(** [s.startsWith(p)] *)
Fixpoint startsWith (s p : jsstring) {struct p} : bool :=
  match p with
  | [] => true
  | b :: p' =>
      match s with
      | a :: s' => N.eqb a b && startsWith s' p'
      | [] => false
      end
  end.

(** [s.endsWith(p)]: the last [length p] code units of [s] are [p]. *)
Definition endsWith (s p : jsstring) : bool :=
  (length p <=? length s) && string_eqb (skipn (length s - length p) s) p.

(** [s.includes(p)]: [p] occurs somewhere in [s]. *)
Fixpoint includes (s p : jsstring) : bool :=
  startsWith s p ||
  match s with
  | [] => false
  | _ :: s' => includes s' p
  end.

(** [s.slice(0, -1)]: everything but the last code unit. *)
Definition slice_0_m1 (s : jsstring) : jsstring :=
  firstn (length s - 1) s.

(** LineTerminator code points (ECMA-262, 12.3). *)
Definition isLineTerminator (c : char) : bool :=
  N.eqb c 10 || N.eqb c 13 || N.eqb c 8232 || N.eqb c 8233.

(** WhiteSpace code points (ECMA-262, 12.2) together with the line
    terminators: what [trim] removes and what [\s] matches. *)
Definition isWhiteSpace (c : char) : bool :=
  N.eqb c 9 || N.eqb c 11 || N.eqb c 12 || N.eqb c 32 || N.eqb c 160 ||
  N.eqb c 5760 || (N.leb 8192 c && N.leb c 8202) || N.eqb c 8239 ||
  N.eqb c 8287 || N.eqb c 12288 || N.eqb c 65279 || isLineTerminator c.

Fixpoint trimStart (s : jsstring) : jsstring :=
  match s with
  | [] => []
  | c :: s' => if isWhiteSpace c then trimStart s' else s
  end.

Definition trimEnd (s : jsstring) : jsstring :=
  rev (trimStart (rev s)).

(** [s.trim()] *)
Definition trim (s : jsstring) : jsstring := trimEnd (trimStart s).

(** *** Exceptions *)

Inductive exn : Type :=
| TypeError (msg : string)
| Error (msg : string).

Inductive result (A : Type) : Type :=
| Ok (a : A)
| Throw (e : exn).
Arguments Ok {A} a.
Arguments Throw {A} e.

Definition bind {A B} (m : result A) (k : A -> result B) : result B :=
  match m with
  | Ok a => k a
  | Throw e => Throw e
  end.

(** [try { body } catch { handler }] *)
Definition try_catch {A} (body : result A) (handler : exn -> result A) : result A :=
  match body with
  | Ok a => Ok a
  | Throw e => handler e
  end.

End JS.

Import JS.

Notation "x <- m ;; k" := (JS.bind m (fun x => k))
  (at level 61, m at next level, right associativity).

(** ** Regular expressions *)

Module Regex.

(** The pattern syntax the two source files use: literal characters, classes,
    the dot, sequence, alternation, greedy and lazy bounded repetition and
    the assertions [^], [$] and [\b].  Groups are kept only for their
    grouping: no pattern of the program reads a capture. *)
Inductive regex : Type :=
| Eps
| Chr (c : char)
| Cls (invert : bool) (ranges : list (char * char))
| Dot
| Seq (r1 r2 : regex)
| Alt (r1 r2 : regex)
| Rep (min : nat) (max : option nat) (greedy : bool) (r : regex)
| Bol
| Eol
| WordB.

Record flags : Type := Flags { ignoreCase : bool; multiline : bool }.

(** A position in the input: the code unit just before it (if any) and the
    code units from it on. *)
Record state : Type := State { prev : option char; rest : jsstring }.

Definition inRanges (ranges : list (char * char)) (c : char) : bool :=
  existsb (fun r => N.leb (fst r) c && N.leb c (snd r)) ranges.

Definition isAsciiLower (c : char) : bool := N.leb 97 c && N.leb c 122.
Definition isAsciiUpper (c : char) : bool := N.leb 65 c && N.leb c 90.
Definition asciiUpper (c : char) : char := if isAsciiLower c then (c - 32)%N else c.
Definition asciiLower (c : char) : char := if isAsciiUpper c then (c + 32)%N else c.

(** Canonicalize (ECMA-262, 22.2.5.6) without the [u] flag maps a code unit
    to its upper case, except that a code unit of 128 or more never maps
    below 128.  Every pattern here is ASCII, and against ASCII pattern
    characters the only folding that can be observed is the one of the
    ASCII letters. *)
Definition canonicalize (fl : flags) (c : char) : char :=
  if ignoreCase fl then asciiUpper c else c.

Definition chrMatches (fl : flags) (p c : char) : bool :=
  N.eqb (canonicalize fl p) (canonicalize fl c).

(** CharacterSetMatcher: some member of the set canonicalizes like [c]. *)
Definition clsMatches (fl : flags) (invert : bool) (ranges : list (char * char)) (c : char) : bool :=
  let found :=
    inRanges ranges c ||
    (ignoreCase fl && (inRanges ranges (asciiUpper c) || inRanges ranges (asciiLower c))) in
  xorb invert found.

(** IsWordChar: [A-Za-z0-9_]. *)
Definition isWordChar (c : char) : bool :=
  isAsciiLower c || isAsciiUpper c || (N.leb 48 c && N.leb c 57) || N.eqb c 95.

Definition isWordCharOpt (o : option char) : bool :=
  match o with
  | Some c => isWordChar c
  | None => false
  end.

Definition atLineStart (fl : flags) (st : state) : bool :=
  match prev st with
  | None => true
  | Some c => multiline fl && isLineTerminator c
  end.

Definition atLineEnd (fl : flags) (st : state) : bool :=
  match rest st with
  | [] => true
  | c :: _ => multiline fl && isLineTerminator c
  end.

Definition atWordBoundary (st : state) : bool :=
  xorb (isWordCharOpt (prev st)) (isWordCharOpt (hd_error (rest st))).

(** One code unit consumed when [ok] accepts it. *)
Definition step1 (ok : char -> bool) (st : state) : list state :=
  match rest st with
  | c :: s => if ok c then [State (Some c) s] else []
  | [] => []
  end.

Definition remaining (st : state) : nat := length (rest st).

Definition isZero (o : option nat) : bool :=
  match o with
  | Some 0 => true
  | _ => false
  end.

(** RepeatMatcher (ECMA-262, 22.2.2.3.1).  The result lists every end
    position in the order in which backtracking tries them, so that its head
    is the match JavaScript finds.  An iteration that consumed nothing once
    [min] is exhausted is abandoned, as in the standard.  [fuel] bounds the
    number of iterations; [min + remaining + 1] always suffices, since each
    iteration lowers [min] or consumes input. *)
Fixpoint repeatMatcher (fuel : nat) (m : state -> list state)
    (min : nat) (max : option nat) (greedy : bool) (x : state) : list state :=
  match fuel with
  | 0 => []
  | S fuel' =>
      if isZero max then [x]
      else
        let d (y : state) :=
          if (min =? 0) && (remaining y =? remaining x) then []
          else repeatMatcher fuel' m (pred min) (option_map pred max) greedy y in
        let again := flat_map d (m x) in
        if negb (min =? 0) then again
        else if greedy then again ++ [x]
        else x :: again
  end.

(** The matcher of a pattern: all the positions at which a match starting at
    [st] can end, most preferred first. *)
Fixpoint matcher (fl : flags) (r : regex) (st : state) : list state :=
  match r with
  | Eps => [st]
  | Chr p => step1 (chrMatches fl p) st
  | Cls invert ranges => step1 (clsMatches fl invert ranges) st
  | Dot => step1 (fun c => negb (isLineTerminator c)) st
  | Seq r1 r2 => flat_map (matcher fl r2) (matcher fl r1 st)
  | Alt r1 r2 => matcher fl r1 st ++ matcher fl r2 st
  | Rep min max greedy r' =>
      repeatMatcher (min + remaining st + 1) (matcher fl r') min max greedy st
  | Bol => if atLineStart fl st then [st] else []
  | Eol => if atLineEnd fl st then [st] else []
  | WordB => if atWordBoundary st then [st] else []
  end.

(** The end of the preferred match at [st], as a number of code units
    consumed. *)
Definition matchAt (fl : flags) (r : regex) (st : state) : option nat :=
  match matcher fl r st with
  | y :: _ => Some (remaining st - remaining y)
  | [] => None
  end.

(** The scan of RegExpBuiltinExec: try the position, then the next one. The
    result is the start index and the length of the leftmost match. *)
Fixpoint scan (fl : flags) (r : regex) (p : option char) (s : jsstring) (idx : nat)
  : option (nat * nat) :=
  match matchAt fl r (State p s) with
  | Some n => Some (idx, n)
  | None =>
      match s with
      | [] => None
      | c :: s' => scan fl r (Some c) s' (S idx)
      end
  end.

(** The position [i] of [s], when [i <= length s]. *)
Fixpoint seek (p : option char) (s : jsstring) (i : nat) : option state :=
  match i, s with
  | 0, _ => Some (State p s)
  | S i', c :: s' => seek (Some c) s' i'
  | S _, [] => None
  end.

(** *** Pattern syntax helpers *)

Fixpoint lit (s : jsstring) : regex :=
  match s with
  | [] => Eps
  | [c] => Chr c
  | c :: s' => Seq (Chr c) (lit s')
  end.

Fixpoint seq (rs : list regex) : regex :=
  match rs with
  | [] => Eps
  | [r] => r
  | r :: rs' => Seq r (seq rs')
  end.

Definition star r := Rep 0 None true r.
Definition plus r := Rep 1 None true r.
Definition opt r := Rep 0 (Some 1) true r.
Definition plus_lazy r := Rep 1 None false r.
Definition star_lazy r := Rep 0 None false r.

Definition c1 (a : ascii) : char * char := (chr a, chr a).
Definition rg (a b : ascii) : char * char := (chr a, chr b).

(** [\s] as a class. *)
Definition ws_ranges : list (char * char) :=
  [(9, 13); (32, 32); (160, 160); (5760, 5760); (8192, 8202); (8232, 8233);
   (8239, 8239); (8287, 8287); (12288, 12288); (65279, 65279)]%N.
Definition ws : regex := Cls false ws_ranges.
(** [[\s\S]]: any code unit. *)
Definition any : regex := Cls true [].
(** [\d] *)
Definition digit : regex := Cls false [rg "0" "9"].

End Regex.

Import Regex.

(** ** RegExp objects *)

Module RegExp.

(** A RegExp object: its pattern, its flags and the mutable [lastIndex]. *)
Record RegExp : Type := mkRegExp {
  source : regex;
  global : bool;
  reFlags : flags;
  lastIndex : nat
}.

(** A regular-expression literal [/source/flags]; [lastIndex] starts at 0. *)
Definition literal (r : regex) (g i m : bool) : RegExp :=
  mkRegExp r g (Flags i m) 0.

Definition set_lastIndex (R : RegExp) (n : nat) : RegExp :=
  mkRegExp (source R) (global R) (reFlags R) n.

(** [new RegExp(R)]: a new object with the pattern and the flags of [R] and
    [lastIndex] 0. *)
Definition RegExp_new (R : RegExp) : RegExp := set_lastIndex R 0.

(** A match result: [match.index] and [match[0]]. *)
Record Match : Type := mkMatch { index : nat; matched : jsstring }.

(** RegExpBuiltinExec (ECMA-262, 22.2.7.2): returns the match, or [None] for
    [null], and the object with its [lastIndex] updated.  Only a global
    pattern reads and writes [lastIndex]. *)
Definition exec (R : RegExp) (S : jsstring) : option Match * RegExp :=
  let start := if global R then lastIndex R else 0 in
  let failed := (None, if global R then set_lastIndex R 0 else R) in
  match seek None S start with
  | None => failed
  | Some st =>
      match scan (reFlags R) (source R) (prev st) (rest st) start with
      | None => failed
      | Some (i, n) =>
          (Some (mkMatch i (firstn n (skipn i S))),
           if global R then set_lastIndex R (i + n) else R)
      end
  end.

(** [R.test(S)] *)
Definition test (R : RegExp) (S : jsstring) : bool * RegExp :=
  match exec R S with
  | (Some _, R') => (true, R')
  | (None, R') => (false, R')
  end.

Definition isEmptyString (s : jsstring) : bool :=
  match s with
  | [] => true
  | _ :: _ => false
  end.

(** The RegExp String Iterator drained by [Array.from]: [exec] until [null];
    after an empty match [lastIndex] is advanced by one. *)
Fixpoint matchAll_loop (fuel : nat) (matcher : RegExp) (S : jsstring) : list Match :=
  match fuel with
  | 0 => []
  | S fuel' =>
      match exec matcher S with
      | (None, _) => []
      | (Some m, matcher') =>
          let matcher'' :=
            if isEmptyString (matched m)
            then set_lastIndex matcher' (lastIndex matcher' + 1)
            else matcher' in
          m :: matchAll_loop fuel' matcher'' S
      end
  end.

(** [Array.from(S.matchAll(R))]: a TypeError without the [g] flag; otherwise
    the iteration runs on a clone of [R] that starts at [R.lastIndex], and
    [R] itself is left alone. *)
Definition matchAll (S : jsstring) (R : RegExp) : result (list Match) :=
  if global R
  then Ok (matchAll_loop (length S + 2) (set_lastIndex R (lastIndex R)) S)
  else Throw (TypeError "String.prototype.matchAll called with a non-global RegExp argument").

(** [S.replace(R, replacement)] for a pattern without the [g] flag and a
    replacement without [$]: the first match is replaced. *)
Definition replace (S : jsstring) (R : RegExp) (replacement : jsstring) : jsstring :=
  match fst (exec R S) with
  | None => S
  | Some m => firstn (index m) S ++ replacement ++ skipn (index m + length (matched m)) S
  end.

End RegExp.

Import RegExp.

(** ** The markdown-it parser in its [zero] preset *)

Module MarkdownIt.

(** A token of the parser; [children] is [None] for JavaScript's [null]. *)
#[local] Unset Elimination Schemes.
Inductive Token : Type :=
  Tok (type : string) (content : jsstring) (children : option (list Token)).
#[local] Set Elimination Schemes.

Definition type (t : Token) : string := let 'Tok ty _ _ := t in ty.
Definition content (t : Token) : jsstring := let 'Tok _ c _ := t in c.
Definition children (t : Token) : option (list Token) := let 'Tok _ _ ch := t in ch.

(** The package markdown-it is a dependency of the repository.  Its [zero]
    preset enables the core rules [normalize], [block], [inline] and
    [text_join], the single block rule [paragraph] and the single inline
    rule [text]; every other construct is switched off.  What follows is
    what [new MarkdownIt('zero').parse(text, {})] computes under these
    rules. *)

(** Core rule [normalize]: [\r\n] and [\r] become [\n], NUL becomes U+FFFD. *)
Fixpoint normalize (s : jsstring) : jsstring :=
  match s with
  | [] => []
  | c :: s' =>
      if N.eqb c 13 then
        10%N :: match s' with
                | d :: s'' => if N.eqb d 10 then normalize s'' else normalize s'
                | [] => []
                end
      else if N.eqb c 0 then 65533%N :: normalize s'
      else c :: normalize s'
  end.

(** The line table of the block state: a line ends at [\n] or at the end of
    the input; an input that ends in [\n] has no further line after it. *)
Fixpoint split_lines (cur : jsstring) (s : jsstring) : list jsstring :=
  match s with
  | [] => match cur with [] => [] | _ :: _ => [rev cur] end
  | c :: s' =>
      if N.eqb c 10 then rev cur :: split_lines [] s'
      else split_lines (c :: cur) s'
  end.

Definition isSpace (c : char) : bool := N.eqb c 9 || N.eqb c 32.

(** [state.isEmpty(line)]: nothing but spaces and tabs. *)
Definition isEmptyLine (l : jsstring) : bool := forallb isSpace l.

(** Block rule [paragraph], the only one enabled: empty lines are skipped,
    and a paragraph runs to the next empty line or to the end. *)
Fixpoint paragraphs (cur : list jsstring) (ls : list jsstring) : list (list jsstring) :=
  match ls with
  | [] => match cur with [] => [] | _ :: _ => [rev cur] end
  | l :: ls' =>
      if isEmptyLine l
      then match cur with
           | [] => paragraphs [] ls'
           | _ :: _ => rev cur :: paragraphs [] ls'
           end
      else paragraphs (l :: cur) ls'
  end.

(** [state.getLines(startLine, nextLine, 0, false)] *)
Fixpoint joinLines (ls : list jsstring) : jsstring :=
  match ls with
  | [] => []
  | [l] => l
  | l :: ls' => l ++ 10%N :: joinLines ls'
  end.

(** Inline rule [text], the only one enabled: the whole content is text. *)
Definition inlineParse (c : jsstring) : list Token :=
  match c with
  | [] => []
  | _ :: _ => [Tok "text" c None]
  end.

Definition paragraphTokens (ls : list jsstring) : list Token :=
  let c := trim (joinLines ls) in
  [Tok "paragraph_open" [] None;
   Tok "inline" c (Some (inlineParse c));
   Tok "paragraph_close" [] None].

Definition parse (src : jsstring) : result (list Token) :=
  Ok (flat_map paragraphTokens (paragraphs [] (split_lines [] (normalize src)))).

End MarkdownIt.

Import MarkdownIt.

(** ** build/helpers/markdown.js *)

Section Markdown.

(** [new MarkdownIt('zero').parse(text, {})], which may throw. *)
Variable md_parse : jsstring -> result (list Token).

Definition blockLevelTypes : list string :=
  ["heading_open"; "blockquote_open"; "bullet_list_open"; "ordered_list_open";
   "fence"; "hr"; "table_open"; "code_block"]%string.

(** [array.includes(x)] on an array of strings. *)
Definition Array_includes (l : list string) (x : string) : bool :=
  existsb (String.eqb x) l.

(** The inner [for] of containsMarkdown: the first child that is not plain
    text sets [hasFormatting] and leaves the loop. *)
Fixpoint childrenLoop (cs : list Token) (hasFormatting : bool) : bool :=
  match cs with
  | [] => hasFormatting
  | child :: cs' =>
      if negb (String.eqb (type child) "text") then true
      else childrenLoop cs' hasFormatting
  end.

(** The outer [for] of containsMarkdown; a block-level token sets
    [hasFormatting] and leaves the loop. *)
Fixpoint tokensLoop (ts : list Token) (hasFormatting : bool) : bool :=
  match ts with
  | [] => hasFormatting
  | token :: ts' =>
      let hasFormatting' :=
        if String.eqb (type token) "inline" then
          match children token with
          | Some cs => childrenLoop cs hasFormatting
          | None => hasFormatting
          end
        else hasFormatting in
      if Array_includes blockLevelTypes (type token) then true
      else tokensLoop ts' hasFormatting'
  end.

Definition containsMarkdown (text : jsstring) : result bool :=
  tokens <- md_parse text ;;
  if length tokens <=? 2 then Ok (tokensLoop tokens false)
  else Ok (2 <? length tokens).

Definition markdownPatterns : list RegExp :=
  [ literal (seq [lit (str "**"); plus_lazy Dot; lit (str "**")]) false false false;
    literal (seq [lit (str "*"); plus_lazy Dot; lit (str "*")]) false false false;
    literal (seq [lit (str "__"); plus_lazy Dot; lit (str "__")]) false false false;
    literal (seq [lit (str "_"); plus_lazy Dot; lit (str "_")]) false false false;
    literal (seq [lit (str "~~"); plus_lazy Dot; lit (str "~~")]) false false false;
    literal (seq [Bol; plus (Chr (chr "#")); plus ws; plus Dot; Eol]) false false true;
    literal (seq [Bol; star ws; Cls false [c1 "-"; c1 "*"; c1 "+"]; plus ws; plus Dot; Eol])
            false false true;
    literal (seq [Bol; star ws; plus digit; Chr (chr "."); plus ws; plus Dot; Eol])
            false false true;
    literal (seq [Bol; star ws; Chr (chr ">"); plus Dot; Eol]) false false true;
    literal (seq [Chr (chr "`"); plus (Cls true [c1 "`"]); Chr (chr "`")]) false false false;
    literal (seq [lit (str "```"); star_lazy any; lit (str "```")]) false false false;
    literal (seq [Chr (chr "["); plus_lazy Dot; lit (str "]("); plus_lazy Dot; Chr (chr ")")])
            false false false;
    literal (seq [lit (str "!["); plus_lazy Dot; lit (str "]("); plus_lazy Dot; Chr (chr ")")])
            false false false;
    literal (seq [Chr (chr "|"); plus Dot; Chr (chr "|"); plus Dot; Chr (chr "|")])
            false false false;
    literal (seq [Bol; Rep 3 None true (Chr (chr "-")); Eol]) false false true ].

(** [patterns.some(pattern => pattern.test(text))] *)
Definition Array_some_test (patterns : list RegExp) (text : jsstring) : bool :=
  existsb (fun pattern => fst (test pattern text)) patterns.

Definition hasCommonMarkdownPatterns (text : jsstring) : bool :=
  Array_some_test markdownPatterns text.

Definition detectMarkdown (text : jsstring) : result bool :=
  hasMarkdownStructure <- containsMarkdown text ;;
  if negb hasMarkdownStructure then Ok (hasCommonMarkdownPatterns text)
  else Ok hasMarkdownStructure.

End Markdown.

(** ** src/utils/actions.ts *)

Definition hostChars : regex :=
  Cls false [c1 "-"; rg "a" "z"; rg "A" "Z"; rg "0" "9"; c1 "@"; c1 ":"; c1 "%";
             c1 "."; c1 "_"; c1 "+"; c1 "~"; c1 "#"; c1 "="].

Definition tldChars : regex :=
  Cls false [rg "a" "z"; rg "A" "Z"; rg "0" "9"; c1 "("; c1 ")"].

Definition pathChars : regex :=
  Cls false [c1 "-"; rg "a" "z"; rg "A" "Z"; rg "0" "9"; c1 "("; c1 ")"; c1 "@";
             c1 ":"; c1 "%"; c1 "_"; c1 "+"; c1 "."; c1 "~"; c1 "#"; c1 "?";
             c1 "&"; c1 "/"; c1 "="].

Definition URL_PATTERN_source : regex :=
  seq [lit (str "http"); opt (Chr (chr "s")); lit (str "://");
       opt (lit (str "www."));
       Rep 1 (Some 256) true hostChars;
       Chr (chr ".");
       Rep 1 (Some 6) true tldChars;
       WordB;
       star pathChars].

(** The module-level object [URL_PATTERN], flags [gi], seen when its
    [lastIndex] holds [n]. *)
Definition URL_PATTERN (n : nat) : RegExp :=
  mkRegExp URL_PATTERN_source true (Flags true false) n.

Record ViewAction : Type := mkViewAction {
  action : string;
  label : jsstring;
  url : jsstring;
  clear : option bool
}.

Definition cleanUrl (url : jsstring) : jsstring :=
  let url :=
    if endsWith url (str ")") then
      let hasOpenParen := includes (slice_0_m1 url) (str "(") in
      if negb hasOpenParen then slice_0_m1 url else url
    else url in
  trim url.

(** [array.slice(0, end)] *)
Definition Array_slice_0 {A} (l : list A) (stop : nat) : list A := firstn stop l.

(** [/^www\./] and [/\.(com|org|net|io|dev)$/] *)
Definition wwwPattern : RegExp :=
  literal (seq [Bol; lit (str "www.")]) false false false.

Definition tldPattern : RegExp :=
  literal (seq [Chr (chr ".");
                Alt (lit (str "com")) (Alt (lit (str "org")) (Alt (lit (str "net"))
                  (Alt (lit (str "io")) (lit (str "dev")))));
                Eol]) false false false.

Section Actions.

(** [new URL(url).hostname]; the constructor throws a TypeError on a string
    it cannot parse. *)
Variable URL_hostname : jsstring -> result jsstring.

(** The value [lastIndex] of the object [URL_PATTERN] when the function is
    entered. *)
Variable URL_PATTERN_lastIndex : nat.

(** The [try]/[catch] of the loop body. *)
Definition deriveLabel (url : jsstring) : result jsstring :=
  try_catch
    (hostname <- URL_hostname url ;;
     Ok (replace (replace hostname wwwPattern []) tldPattern []))
    (fun _ => Ok (str "link")).

(** The [for ... of] loop over [actionUrls], pushing onto [actions]. *)
Fixpoint actionsLoop (actionUrls : list jsstring) (actions : list ViewAction)
  : result (list ViewAction) :=
  match actionUrls with
  | [] => Ok actions
  | url :: rest =>
      label <- deriveLabel url ;;
      actionsLoop rest
        (actions ++ [mkViewAction "view" (str "Open " ++ label) url (Some true)])
  end.

Definition processActions (text : jsstring) : result (list ViewAction) :=
  urlMatches <- matchAll text (RegExp_new (URL_PATTERN URL_PATTERN_lastIndex)) ;;
  let actions : list ViewAction := [] in
  if length urlMatches =? 0 then Ok actions
  else
    let actionUrls :=
      map (fun m => cleanUrl (matched m))
          (Array_slice_0 urlMatches (Nat.min 3 (length urlMatches))) in
    actionsLoop actionUrls actions.

(** The label the loop body computes for [url], and the action it pushes. *)
Definition labelFor (url : jsstring) : jsstring :=
  match URL_hostname url with
  | Ok hostname => replace (replace hostname wwwPattern []) tldPattern []
  | Throw _ => str "link"
  end.

Definition viewAction (url : jsstring) : ViewAction :=
  mkViewAction "view" (str "Open " ++ labelFor url) url (Some true).

End Actions.

(** The matches [Array.from(text.matchAll(...))] holds. *)
Definition urlMatches (text : jsstring) : list Match :=
  matchAll_loop (length text + 2) (URL_PATTERN 0) text.

(** [m] ends before [m'] starts, and starts strictly before it. *)
Definition precedes (m m' : Match) : Prop :=
  index m < index m' /\ index m + length (matched m) <= index m'.

(** ** The earlier build of the extractor (compiled [processUrls])

    An older compiled module, which [index] no longer imports.  It orders
    the matches by descending index before it takes three of them, and does
    not clean the URLs. *)

(** [array.sort((a, b) => b.index - a.index)]: a stable sort by descending
    index. *)
Fixpoint insertDescending (m : Match) (sorted : list Match) : list Match :=
  match sorted with
  | [] => [m]
  | x :: sorted' =>
      if index x <? index m then m :: sorted
      else x :: insertDescending m sorted'
  end.

Definition sortDescending (ms : list Match) : list Match :=
  fold_left (fun sorted m => insertDescending m sorted) ms [].

Section ProcessUrls.

Variable URL_hostname : jsstring -> result jsstring.
Variable URL_PATTERN_lastIndex : nat.

Fixpoint urlsLoop (actionUrls : list jsstring) (actions : list ViewAction)
  : result (list ViewAction) :=
  match actionUrls with
  | [] => Ok actions
  | url :: rest =>
      label <- deriveLabel URL_hostname url ;;
      urlsLoop rest
        (actions ++ [mkViewAction "view" (str "Open " ++ label) (trim url) (Some true)])
  end.

(** The result object [{ actions, processedMessage }] as a pair. *)
Definition processUrls (text : jsstring) : result (list ViewAction * jsstring) :=
  urlMatches <- matchAll text (RegExp_new (URL_PATTERN URL_PATTERN_lastIndex)) ;;
  let actions : list ViewAction := [] in
  if length urlMatches =? 0 then Ok (actions, text)
  else
    let sortedMatches := sortDescending urlMatches in
    let processedMessage := text in
    let actionUrls :=
      map matched (Array_slice_0 sortedMatches (Nat.min 3 (length sortedMatches))) in
    actions' <- urlsLoop actionUrls actions ;;
    Ok (actions', processedMessage).

End ProcessUrls.

(** ** Reference points for the statements *)

(** Two calls in a row, with both results. *)
Definition twice {A} (f : jsstring -> result A) (g : jsstring -> result A)
    (text : jsstring) : result (A * A) :=
  a <- f text ;;
  b <- g text ;;
  Ok (a, b).

(** Code units that cannot start a paragraph: space, tab and the line
    breaks. *)
Definition isBlank (c : char) : bool :=
  isSpace c || N.eqb c 10 || N.eqb c 13.

(** A stand-in for the URL parser of the platform, used to instantiate the
    theorems below: it accepts [http://host...] and [https://host...] where
    the host, which runs to the first [/], [?] or [#], is made of lower-case
    letters, digits, dots and hyphens, and throws on anything else. *)
Definition isHostEnd (c : char) : bool :=
  N.eqb c (chr "/") || N.eqb c (chr "?") || N.eqb c (chr "#").

Fixpoint takeHost (s : jsstring) : jsstring :=
  match s with
  | [] => []
  | c :: s' => if isHostEnd c then [] else c :: takeHost s'
  end.

Definition isPlainHostChar (c : char) : bool :=
  isAsciiLower c || (N.leb 48 c && N.leb c 57) || N.eqb c (chr ".") || N.eqb c (chr "-").

Definition plainHostname (u : jsstring) : result jsstring :=
  let after :=
    if startsWith u (str "https://") then Some (skipn 8 u)
    else if startsWith u (str "http://") then Some (skipn 7 u)
    else None in
  match after with
  | Some s =>
      let h := takeHost s in
      if negb (isEmptyString h) && forallb isPlainHostChar h then Ok h
      else Throw (TypeError "Invalid URL")
  | None => Throw (TypeError "Invalid URL")
  end.

(** The display label in the words of the specification: the hostname
    without a leading "www.", then without a trailing ".com", ".org",
    ".net", ".io" or ".dev", after "Open ". *)
Definition strip_leading_www (hostname : jsstring) : jsstring :=
  if startsWith hostname (str "www.") then skipn 4 hostname else hostname.

Definition tldSuffixes : list jsstring :=
  map str [".com"; ".org"; ".net"; ".io"; ".dev"]%string.

Definition strip_trailing_tld (hostname : jsstring) : jsstring :=
  match find (endsWith hostname) tldSuffixes with
  | Some suffix => firstn (length hostname - length suffix) hostname
  | None => hostname
  end.

Definition spec_displayLabel (hostname : jsstring) : jsstring :=
  str "Open " ++ strip_trailing_tld (strip_leading_www hostname).

(** The string is exactly one of the suffixes. *)
Definition isTld (s : jsstring) : bool := existsb (string_eqb s) tldSuffixes.

(** Copy the string up to the point where what is left is a suffix. *)
Fixpoint dropTld (s : jsstring) : jsstring :=
  match s with
  | [] => []
  | c :: s' => if isTld s then [] else c :: dropTld s'
  end.

(** The leftmost position from which the string is exactly a suffix. *)
Fixpoint firstTld (s : jsstring) (idx : nat) : option (nat * nat) :=
  if isTld s then Some (idx, length s)
  else match s with
       | [] => None
       | _ :: s' => firstTld s' (S idx)
       end.

(** ** Reference points for further properties *)

(** A token that by itself marks formatting: a block-level one, or an
    inline token with a child that is not plain text. *)
Definition isFormattingToken (t : Token) : bool :=
  Array_includes blockLevelTypes (type t) ||
  (String.eqb (type t) "inline" &&
   match children t with
   | Some cs => existsb (fun child => negb (String.eqb (type child) "text")) cs
   | None => false
   end).

(** The code units from [lo] to [hi]. *)
Definition N_range (lo hi : N) : list N :=
  map (fun k => (lo + N.of_nat k)%N) (List.seq 0 (N.to_nat (hi + 1 - lo))).

(** A sufficient test that every match of [r] consumes a code unit that
    satisfies [special]. *)
Fixpoint needs (fl : flags) (special : char -> bool) (r : regex) : bool :=
  match r with
  | Chr p =>
      special p && (negb (ignoreCase fl) || (special (asciiUpper p) && special (asciiLower p)))
  | Cls false ranges =>
      negb (ignoreCase fl) &&
      forallb (fun rg => forallb special (N_range (fst rg) (snd rg))) ranges
  | Seq r1 r2 => needs fl special r1 || needs fl special r2
  | Alt r1 r2 => needs fl special r1 && needs fl special r2
  | Rep min max _ r' => negb (min =? 0) && negb (isZero max) && needs fl special r'
  | _ => false
  end.

(** The code units [r] can consume at all. *)
Fixpoint consumable (fl : flags) (r : regex) (c : char) : bool :=
  match r with
  | Chr p => chrMatches fl p c
  | Cls invert ranges => clsMatches fl invert ranges c
  | Dot => negb (isLineTerminator c)
  | Seq r1 r2 | Alt r1 r2 => consumable fl r1 c || consumable fl r2 c
  | Rep _ _ _ r' => consumable fl r' c
  | _ => false
  end.

Definition isOneOf (chars : string) (c : char) : bool :=
  existsb (N.eqb c) (str chars).

(** The punctuation the fallback patterns are built around. *)
Definition isMarkupChar (c : char) : bool := isOneOf "*_~#-+>`[|" c.

Definition isDigitChar (c : char) : bool := N.leb 48 c && N.leb c 57.

(** The code units the three classes and the literals of [URL_PATTERN]
    accept: ASCII letters and digits and some ASCII punctuation. *)
Definition isUrlChar (c : char) : bool :=
  isAsciiLower c || isAsciiUpper c || isDigitChar c || isOneOf "-@:%._+~#=()?&/" c.

(** A sufficient test that [r] consumes only code units that satisfy [ok]
    (for an [ok] that holds of a letter when it holds of its other case). *)
Fixpoint alphabetWithin (ok : char -> bool) (r : regex) : bool :=
  match r with
  | Chr p => ok p && ok (asciiUpper p) && ok (asciiLower p)
  | Cls false ranges =>
      forallb (fun rg => forallb ok (N_range (fst rg) (snd rg))) ranges
  | Cls true _ | Dot => false
  | Seq r1 r2 | Alt r1 r2 => alphabetWithin ok r1 && alphabetWithin ok r2
  | Rep _ _ _ r' => alphabetWithin ok r'
  | _ => true
  end.

(** ** src/index.ts: the [ntfy_me] tool *)

Module Tool.

(** How an awaited promise or a statement ends: with a value, or with a
    thrown error, of which the handlers read only [message]. *)
Inductive attempt (A : Type) : Type :=
| Fulfilled (a : A)
| Rejected (message : jsstring).
Arguments Fulfilled {A} a.
Arguments Rejected {A} message.

Definition exn_message (e : exn) : jsstring :=
  match e with
  | TypeError msg => str msg
  | Error msg => str msg
  end.

Definition ofResult {A} (r : result A) : attempt A :=
  match r with
  | Ok a => Fulfilled a
  | Throw e => Rejected (exn_message e)
  end.

(** [a || b] for an optional string [a]: the empty string is falsy. *)
Definition orElse (a : option jsstring) (b : jsstring) : jsstring :=
  match a with
  | Some (c :: s) => c :: s
  | _ => b
  end.

Definition truthy (s : jsstring) : bool := negb (isEmptyString s).

(** [array.join(sep)] on an array of strings. *)
Fixpoint Array_join (sep : jsstring) (l : list jsstring) : jsstring :=
  match l with
  | [] => []
  | [s] => s
  | s :: l' => s ++ sep ++ Array_join sep l'
  end.

(** Number to decimal string, for array lengths and status codes. *)
Fixpoint digitsOf (fuel n : nat) (acc : jsstring) : jsstring :=
  match fuel with
  | 0 => acc
  | S fuel' =>
      let acc' := (48 + N.of_nat (n mod 10))%N :: acc in
      if n <? 10 then acc' else digitsOf fuel' (n / 10) acc'
  end.

Definition Number_toString (n : nat) : jsstring := digitsOf (S n) n [].

(** *** JSON.stringify on an array of view actions *)

Definition hexDigit (n : N) : char :=
  if N.ltb n 10 then (48 + n)%N else (87 + n)%N.

(** UnicodeEscape: [\uXXXX] with lower-case digits. *)
Definition unicodeEscape (c : char) : jsstring :=
  [92; 117; hexDigit ((c / 4096) mod 16); hexDigit ((c / 256) mod 16);
   hexDigit ((c / 16) mod 16); hexDigit (c mod 16)]%N.

Definition isLeadSurrogate (c : char) : bool := N.leb 55296 c && N.leb c 56319.
Definition isTrailSurrogate (c : char) : bool := N.leb 56320 c && N.leb c 57343.

(** The body of QuoteJSONString (ECMA-262, 25.5.2.3): the two-character
    escapes, [\uXXXX] for the other control characters and for a surrogate
    without its partner, everything else as it is. *)
Fixpoint quoteChars (s : jsstring) : jsstring :=
  match s with
  | [] => []
  | c :: s' =>
      if N.eqb c 8 then [92; 98]%N ++ quoteChars s'
      else if N.eqb c 9 then [92; 116]%N ++ quoteChars s'
      else if N.eqb c 10 then [92; 110]%N ++ quoteChars s'
      else if N.eqb c 12 then [92; 102]%N ++ quoteChars s'
      else if N.eqb c 13 then [92; 114]%N ++ quoteChars s'
      else if N.eqb c 34 then [92; 34]%N ++ quoteChars s'
      else if N.eqb c 92 then [92; 92]%N ++ quoteChars s'
      else if N.ltb c 32 then unicodeEscape c ++ quoteChars s'
      else if isLeadSurrogate c then
        match s' with
        | d :: s'' =>
            if isTrailSurrogate d then c :: d :: quoteChars s''
            else unicodeEscape c ++ quoteChars s'
        | [] => unicodeEscape c
        end
      else if isTrailSurrogate c then unicodeEscape c ++ quoteChars s'
      else c :: quoteChars s'
  end.

Definition QuoteJSONString (s : jsstring) : jsstring :=
  34%N :: quoteChars s ++ [34%N].

(** An action object has its keys in the order [action], [label], [url],
    [clear]; an undefined [clear] is left out. *)
Definition stringifyAction (a : ViewAction) : jsstring :=
  [123%N] ++ QuoteJSONString (str "action") ++ [58%N] ++ QuoteJSONString (str (action a)) ++
  [44%N] ++ QuoteJSONString (str "label") ++ [58%N] ++ QuoteJSONString (label a) ++
  [44%N] ++ QuoteJSONString (str "url") ++ [58%N] ++ QuoteJSONString (url a) ++
  match clear a with
  | Some b =>
      [44%N] ++ QuoteJSONString (str "clear") ++ [58%N] ++
      (if b then str "true" else str "false")
  | None => []
  end ++ [125%N].

Definition JSON_stringify (l : list ViewAction) : jsstring :=
  [91%N] ++ Array_join [44%N] (map stringifyAction l) ++ [93%N].

(** *** Requests, responses and the world *)

(** A plain object used as a string map: the keys in insertion order. *)
Definition Headers := list (jsstring * jsstring).

Fixpoint setHeader (h : Headers) (k v : jsstring) : Headers :=
  match h with
  | [] => [(k, v)]
  | (k', v') :: h' =>
      if string_eqb k' k then (k', v) :: h' else (k', v') :: setHeader h' k v
  end.

Fixpoint getHeader (h : Headers) (k : jsstring) : option jsstring :=
  match h with
  | [] => None
  | (k', v') :: h' => if string_eqb k' k then Some v' else getHeader h' k
  end.

(** The arguments of a [fetch] call: the URL, and [method], [body] and
    [headers] of the init object, where given. *)
Record Request : Type := mkRequest {
  req_url : jsstring;
  req_method : option string;
  req_body : option jsstring;
  req_headers : Headers
}.

Record Response : Type := mkResponse {
  ok : bool;
  status : nat;
  text : attempt jsstring
}.

(** What a handler leaves behind: the lines of [console.log], the calls of
    [console.error] (each with its arguments, an error standing as its
    message) and the requests sent. *)
Record World : Type := mkWorld {
  console : list jsstring;
  errors : list (list jsstring);
  requests : list Request
}.

Definition IO (A : Type) : Type := World -> attempt A * World.

Definition ret {A} (a : A) : IO A := fun w => (Fulfilled a, w).

Definition throw {A} (message : jsstring) : IO A := fun w => (Rejected message, w).

Definition bindIO {A B} (m : IO A) (k : A -> IO B) : IO B :=
  fun w =>
    match m w with
    | (Fulfilled a, w') => k a w'
    | (Rejected msg, w') => (Rejected msg, w')
    end.

Definition liftAttempt {A} (x : attempt A) : IO A := fun w => (x, w).

Definition console_log (line : jsstring) : IO unit :=
  fun w => (Fulfilled tt, mkWorld (console w ++ [line]) (errors w) (requests w)).

Definition console_error (args : list jsstring) : IO unit :=
  fun w => (Fulfilled tt, mkWorld (console w) (errors w ++ [args]) (requests w)).

(** [try { body } catch (error) { handler(error.message) }] *)
Definition tryIO {A} (body : IO A) (handler : jsstring -> IO A) : IO A :=
  fun w =>
    match body w with
    | (Fulfilled a, w') => (Fulfilled a, w')
    | (Rejected msg, w') => handler msg w'
    end.

Inductive Priority : Type := Pmin | Plow | Pdefault | Phigh | Pmax.

Definition Priority_string (p : Priority) : jsstring :=
  str match p with
      | Pmin => "min"
      | Plow => "low"
      | Pdefault => "default"
      | Phigh => "high"
      | Pmax => "max"
      end.

(** The module-level settings, as the handlers find them after
    [initializeServer] has checked them. *)
Record Env : Type := mkEnv {
  NTFY_URL : jsstring;
  NTFY_TOPIC : jsstring;
  NTFY_TOKEN : jsstring
}.

(** The arguments of [ntfy_me] after validation against the schema. *)
Record NotifyArgs : Type := mkNotifyArgs {
  taskTitle : jsstring;
  taskSummary : jsstring;
  ntfyUrl : option jsstring;
  ntfyTopic : option jsstring;
  accessToken : option jsstring;
  priority : option Priority;
  tags : option (list jsstring);
  markdown : option bool;
  actions : option (list ViewAction)
}.

(** The result a tool hands back: the texts of [content], and [isError]. *)
Record ToolResult : Type := mkToolResult {
  content : list jsstring;
  isError : bool
}.

End Tool.

Notation "x <~ m ;; k" := (Tool.bindIO m (fun x => k))
  (at level 61, m at next level, right associativity).

Module NtfyMe.

Import Tool.

Section Handler.

Variable md_parse : jsstring -> result (list Token).
Variable URL_hostname : jsstring -> result jsstring.
Variable URL_PATTERN_lastIndex : nat.

(** [fetch(url, init)] of node-fetch: the response, or a rejection. *)
Variable fetch : Request -> attempt Response.

Variable env : Env.

Definition fetch_ (r : Request) : IO Response :=
  fun w => (fetch r, mkWorld (console w) (errors w) (requests w ++ [r])).

(** The [try] block of the handler. *)
Definition ntfy_me_try (a : NotifyArgs) : IO ToolResult :=
  let url := orElse (ntfyUrl a) (NTFY_URL env) in
  let topic := orElse (ntfyTopic a) (NTFY_TOPIC env) in
  let token := orElse (accessToken a) (NTFY_TOKEN env) in
  let baseUrl := if endsWith url (str "/") then slice_0_m1 url else url in
  let endpoint := baseUrl ++ str "/" ++ topic in
  let headers : Headers := [(str "Title", taskTitle a)] in
  let headers :=
    if truthy token
    then setHeader headers (str "Authorization") (str "Bearer " ++ token)
    else headers in
  let headers :=
    match priority a with
    | Some p => setHeader headers (str "Priority") (Priority_string p)
    | None => headers
    end in
  viewActions <~
    match actions a with
    | Some l => ret l
    | None =>
        liftAttempt
          (ofResult (processActions URL_hostname URL_PATTERN_lastIndex (taskSummary a)))
    end ;;
  shouldUseMarkdown <~
    match markdown a with
    | Some b => ret b
    | None => liftAttempt (ofResult (detectMarkdown md_parse (taskSummary a)))
    end ;;
  let headers :=
    if shouldUseMarkdown : bool
    then setHeader headers (str "X-Markdown") (str "true")
    else headers in
  let headers :=
    match tags a with
    | Some (t :: ts) => setHeader headers (str "Tags") (Array_join (str ",") (t :: ts))
    | _ => headers
    end in
  let headers :=
    if 0 <? length viewActions
    then setHeader headers (str "X-Actions") (JSON_stringify viewActions)
    else headers in
  let cleanEndpoint := trim endpoint in
  _ <~ console_log
         (str "Sending notification to " ++ cleanEndpoint ++
          (if shouldUseMarkdown then str " with Markdown formatting" else []) ++
          (if 0 <? length viewActions
           then str " and " ++ Number_toString (length viewActions) ++ str " view action(s)"
           else [])) ;;
  response <~ fetch_ (mkRequest cleanEndpoint (Some "POST"%string)
                                (Some (taskSummary a)) headers) ;;
  if negb (ok response) then
    if (status response =? 401) || (status response =? 403) then
      serverName <~ liftAttempt (ofResult (URL_hostname url)) ;;
      throw (str "Authentication failed when sending notification to " ++
             serverName ++ str "/" ++ topic ++ str ". " ++
             str "This ntfy topic requires an access token. Please provide a token using the 'accessToken' parameter " ++
             str "or set the NTFY_TOKEN environment variable.")
    else
      body <~ liftAttempt (text response) ;;
      throw (str "Failed to send ntfy notification. Status code: " ++
             Number_toString (status response) ++ str ", Message: " ++ body)
  else
    ret (mkToolResult
           [str "Notification sent successfully to " ++ cleanEndpoint ++ str "!"]
           false).

Definition ntfy_me (a : NotifyArgs) : IO ToolResult :=
  tryIO (ntfy_me_try a)
        (fun message =>
           ret (mkToolResult [str "Failed to send ntfy notification: " ++ message] true)).

End Handler.

End NtfyMe.

(** *** The parts of a [ntfy_me] call, for the statements *)

Section NotifyParts.

Import Tool.

Variable md_parse : jsstring -> result (list Token).
Variable URL_hostname : jsstring -> result jsstring.
Variable URL_PATTERN_lastIndex : nat.
Variable env : Env.
Variable a : NotifyArgs.

Definition notifyUrl : jsstring := orElse (ntfyUrl a) (NTFY_URL env).
Definition notifyTopic : jsstring := orElse (ntfyTopic a) (NTFY_TOPIC env).
Definition notifyToken : jsstring := orElse (accessToken a) (NTFY_TOKEN env).

(** The server URL without one final slash. *)
Definition notifyBase : jsstring :=
  if endsWith notifyUrl (str "/") then slice_0_m1 notifyUrl else notifyUrl.

Definition notifyEndpoint : jsstring := trim (notifyBase ++ str "/" ++ notifyTopic).

(** The actions the call uses: the given ones, or those of processActions. *)
Definition notifyActions : list ViewAction :=
  match actions a with
  | Some l => l
  | None =>
      map (fun m => viewAction URL_hostname (cleanUrl (matched m)))
          (firstn 3 (urlMatches (taskSummary a)))
  end.

(** The markdown flag the call uses: the given one, or that of
    detectMarkdown, which may throw. *)
Definition notifyMarkdown : attempt bool :=
  match markdown a with
  | Some b => Fulfilled b
  | None => ofResult (detectMarkdown md_parse (taskSummary a))
  end.

(** The headers and the request of a call whose markdown flag is [b]. *)
Definition notifyHeaders (b : bool) : Headers :=
  let h := [(str "Title", taskTitle a)] in
  let h := if truthy notifyToken
           then setHeader h (str "Authorization") (str "Bearer " ++ notifyToken)
           else h in
  let h := match priority a with
           | Some p => setHeader h (str "Priority") (Priority_string p)
           | None => h
           end in
  let h := if b then setHeader h (str "X-Markdown") (str "true") else h in
  let h := match tags a with
           | Some (t :: ts) => setHeader h (str "Tags") (Array_join (str ",") (t :: ts))
           | _ => h
           end in
  if 0 <? length notifyActions
  then setHeader h (str "X-Actions") (JSON_stringify notifyActions)
  else h.

Definition notifyRequest (b : bool) : Request :=
  mkRequest notifyEndpoint (Some "POST"%string) (Some (taskSummary a)) (notifyHeaders b).

(** The line written to the console before the request is sent. *)
Definition notifyLine (b : bool) : jsstring :=
  str "Sending notification to " ++ notifyEndpoint ++
  (if b then str " with Markdown formatting" else []) ++
  (if 0 <? length notifyActions
   then str " and " ++ Number_toString (length notifyActions) ++ str " view action(s)"
   else []).

Definition failure (message : jsstring) : ToolResult :=
  mkToolResult [str "Failed to send ntfy notification: " ++ message] true.

(** What the handler answers once [fetch] has settled. *)
Definition notifyAnswer (settled : attempt Response) : ToolResult :=
  match settled with
  | Rejected message => failure message
  | Fulfilled response =>
      if ok response then
        mkToolResult
          [str "Notification sent successfully to " ++ notifyEndpoint ++ str "!"] false
      else if (status response =? 401) || (status response =? 403) then
        match URL_hostname notifyUrl with
        | Ok serverName =>
            failure
              (str "Authentication failed when sending notification to " ++
               serverName ++ str "/" ++ notifyTopic ++ str ". " ++
               str "This ntfy topic requires an access token. Please provide a token using the 'accessToken' parameter " ++
               str "or set the NTFY_TOKEN environment variable.")
        | Throw e => failure (exn_message e)
        end
      else
        match text response with
        | Fulfilled body =>
            failure
              (str "Failed to send ntfy notification. Status code: " ++
               Number_toString (status response) ++ str ", Message: " ++ body)
        | Rejected message => failure message
        end
  end.

End NotifyParts.

(** The same call with another server URL. *)
Definition withNtfyUrl (a : Tool.NotifyArgs) (u : jsstring) : Tool.NotifyArgs :=
  Tool.mkNotifyArgs (Tool.taskTitle a) (Tool.taskSummary a) (Some u) (Tool.ntfyTopic a)
    (Tool.accessToken a) (Tool.priority a) (Tool.tags a) (Tool.markdown a) (Tool.actions a).


(** ** src/utils/messages.ts and the [ntfy_me_fetch] tool *)

Module Messages.

Import Tool.

(** A value of type [string | string[]]. *)
Inductive StringOrArray : Type :=
| OneString (s : jsstring)
| ManyStrings (l : list jsstring).

(** An array is truthy even when empty; a string is truthy unless empty. *)
Definition truthyFilter (v : option StringOrArray) : bool :=
  match v with
  | Some (OneString s) => truthy s
  | Some (ManyStrings _) => true
  | None => false
  end.

(** [Array.isArray(v) ? v.join(',') : v] *)
Definition filterValue (v : StringOrArray) : jsstring :=
  match v with
  | OneString s => s
  | ManyStrings l => Array_join (str ",") l
  end.

Definition truthyOpt (o : option jsstring) : bool :=
  match o with
  | Some s => truthy s
  | None => false
  end.

Definition orEmpty (o : option jsstring) : jsstring :=
  match o with
  | Some s => s
  | None => []
  end.

(** [s.split('\n')]: the pieces between line feeds, the last one included
    even when empty. *)
Fixpoint split_LF (cur : jsstring) (s : jsstring) : list jsstring :=
  match s with
  | [] => [rev cur]
  | c :: s' =>
      if N.eqb c 10 then rev cur :: split_LF [] s'
      else split_LF (c :: cur) s'
  end.

(** The lines kept for parsing: those that are not blank. *)
Definition messageLines (rawResponse : jsstring) : list jsstring :=
  filter (fun line => 0 <? length (trim line)) (split_LF [] rawResponse).

(** A value of type [string | number]. *)
Inductive Since (Num : Type) : Type :=
| SinceString (s : jsstring)
| SinceNumber (x : Num).
Arguments SinceString {Num} s.
Arguments SinceNumber {Num} x.

Section FetchMessages.

(** JavaScript numbers, as far as the code uses them: [since] may be one. *)
Variable Num : Type.
Variable Num_toString : Num -> jsstring.

(** The values [JSON.parse] returns other than [null]; the property key
    that [data.topic] is converted to when it is used as an index, which
    throws a TypeError for an object that hides [toString] behind something
    that cannot be called, such as [{"toString": null}]; the keys every
    plain object inherits; and the message of the TypeError of calling
    [push] on an inherited value. *)
Variable Value : Type.
Variable JSON_parse : jsstring -> attempt (option Value).
Variable topicKey : Value -> attempt jsstring.
Variable inherited : jsstring -> bool.
Variable notAFunction : jsstring.

Variable fetch : Request -> attempt Response.

Definition Since_toString (s : Since Num) : jsstring :=
  match s with
  | SinceString t => t
  | SinceNumber x => Num_toString x
  end.

Record NtfyFetchOptions : Type := mkOptions {
  ntfyUrl : jsstring;
  topic : jsstring;
  token : option jsstring;
  since : option (Since Num);
  messageId : option jsstring;
  messageText : option jsstring;
  messageTitle : option jsstring;
  priorities : option StringOrArray;
  tags : option StringOrArray
}.

(** [Record<string, MessageData[]>]: the own properties in the order in
    which they were created. *)
Definition Records := list (jsstring * list Value).

Fixpoint lookup (r : Records) (k : jsstring) : option (list Value) :=
  match r with
  | [] => None
  | (k', v) :: r' => if string_eqb k' k then Some v else lookup r' k
  end.

(** [records[k].push(data)] for an own property [k]. *)
Fixpoint push (r : Records) (k : jsstring) (data : Value) : Records :=
  match r with
  | [] => []
  | (k', v) :: r' =>
      if string_eqb k' k then (k', v ++ [data]) :: r' else (k', v) :: push r' k data
  end.

(** The [forEach] that fills [messageRecords].  [messageRecords[topic]]
    converts the topic to a property key first, which may throw.  For a key
    that is not an own property but is inherited, [messageRecords[topic]] is
    a truthy value without [push], and the call throws. *)
Fixpoint groupLoop (messageData : list Value) (messageRecords : Records)
  : attempt Records :=
  match messageData with
  | [] => Fulfilled messageRecords
  | data :: rest =>
      match topicKey data with
      | Rejected message => Rejected message
      | Fulfilled topic =>
          match lookup messageRecords topic with
          | Some _ => groupLoop rest (push messageRecords topic data)
          | None =>
              if inherited topic then Rejected notAFunction
              else groupLoop rest (messageRecords ++ [(topic, [data])])
          end
      end
  end.

(** The [map] over the lines: a line that does not parse is reported and
    gives [null]. *)
Fixpoint parseLines (lines : list jsstring) : IO (list (option Value)) :=
  match lines with
  | [] => ret []
  | line :: rest =>
      msg <~ tryIO (liftAttempt (JSON_parse line))
                   (fun message =>
                      _ <~ console_error [str "Error parsing line:"; line; message] ;;
                      ret None) ;;
      msgs <~ parseLines rest ;;
      ret (msg :: msgs)
  end.

(** [.filter(msg => msg !== null)] *)
Fixpoint notNull (l : list (option Value)) : list Value :=
  match l with
  | [] => []
  | Some v :: l' => v :: notNull l'
  | None :: l' => notNull l'
  end.

Definition fetch_ (r : Request) : IO Response :=
  fun w => (fetch r, mkWorld (console w) (errors w) (requests w ++ [r])).

Definition fetchMessages_try (options : NtfyFetchOptions) : IO (option Records) :=
  let baseUrl :=
    if endsWith (ntfyUrl options) (str "/") then slice_0_m1 (ntfyUrl options)
    else ntfyUrl options in
  let endpoint := baseUrl ++ str "/" ++ topic options ++ str "/json?poll=1" in
  let endpoint :=
    match since options with
    | Some s => endpoint ++ str "&since=" ++ Since_toString s
    | None => endpoint
    end in
  let headers : Headers := [] in
  let headers :=
    if truthyOpt (token options)
    then setHeader headers (str "Authorization") (str "Bearer " ++ orEmpty (token options))
    else headers in
  let headers :=
    if truthyOpt (messageId options)
    then setHeader headers (str "X-ID") (orEmpty (messageId options))
    else headers in
  let headers :=
    if truthyOpt (messageText options)
    then setHeader headers (str "X-Message") (orEmpty (messageText options))
    else headers in
  let headers :=
    if truthyOpt (messageTitle options)
    then setHeader headers (str "X-Title") (orEmpty (messageTitle options))
    else headers in
  let headers :=
    match priorities options with
    | Some v =>
        if truthyFilter (Some v) then setHeader headers (str "X-Priority") (filterValue v)
        else headers
    | None => headers
    end in
  let headers :=
    match tags options with
    | Some v =>
        if truthyFilter (Some v) then setHeader headers (str "X-Tags") (filterValue v)
        else headers
    | None => headers
    end in
  let filterInfo : jsstring := [] in
  let filterInfo :=
    if truthyOpt (messageId options)
    then filterInfo ++ str " [ID: " ++ orEmpty (messageId options) ++ str "]"
    else filterInfo in
  let filterInfo :=
    if truthyOpt (messageTitle options)
    then filterInfo ++ str " [Title: " ++ orEmpty (messageTitle options) ++ str "]"
    else filterInfo in
  let filterInfo :=
    if truthyOpt (messageText options)
    then filterInfo ++ str " [Message: " ++ orEmpty (messageText options) ++ str "]"
    else filterInfo in
  let filterInfo :=
    match priorities options with
    | Some v =>
        if truthyFilter (Some v)
        then filterInfo ++ str " [Priorities: " ++ filterValue v ++ str "]"
        else filterInfo
    | None => filterInfo
    end in
  let filterInfo :=
    match tags options with
    | Some v =>
        if truthyFilter (Some v)
        then filterInfo ++ str " [Tags: " ++ filterValue v ++ str "]"
        else filterInfo
    | None => filterInfo
    end in
  _ <~ console_log
         (str "Fetching messages from " ++ endpoint ++
          (if truthy filterInfo then str " with filters:" ++ filterInfo else [])) ;;
  response <~ fetch_ (mkRequest endpoint None None headers) ;;
  if negb (ok response) then
    if (status response =? 401) || (status response =? 403) then
      throw (str "Authentication failed when fetching messages from " ++ topic options ++
             str ". " ++ str "This ntfy topic requires an access token.")
    else
      body <~ liftAttempt (text response) ;;
      throw (str "Failed to fetch ntfy messages. Status code: " ++
             Number_toString (status response) ++ str ", Message: " ++ body)
  else
    rawResponse <~ liftAttempt (text response) ;;
    if negb (truthy rawResponse) then ret None
    else
      parsed <~ parseLines (messageLines rawResponse) ;;
      let messageData := notNull parsed in
      messageRecords <~ liftAttempt (groupLoop messageData []) ;;
      ret (Some messageRecords).

Definition fetchMessages (options : NtfyFetchOptions) : IO (option Records) :=
  tryIO (fetchMessages_try options)
        (fun message =>
           _ <~ console_error [str "Error fetching messages:"; message] ;;
           throw message).

End FetchMessages.

End Messages.

Module NtfyMeFetch.

Import Tool.

(** *** The order in which an object lists its own keys *)

Definition isDigit (c : char) : bool := N.leb 48 c && N.leb c 57.

Definition decimalValue (k : jsstring) : N :=
  fold_left (fun acc c => (acc * 10 + (c - 48))%N) k 0%N.

(** An array index: the canonical decimal form of an integer from 0 to
    2^32 - 2. *)
Definition arrayIndex (k : jsstring) : option N :=
  match k with
  | [] => None
  | c :: k' =>
      if forallb isDigit k && (length k <=? 10) &&
         (negb (N.eqb c 48) || isEmptyString k') &&
         N.leb (decimalValue k) 4294967294
      then Some (decimalValue k)
      else None
  end.

Definition isArrayIndex (k : jsstring) : bool :=
  match arrayIndex k with
  | Some _ => true
  | None => false
  end.

Definition indexOf (k : jsstring) : N :=
  match arrayIndex k with
  | Some i => i
  | None => 0%N
  end.

Section Entries.

Variable V : Type.

Fixpoint insertByIndex (e : jsstring * V) (sorted : list (jsstring * V))
  : list (jsstring * V) :=
  match sorted with
  | [] => [e]
  | x :: sorted' =>
      if N.leb (indexOf (fst e)) (indexOf (fst x)) then e :: sorted
      else x :: insertByIndex e sorted'
  end.

(** [Object.entries(o)]: the array indices in ascending order, then the
    other keys in the order of their creation. *)
Definition Object_entries (o : list (jsstring * V)) : list (jsstring * V) :=
  fold_right insertByIndex [] (filter (fun e => isArrayIndex (fst e)) o) ++
  filter (fun e => negb (isArrayIndex (fst e))) o.

Definition Object_values (o : list (jsstring * V)) : list V :=
  map snd (Object_entries o).

Definition Object_keys (o : list (jsstring * V)) : list jsstring :=
  map fst (Object_entries o).

End Entries.

Section Handler.

Variable Num : Type.
Variable Num_toString : Num -> jsstring.
(** A number is falsy when it is 0 or NaN. *)
Variable Num_truthy : Num -> bool.

Variable Value : Type.
Variable JSON_parse : jsstring -> attempt (option Value).
Variable topicKey : Value -> attempt jsstring.
Variable inherited : jsstring -> bool.
Variable notAFunction : jsstring.
(** [JSON.stringify(messages, null, 2)] *)
Variable JSON_stringify_pretty : list Value -> jsstring.

Variable fetch : Request -> attempt Response.
Variable env : Env.

Record FetchArgs : Type := mkFetchArgs {
  ntfyUrl : option jsstring;
  ntfyTopic : option jsstring;
  accessToken : option jsstring;
  since : option (Messages.Since Num);
  messageId : option jsstring;
  messageText : option jsstring;
  messageTitle : option jsstring;
  priorities : option Messages.StringOrArray;
  tags : option Messages.StringOrArray
}.

(** [since || "10m"] *)
Definition sinceOrDefault (s : option (Messages.Since Num)) : Messages.Since Num :=
  match s with
  | Some (Messages.SinceString t) =>
      if truthy t then Messages.SinceString t else Messages.SinceString (str "10m")
  | Some (Messages.SinceNumber x) =>
      if Num_truthy x then Messages.SinceNumber x else Messages.SinceString (str "10m")
  | None => Messages.SinceString (str "10m")
  end.

Definition ntfy_me_fetch_try (a : FetchArgs) : IO ToolResult :=
  let url := orElse (ntfyUrl a) (NTFY_URL env) in
  let topic := orElse (ntfyTopic a) (NTFY_TOPIC env) in
  let token := orElse (accessToken a) (NTFY_TOKEN env) in
  let sinceSetting := sinceOrDefault (since a) in
  messageRecords <~
    Messages.fetchMessages Num_toString JSON_parse topicKey inherited notAFunction fetch
      (Messages.mkOptions url topic (Some token) (Some sinceSetting)
         (messageId a) (messageText a) (messageTitle a) (priorities a) (tags a)) ;;
  match messageRecords with
  | None => ret (mkToolResult [str "No messages found in topic " ++ topic] false)
  | Some records =>
      let messagesCount :=
        fold_left (fun sum messages => sum + length messages) (Object_values records) 0 in
      let formattedMessages :=
        map (fun e =>
               str "Topic: " ++ fst e ++ [10%N] ++ str "Messages: " ++
               Number_toString (length (snd e)) ++ [10%N] ++
               JSON_stringify_pretty (snd e))
            (Object_entries records) in
      ret (mkToolResult
             ((str "Successfully fetched " ++ Number_toString messagesCount ++
               str " message(s) from " ++
               Number_toString (length (Object_keys records)) ++ str " topic(s)")
              :: formattedMessages)
             false)
  end.

Definition ntfy_me_fetch (a : FetchArgs) : IO ToolResult :=
  tryIO (ntfy_me_fetch_try a)
        (fun message =>
           ret (mkToolResult [str "Failed to fetch ntfy messages: " ++ message] true)).

End Handler.

End NtfyMeFetch.

(** ** src/index.ts: start-up *)

Module Startup.

Import Tool.

(** How [prompts] ends: with an answer object, whose [token] may be
    missing; with the user's cancelling, which runs [onCancel]; or with an
    error. *)
Inductive Prompted : Type :=
| Answered (token : option jsstring)
| Cancelled
| PromptFailed (message : jsstring).

(** How [initializeServer] goes on: [process.exit(code)], or the server is
    created with these settings. *)
Inductive Started : Type :=
| Exit (code : nat)
| Serve (env : Env).

Section Initialize.

(** [process.env] *)
Variable getenv : string -> option jsstring.

(** The answer to the password prompt, should it be asked. *)
Variable prompts : Prompted.

Definition NTFY_TOPIC : option jsstring := getenv "NTFY_TOPIC".
Definition NTFY_URL : jsstring := orElse (getenv "NTFY_URL") (str "https://ntfy.sh").
Definition NTFY_TOKEN : jsstring := orElse (getenv "NTFY_TOKEN") [].

(** [process.env.PROTECTED_TOPIC === "true" || false] *)
Definition PROTECTED_TOPIC : bool :=
  match getenv "PROTECTED_TOPIC" with
  | Some v => string_eqb v (str "true")
  | None => false
  end.

(** The part of [initializeServer] before the server is created; the result
    comes with the lines of [console.log] and the calls of
    [console.error]. *)
Definition initializeServer : Started * list jsstring * list (list jsstring) :=
  match NTFY_TOPIC with
  | Some (c :: t) =>
      let topic := c :: t in
      if PROTECTED_TOPIC && negb (truthy NTFY_TOKEN) then
        let line :=
          str "Topic '" ++ topic ++
          str "' is marked as protected and requires authentication." in
        match prompts with
        | Answered token =>
            let NTFY_TOKEN' := orElse token [] in
            if negb (truthy NTFY_TOKEN') then
              (Exit 1, [line], [[str "No token provided for protected topic. Exiting."]])
            else
              (Serve (mkEnv NTFY_URL topic NTFY_TOKEN'),
               [line; str "Token provided. Proceeding with authentication."], [])
        | Cancelled =>
            (Exit 1, [line],
             [[str "Authentication token is required for protected topics. Exiting."]])
        | PromptFailed message =>
            (Exit 1, [line], [[str "Error while prompting for token:"; message]])
        end
      else if negb PROTECTED_TOPIC then
        (Serve (mkEnv NTFY_URL topic NTFY_TOKEN),
         [str "Topic '" ++ topic ++
          str "' is marked as public. No authentication required."], [])
      else (Serve (mkEnv NTFY_URL topic NTFY_TOKEN), [], [])
  | _ =>
      (Exit 1, [],
       [[str "Error: NTFY_TOPIC environment variable is required. Please ensure it's added to your .env file or passed as an environment variable."]])
  end.

End Initialize.

End Startup.

(** *** The parts of a [fetchMessages] call, for the statements *)

Section FetchParts.

Import Tool.

Variable Num : Type.
Variable Num_toString : Num -> jsstring.
Variable Value : Type.
Variable JSON_parse : jsstring -> attempt (option Value).
Variable options : Messages.NtfyFetchOptions Num.

(** The server URL without one final slash. *)
Definition fetchBase : jsstring :=
  if endsWith (Messages.ntfyUrl options) (str "/")
  then slice_0_m1 (Messages.ntfyUrl options)
  else Messages.ntfyUrl options.

Definition fetchEndpoint : jsstring :=
  let endpoint := fetchBase ++ str "/" ++ Messages.topic options ++ str "/json?poll=1" in
  match Messages.since options with
  | Some s => endpoint ++ str "&since=" ++ Messages.Since_toString Num_toString s
  | None => endpoint
  end.

(** What [JSON.parse] inside its [try] gives for a line: the value, or
    [None], for [null], also when the line does not parse. *)
Definition parsedOf (line : jsstring) : option Value :=
  match JSON_parse line with
  | Fulfilled v => v
  | Rejected _ => None
  end.

(** The calls of [console.error] for the lines that do not parse. *)
Definition parseErrors (lines : list jsstring) : list (list jsstring) :=
  flat_map (fun line =>
              match JSON_parse line with
              | Fulfilled _ => []
              | Rejected message => [[str "Error parsing line:"; line; message]]
              end) lines.

(** The messages of a response body, in the order of their lines. *)
Definition messagesOf (rawResponse : jsstring) : list Value :=
  Messages.notNull (map parsedOf (Messages.messageLines rawResponse)).

End FetchParts.

(** *** Messages by topic, for the statements *)

(** The keys of a list that were not seen before, each at its first
    occurrence. *)
Fixpoint firstOccurrences (seen keys : list jsstring) : list jsstring :=
  match keys with
  | [] => []
  | k :: keys' =>
      if existsb (fun k' => string_eqb k' k) seen then firstOccurrences seen keys'
      else k :: firstOccurrences (seen ++ [k]) keys'
  end.

Section Grouping.

Import Tool.

Variable Value : Type.
Variable topicKey : Value -> attempt jsstring.
Variable inherited : jsstring -> bool.
Variable notAFunction : jsstring.

(** The message has topic key [k]. *)
Definition hasTopic (k : jsstring) (m : Value) : bool :=
  match topicKey m with
  | Fulfilled k' => string_eqb k' k
  | Rejected _ => false
  end.

(** The messages with topic key [k], in their order. *)
Definition withTopic (k : jsstring) (msgs : list Value) : list Value :=
  filter (hasTopic k) msgs.

(** The topic keys of the messages, in their order. *)
Definition topicKeys (msgs : list Value) : list jsstring :=
  flat_map (fun m =>
              match topicKey m with
              | Fulfilled k => [k]
              | Rejected _ => []
              end) msgs.

(** The topic keys of the messages, each once, in the order in which they
    first occur. *)
Definition topicsOf (msgs : list Value) : list jsstring :=
  firstOccurrences [] (topicKeys msgs).

(** Every topic with its messages. *)
Definition grouped (msgs : list Value) : Messages.Records Value :=
  map (fun k => (k, withTopic k msgs)) (topicsOf msgs).

(** A message the grouping can file: its topic converts to a key that is
    not inherited. *)
Definition canFile (m : Value) : bool :=
  match topicKey m with
  | Fulfilled k => negb (inherited k)
  | Rejected _ => false
  end.

(** The error of the first message that cannot be filed, if there is one:
    that of the conversion of its topic, or that of [push] on an inherited
    value. *)
Fixpoint firstThrow (msgs : list Value) : option jsstring :=
  match msgs with
  | [] => None
  | m :: rest =>
      match topicKey m with
      | Rejected message => Some message
      | Fulfilled k => if inherited k then Some notAFunction else firstThrow rest
      end
  end.

End Grouping.

(** *** The request of a [fetchMessages] call, for the statements *)

Section FetchRequest.

Import Tool.

Variable Num : Type.
Variable Num_toString : Num -> jsstring.
Variable options : Messages.NtfyFetchOptions Num.

Definition fetchHeaders : Headers :=
  let h : Headers := [] in
  let h := if Messages.truthyOpt (Messages.token options)
           then setHeader h (str "Authorization")
                          (str "Bearer " ++ Messages.orEmpty (Messages.token options))
           else h in
  let h := if Messages.truthyOpt (Messages.messageId options)
           then setHeader h (str "X-ID") (Messages.orEmpty (Messages.messageId options))
           else h in
  let h := if Messages.truthyOpt (Messages.messageText options)
           then setHeader h (str "X-Message") (Messages.orEmpty (Messages.messageText options))
           else h in
  let h := if Messages.truthyOpt (Messages.messageTitle options)
           then setHeader h (str "X-Title") (Messages.orEmpty (Messages.messageTitle options))
           else h in
  let h := match Messages.priorities options with
           | Some v =>
               if Messages.truthyFilter (Some v)
               then setHeader h (str "X-Priority") (Messages.filterValue v)
               else h
           | None => h
           end in
  match Messages.tags options with
  | Some v =>
      if Messages.truthyFilter (Some v)
      then setHeader h (str "X-Tags") (Messages.filterValue v)
      else h
  | None => h
  end.

Definition fetchRequest : Request :=
  mkRequest (fetchEndpoint Num_toString options) None None fetchHeaders.

(** The filters as the console line lists them. *)
Definition fetchFilterInfo : jsstring :=
  let filterInfo : jsstring := [] in
  let filterInfo :=
    if Messages.truthyOpt (Messages.messageId options)
    then filterInfo ++ str " [ID: " ++ Messages.orEmpty (Messages.messageId options) ++ str "]"
    else filterInfo in
  let filterInfo :=
    if Messages.truthyOpt (Messages.messageTitle options)
    then filterInfo ++ str " [Title: " ++ Messages.orEmpty (Messages.messageTitle options) ++
         str "]"
    else filterInfo in
  let filterInfo :=
    if Messages.truthyOpt (Messages.messageText options)
    then filterInfo ++ str " [Message: " ++ Messages.orEmpty (Messages.messageText options) ++
         str "]"
    else filterInfo in
  let filterInfo :=
    match Messages.priorities options with
    | Some v =>
        if Messages.truthyFilter (Some v)
        then filterInfo ++ str " [Priorities: " ++ Messages.filterValue v ++ str "]"
        else filterInfo
    | None => filterInfo
    end in
  match Messages.tags options with
  | Some v =>
      if Messages.truthyFilter (Some v)
      then filterInfo ++ str " [Tags: " ++ Messages.filterValue v ++ str "]"
      else filterInfo
  | None => filterInfo
  end.

(** The line written to the console before the request is sent. *)
Definition fetchLine : jsstring :=
  str "Fetching messages from " ++ fetchEndpoint Num_toString options ++
  (if truthy fetchFilterInfo then str " with filters:" ++ fetchFilterInfo else []).

End FetchRequest.

(** *** The options of a [ntfy_me_fetch] call, for the statements *)

Section FetchOptions.

Import Tool.

Variable Num : Type.
Variable Num_truthy : Num -> bool.
Variable env : Env.
Variable a : NtfyMeFetch.FetchArgs Num.

Definition fetchTopic : jsstring :=
  orElse (NtfyMeFetch.ntfyTopic a) (NTFY_TOPIC env).

(** What the handler passes to fetchMessages. *)
Definition fetchOptions : Messages.NtfyFetchOptions Num :=
  Messages.mkOptions
    (orElse (NtfyMeFetch.ntfyUrl a) (NTFY_URL env))
    fetchTopic
    (Some (orElse (NtfyMeFetch.accessToken a) (NTFY_TOKEN env)))
    (Some (NtfyMeFetch.sinceOrDefault Num_truthy (NtfyMeFetch.since a)))
    (NtfyMeFetch.messageId a) (NtfyMeFetch.messageText a) (NtfyMeFetch.messageTitle a)
    (NtfyMeFetch.priorities a) (NtfyMeFetch.tags a).

End FetchOptions.

(** *** Sample surroundings, for the examples *)

Module Sample.

Import Tool.

Definition env : Env := mkEnv (str "https://ntfy.sh") (str "builds") [].

Definition world : World := mkWorld [] [] [].

(** A server that accepts every request and answers with [body]. *)
Definition accepting (body : jsstring) (r : Request) : attempt Response :=
  Fulfilled (mkResponse true 200 (Fulfilled body)).

(** A server that refuses every request with [status]; its body cannot be
    read. *)
Definition refusing (status : nat) (r : Request) : attempt Response :=
  Fulfilled (mkResponse false status (Rejected (str "body unusable"))).

Definition args : NotifyArgs :=
  mkNotifyArgs (str "Build done") (str "Report: https://example.com/run/7")
               None None None None None None None.

(** Messages as pairs of a topic and a text, written [topic:text] on a
    line; a line without a colon does not parse.  A topic that starts with
    a brace stands for an object that cannot be converted to a key. *)
Definition Value : Type := jsstring * jsstring.

Fixpoint splitColon (cur s : jsstring) : option Value :=
  match s with
  | [] => None
  | c :: s' => if N.eqb c 58 then Some (rev cur, s') else splitColon (c :: cur) s'
  end.

Definition JSON_parse (line : jsstring) : attempt (option Value) :=
  match splitColon [] line with
  | Some v => Fulfilled (Some v)
  | None => Rejected (str "SyntaxError: Unexpected token")
  end.

Definition topicKey (v : Value) : attempt jsstring :=
  match fst v with
  | 123%N :: _ => Rejected (str "Cannot convert object to primitive value")
  | k => Fulfilled k
  end.

Definition inherited (k : jsstring) : bool :=
  string_eqb k (str "constructor") || string_eqb k (str "toString") ||
  string_eqb k (str "valueOf") || string_eqb k (str "hasOwnProperty") ||
  string_eqb k (str "__proto__").

Definition notAFunction : jsstring :=
  str "messageRecords[topic].push is not a function".

Definition JSON_stringify_pretty (l : list Value) : jsstring :=
  Array_join [10%N] (map snd l).

Definition Num_truthy (n : nat) : bool := negb (n =? 0).

(** A body of four lines, one of which does not parse. *)
Definition body : jsstring :=
  str "builds:ok" ++ [10%N] ++ str "not json" ++ [10%N] ++ str "deploy:done" ++ [10%N] ++
  str "builds:failed" ++ [10%N].

Definition options (url : jsstring) : Messages.NtfyFetchOptions nat :=
  Messages.mkOptions url (str "builds") None None None None None None None.

Definition fetchArgs : NtfyMeFetch.FetchArgs nat :=
  NtfyMeFetch.mkFetchArgs None None None None None None None None None.

End Sample.

(** ** The matcher consumes input and terminates *)

Section MatcherFacts.

Variable fl : flags.

Lemma step1_remaining (ok : char -> bool) (x y : state) :
  In y (step1 ok x) -> remaining y < remaining x.
Proof.
  unfold step1, remaining. destruct x as [p [|c s]]; simpl; [tauto|].
  destruct (ok c); simpl; [|tauto].
  intros [<-|[]]. simpl. lia.
Qed.

Lemma repeatMatcher_remaining (m : state -> list state) :
  (forall x y, In y (m x) -> remaining y <= remaining x) ->
  forall fuel min max greedy x y,
    In y (repeatMatcher fuel m min max greedy x) -> remaining y <= remaining x.
Proof.
  intros Hm. induction fuel as [|fuel IH]; intros min max greedy x y; simpl; [tauto|].
  assert (Hagain : In y (flat_map (fun y0 =>
            if (min =? 0) && (remaining y0 =? remaining x) then []
            else repeatMatcher fuel m (pred min) (option_map pred max) greedy y0) (m x)) ->
          remaining y <= remaining x).
  { rewrite in_flat_map. intros (z & Hz & Hy).
    destruct ((min =? 0) && (remaining z =? remaining x)); [destruct Hy|].
    apply IH in Hy. apply Hm in Hz. lia. }
  destruct (isZero max).
  - intros [<-|[]]. lia.
  - destruct (negb (min =? 0)); [exact Hagain|].
    destruct greedy.
    + rewrite in_app_iff. intros [H|[<-|[]]]; [auto|lia].
    + intros [<-|H]; [lia|auto].
Qed.

Lemma matcher_remaining (r : regex) :
  forall x y, In y (matcher fl r x) -> remaining y <= remaining x.
Proof.
  induction r; intros x y; simpl.
  - intros [<-|[]]. lia.
  - intros H. apply step1_remaining in H. lia.
  - intros H. apply step1_remaining in H. lia.
  - intros H. apply step1_remaining in H. lia.
  - rewrite in_flat_map. intros (z & Hz & Hy).
    apply IHr1 in Hz. apply IHr2 in Hy. lia.
  - rewrite in_app_iff. intros [H|H]; auto.
  - apply repeatMatcher_remaining. exact IHr.
  - destruct (atLineStart fl x); simpl; [intros [<-|[]]; lia|intros []].
  - destruct (atLineEnd fl x); simpl; [intros [<-|[]]; lia|intros []].
  - destruct (atWordBoundary x); simpl; [intros [<-|[]]; lia|intros []].
Qed.

(** Any fuel of at least [min + remaining x + 1] gives the same result: the
    bound chosen in [matcher] never cuts an iteration short. *)
Lemma repeatMatcher_fuel (m : state -> list state) :
  (forall x y, In y (m x) -> remaining y <= remaining x) ->
  forall fuel1 fuel2 min max greedy x,
    min + remaining x + 1 <= fuel1 ->
    min + remaining x + 1 <= fuel2 ->
    repeatMatcher fuel1 m min max greedy x = repeatMatcher fuel2 m min max greedy x.
Proof.
  intros Hm. induction fuel1 as [|fuel1 IH]; intros fuel2 min max greedy x H1 H2; [lia|].
  destruct fuel2 as [|fuel2]; [lia|]. simpl.
  assert (Hagain :
    flat_map (fun y0 =>
      if (min =? 0) && (remaining y0 =? remaining x) then []
      else repeatMatcher fuel1 m (pred min) (option_map pred max) greedy y0) (m x) =
    flat_map (fun y0 =>
      if (min =? 0) && (remaining y0 =? remaining x) then []
      else repeatMatcher fuel2 m (pred min) (option_map pred max) greedy y0) (m x)).
  { rewrite !flat_map_concat_map. f_equal. apply map_ext_in.
    intros z Hz. apply Hm in Hz.
    destruct (Nat.eqb_spec min 0) as [->|Hmin]; simpl.
    - destruct (Nat.eqb_spec (remaining z) (remaining x)); [reflexivity|].
      apply IH; simpl; lia.
    - apply IH; lia. }
  rewrite Hagain. reflexivity.
Qed.

End MatcherFacts.

(** The bound used for a repetition in [matcher] is one of those. *)
Corollary matcher_Rep_fuel (fl : flags) (r : regex) (min : nat) (max : option nat)
    (greedy : bool) (st : state) (fuel : nat) :
  min + remaining st + 1 <= fuel ->
  matcher fl (Rep min max greedy r) st =
  repeatMatcher fuel (matcher fl r) min max greedy st.
Proof.
  intros H. cbn [matcher].
  apply repeatMatcher_fuel; [apply matcher_remaining|lia|exact H].
Qed.

(** The class used for [\s] holds what [trim] removes. *)
Lemma ws_ranges_isWhiteSpace (c : char) : inRanges ws_ranges c = isWhiteSpace c.
Proof.
  apply eq_true_iff_eq.
  unfold inRanges, ws_ranges, isWhiteSpace, isLineTerminator. cbn [existsb fst snd].
  repeat rewrite ?orb_true_iff, ?andb_true_iff, ?N.leb_le, ?N.eqb_eq.
  lia.
Qed.

(** ** Where matches lie *)

Section ScanFacts.

Variable fl : flags.
Variable r : regex.

Lemma matchAt_bound (st : state) (n : nat) :
  matchAt fl r st = Some n -> n <= remaining st.
Proof.
  unfold matchAt. destruct (matcher fl r st); [discriminate|].
  intros [= <-]. lia.
Qed.

Lemma scan_bounds (s : jsstring) :
  forall p idx i n,
    scan fl r p s idx = Some (i, n) -> idx <= i /\ i + n <= idx + length s.
Proof.
  induction s as [|c s IH]; intros p idx i n; simpl.
  - destruct (matchAt fl r (State p [])) eqn:E; [|discriminate].
    apply matchAt_bound in E. unfold remaining in E. simpl in E.
    intros [= <- <-]. lia.
  - destruct (matchAt fl r (State p (c :: s))) eqn:E.
    + apply matchAt_bound in E. unfold remaining in E. simpl in E.
      intros [= <- <-]. lia.
    + intros H. apply IH in H. lia.
Qed.

Lemma seek_Some (S : jsstring) :
  forall p i st, seek p S i = Some st -> i + remaining st = length S.
Proof.
  induction S as [|c S IH]; intros p [|i] st; simpl; try discriminate.
  - intros [= <-]. reflexivity.
  - intros [= <-]. reflexivity.
  - intros H. apply IH in H. lia.
Qed.

Lemma seek_None (S : jsstring) :
  forall p i, length S < i -> seek p S i = None.
Proof.
  induction S as [|c S IH]; intros p [|i] H; simpl in *; try lia; auto.
  apply IH. lia.
Qed.

End ScanFacts.

Section ExecFacts.

Variable R : RegExp.
Variable S : jsstring.
Hypothesis R_global : global R = true.

(** A successful [exec] on a global pattern: the match lies at or after
    [lastIndex], inside the string, and [lastIndex] moves to its end. *)
Lemma exec_global_Some (m : Match) (R' : RegExp) :
  exec R S = (Some m, R') ->
  lastIndex R <= index m /\
  index m + length (matched m) <= length S /\
  matched m = firstn (length (matched m)) (skipn (index m) S) /\
  R' = set_lastIndex R (index m + length (matched m)).
Proof.
  unfold exec. rewrite R_global.
  destruct (seek None S (lastIndex R)) as [st|] eqn:Hseek; [|discriminate].
  destruct (scan (reFlags R) (source R) (prev st) (rest st) (lastIndex R))
    as [[i n]|] eqn:Hscan; [|discriminate].
  intros [= <- <-]. simpl.
  apply scan_bounds in Hscan. apply seek_Some in Hseek. unfold remaining in Hseek.
  assert (Hlen : length (firstn n (skipn i S)) = n).
  { rewrite length_firstn, length_skipn. lia. }
  rewrite Hlen. repeat split; try lia; reflexivity.
Qed.

Lemma exec_past_end : length S < lastIndex R -> fst (exec R S) = None.
Proof.
  intros H. unfold exec. rewrite R_global.
  rewrite (seek_None _ _ H). reflexivity.
Qed.

End ExecFacts.

Lemma matchAll_loop_from (S : jsstring) :
  forall fuel R, global R = true ->
    Forall (fun m => lastIndex R <= index m) (matchAll_loop fuel R S).
Proof.
  induction fuel as [|fuel IH]; intros R HR; simpl; [constructor|].
  destruct (exec R S) as [[m|] R'] eqn:E; [|constructor].
  destruct (@exec_global_Some R S HR m _ E) as (H1 & H2 & H3 & ->).
  constructor; [exact H1|].
  eapply Forall_impl; [|apply IH]; simpl.
  - intros a Ha.
    destruct (isEmptyString (matched m)); simpl in Ha; lia.
  - destruct (isEmptyString (matched m)); exact HR.
Qed.

(** The matches come out left to right and do not overlap. *)
Lemma matchAll_loop_sorted (S : jsstring) :
  forall fuel R, global R = true ->
    StronglySorted precedes (matchAll_loop fuel R S).
Proof.
  induction fuel as [|fuel IH]; intros R HR; simpl; [constructor|].
  destruct (exec R S) as [[m|] R'] eqn:E; [|constructor].
  destruct (@exec_global_Some R S HR m _ E) as (H1 & H2 & H3 & ->).
  constructor.
  - apply IH. destruct (isEmptyString (matched m)); exact HR.
  - eapply Forall_impl; [|apply matchAll_loop_from].
    + intros a Ha. unfold precedes.
      destruct (matched m) as [|c u] eqn:Em; simpl in Ha |- *; lia.
    + destruct (isEmptyString (matched m)); exact HR.
Qed.

(** Every match is the substring of the text at its index. *)
Lemma matchAll_loop_substring (S : jsstring) :
  forall fuel R, global R = true ->
    Forall (fun m => matched m = firstn (length (matched m)) (skipn (index m) S) /\
                     index m + length (matched m) <= length S)
           (matchAll_loop fuel R S).
Proof.
  induction fuel as [|fuel IH]; intros R HR; simpl; [constructor|].
  destruct (exec R S) as [[m|] R'] eqn:E; [|constructor].
  destruct (@exec_global_Some R S HR m _ E) as (H1 & H2 & H3 & ->).
  constructor; [split; assumption|].
  apply IH. destruct (isEmptyString (matched m)); exact HR.
Qed.

(** The iteration bound of [matchAll] never cuts the iteration short. *)
Lemma matchAll_loop_fuel (S : jsstring) :
  forall fuel1 fuel2 R, global R = true ->
    length S + 2 <= fuel1 + lastIndex R ->
    length S + 2 <= fuel2 + lastIndex R ->
    matchAll_loop fuel1 R S = matchAll_loop fuel2 R S.
Proof.
  assert (Hend : forall fuel R, global R = true -> length S < lastIndex R ->
                   matchAll_loop fuel R S = []).
  { intros [|fuel] R HR Hlt; simpl; [reflexivity|].
    pose proof (@exec_past_end R S HR Hlt) as E.
    destruct (exec R S) as [[m|] R']; [discriminate|reflexivity]. }
  induction fuel1 as [|fuel1 IH]; intros fuel2 R HR H1 H2.
  - rewrite !Hend by (auto; lia). reflexivity.
  - destruct fuel2 as [|fuel2].
    + rewrite !Hend by (auto; lia). reflexivity.
    + simpl. destruct (exec R S) as [[m|] R'] eqn:E; [|reflexivity].
      destruct (@exec_global_Some R S HR m _ E) as (Ha & Hb & Hc & ->).
      f_equal. apply IH.
      * destruct (isEmptyString (matched m)); exact HR.
      * destruct (matched m) as [|c u]; simpl in *; lia.
      * destruct (matched m) as [|c u]; simpl in *; lia.
Qed.

(** More iterations than [matchAll] allows would find no further match. *)
Corollary urlMatches_fuel (text : jsstring) (fuel : nat) :
  length text + 2 <= fuel ->
  matchAll_loop fuel (URL_PATTERN 0) text = urlMatches text.
Proof.
  intros H. apply matchAll_loop_fuel; [reflexivity|cbn [lastIndex URL_PATTERN]; lia ..].
Qed.

(** ** Sample runs of the patterns *)

Example URL_PATTERN_is_case_insensitive :
  urlMatches (str "See HTTPS://Example.COM/Path.") =
  [mkMatch 4 (str "HTTPS://Example.COM/Path.")].
Proof. vm_compute. reflexivity. Qed.

Example URL_PATTERN_needs_a_dot :
  urlMatches (str "http://localhost and https://") = [].
Proof. vm_compute. reflexivity. Qed.

Example URL_PATTERN_stops_at_space :
  urlMatches (str "a http://x.io/p?q=1&r=2#f b") =
  [mkMatch 2 (str "http://x.io/p?q=1&r=2#f")].
Proof. vm_compute. reflexivity. Qed.

Example patterns_on_samples :
  map (fun t => hasCommonMarkdownPatterns (str t))
      ["**bold**"; "a*b"; "a * b * c"; "snake_case_name"; "~~gone~~";
       "# Heading"; "#Heading"; "- item"; "-item"; "12. item"; "> quote";
       "`code`"; "[text](url)"; "a | b | c"; "|a|b|"; "---"; "--"; ""]%string =
  [true; false; true; true; true;
   true; false; true; false; true; true;
   true; true; false; true; true; false; false].
Proof. vm_compute. reflexivity. Qed.

Example heading_on_second_line :
  hasCommonMarkdownPatterns (str "title" ++ [10%N] ++ str "## part") = true /\
  hasCommonMarkdownPatterns (str "title ## part") = false.
Proof. split; vm_compute; reflexivity. Qed.

(** ** String facts *)

Lemma string_eqb_eq (s t : jsstring) : string_eqb s t = true <-> s = t.
Proof.
  revert t. induction s as [|a s IH]; intros [|b t]; simpl; split;
    try discriminate; try reflexivity.
  - rewrite andb_true_iff, N.eqb_eq, IH. intros [-> ->]. reflexivity.
  - intros [= -> ->]. rewrite N.eqb_refl. simpl. apply IH. reflexivity.
Qed.

Lemma endsWith_snoc (body : jsstring) (c : char) : endsWith (body ++ [c]) [c] = true.
Proof.
  unfold endsWith. rewrite length_app. simpl.
  replace (length body + 1 - 1) with (length body) by lia.
  rewrite skipn_app, skipn_all, Nat.sub_diag. simpl.
  rewrite N.eqb_refl.
  destruct (length body + 1) eqn:E; [lia|reflexivity].
Qed.

Lemma endsWith_snoc_neq (body : jsstring) (c d : char) :
  c <> d -> endsWith (body ++ [c]) [d] = false.
Proof.
  intros Hne. unfold endsWith. rewrite length_app. simpl.
  replace (length body + 1 - 1) with (length body) by lia.
  rewrite skipn_app, skipn_all, Nat.sub_diag. simpl.
  apply N.eqb_neq in Hne. rewrite Hne. simpl. apply andb_false_r.
Qed.

Lemma slice_0_m1_snoc (body : jsstring) (c : char) : slice_0_m1 (body ++ [c]) = body.
Proof.
  unfold slice_0_m1. rewrite length_app. simpl.
  replace (length body + 1 - 1) with (length body) by lia.
  rewrite firstn_app, firstn_all, Nat.sub_diag. simpl. apply app_nil_r.
Qed.

Lemma includes_char (s : jsstring) (c : char) :
  includes s [c] = false <-> ~ In c s.
Proof.
  induction s as [|a s IH]; simpl.
  - tauto.
  - rewrite andb_true_r, orb_false_iff, IH, N.eqb_neq. tauto.
Qed.

Lemma trimStart_snoc (s : jsstring) (c : char) :
  isWhiteSpace c = false -> trimStart (s ++ [c]) = trimStart s ++ [c].
Proof.
  intros Hc. induction s as [|a s IH]; simpl.
  - rewrite Hc. reflexivity.
  - destruct (isWhiteSpace a); [exact IH|reflexivity].
Qed.

Lemma trimEnd_snoc (s : jsstring) (c : char) :
  isWhiteSpace c = false -> trimEnd (s ++ [c]) = s ++ [c].
Proof.
  intros Hc. unfold trimEnd. rewrite rev_app_distr. simpl. rewrite Hc.
  simpl. rewrite rev_involutive. reflexivity.
Qed.

Lemma trim_snoc (s : jsstring) (c : char) :
  isWhiteSpace c = false -> trim (s ++ [c]) = trimStart s ++ [c].
Proof.
  intros Hc. unfold trim. rewrite trimStart_snoc by exact Hc.
  apply trimEnd_snoc. exact Hc.
Qed.

(** ** The shape of the result of processActions *)

Section ActionsFacts.

Variable URL_hostname : jsstring -> result jsstring.
Variable n : nat.

Lemma deriveLabel_Ok (url : jsstring) :
  deriveLabel URL_hostname url = Ok (labelFor URL_hostname url).
Proof.
  unfold deriveLabel, labelFor. destruct (URL_hostname url); reflexivity.
Qed.

Lemma actionsLoop_Ok (urls : list jsstring) :
  forall actions,
    actionsLoop URL_hostname urls actions = Ok (actions ++ map (viewAction URL_hostname) urls).
Proof.
  induction urls as [|u urls IH]; intros actions; simpl.
  - rewrite app_nil_r. reflexivity.
  - rewrite deriveLabel_Ok. simpl. rewrite IH, <- app_assoc. reflexivity.
Qed.

Lemma matchAll_URL_PATTERN (text : jsstring) :
  matchAll text (RegExp_new (URL_PATTERN n)) = Ok (urlMatches text).
Proof. reflexivity. Qed.

Lemma processActions_Ok (text : jsstring) :
  processActions URL_hostname n text =
  Ok (map (fun m => viewAction URL_hostname (cleanUrl (matched m)))
          (firstn 3 (urlMatches text))).
Proof.
  unfold processActions. rewrite matchAll_URL_PATTERN. simpl.
  destruct (urlMatches text) as [|m1 ms] eqn:E; [reflexivity|].
  cbn [length Nat.eqb]. unfold Array_slice_0.
  rewrite actionsLoop_Ok, map_map. simpl app. f_equal. f_equal.
  destruct ms as [|m2 [|m3 ms]]; reflexivity.
Qed.

End ActionsFacts.

Lemma firstn_nth_error {A} (l : list A) (k j : nat) (a : A) :
  nth_error l k = Some a -> k < j -> nth_error (firstn j l) k = Some a.
Proof.
  revert k j. induction l as [|b l IH]; intros [|k] [|j]; simpl; try discriminate; try lia; auto.
  intros H Hk. apply IH; [exact H|lia].
Qed.

(** The action built from the [k]-th match, for [k < 3]. *)
Lemma processActions_nth (URL_hostname : jsstring -> result jsstring) (n : nat)
    (text : jsstring) (k : nat) (m : Match) :
  nth_error (urlMatches text) k = Some m -> k < 3 ->
  exists actions,
    processActions URL_hostname n text = Ok actions /\
    length actions = Nat.min 3 (length (urlMatches text)) /\
    nth_error actions k = Some (viewAction URL_hostname (cleanUrl (matched m))).
Proof.
  intros Hk Hlt. eexists. split; [apply processActions_Ok|]. split.
  - rewrite length_map, length_firstn. reflexivity.
  - rewrite nth_error_map, (firstn_nth_error _ Hk Hlt). reflexivity.
Qed.

Lemma cleanUrl_snoc_paren (body : jsstring) :
  ~ In (chr "(") body -> cleanUrl (body ++ str ")") = trim body.
Proof.
  intros Hno. unfold cleanUrl. change (str ")") with [chr ")"].
  rewrite endsWith_snoc, slice_0_m1_snoc.
  change (str "(") with [chr "("].
  apply includes_char in Hno. rewrite Hno. reflexivity.
Qed.


(** ** The link extractor *)

(** C3: whatever the text, processActions returns a list of at most three
    actions; when the pattern has no match in the text the list is empty,
    as it is for "no urls here". *)
Theorem processActions_at_most_three :
  forall (URL_hostname : jsstring -> result jsstring) (n : nat) (text : jsstring),
    (exists actions,
       processActions URL_hostname n text = Ok actions /\
       length actions <= 3 /\
       match urlMatches text with
       | [] => actions = []
       | _ :: _ => True
       end) /\
    urlMatches (str "no urls here") = [] /\
    processActions URL_hostname n (str "no urls here") = Ok [].
Proof.
  intros U n text. split; [|split].
  - eexists. split; [apply processActions_Ok|]. split.
    + rewrite length_map, length_firstn. lia.
    + destruct (urlMatches text); [reflexivity|exact I].
  - vm_compute. reflexivity.
  - rewrite processActions_Ok.
    replace (urlMatches (str "no urls here")) with (@nil Match) by (vm_compute; reflexivity).
    reflexivity.
Qed.

(** C2: when the text holds four or more matches, processActions returns
    exactly three actions, built from the first three matches in the order
    of their start offsets, which increase strictly; the fourth and later
    matches are dropped.  On "https://a.com https://b.com https://c.com
    https://d.com" the targets are a, b and c, in that order. *)
Theorem processActions_first_three_in_source_order :
  forall (URL_hostname : jsstring -> result jsstring) (n : nat),
    (forall text m1 m2 m3 m4 ms,
       urlMatches text = m1 :: m2 :: m3 :: m4 :: ms ->
       processActions URL_hostname n text =
         Ok [viewAction URL_hostname (cleanUrl (matched m1));
             viewAction URL_hostname (cleanUrl (matched m2));
             viewAction URL_hostname (cleanUrl (matched m3))] /\
       index m1 < index m2 /\ index m2 < index m3 /\ index m3 < index m4 /\
       matched m1 = firstn (length (matched m1)) (skipn (index m1) text) /\
       matched m2 = firstn (length (matched m2)) (skipn (index m2) text) /\
       matched m3 = firstn (length (matched m3)) (skipn (index m3) text)) /\
    (exists a b c,
       processActions URL_hostname n
         (str "https://a.com https://b.com https://c.com https://d.com") = Ok [a; b; c] /\
       url a = str "https://a.com" /\
       url b = str "https://b.com" /\
       url c = str "https://c.com").
Proof.
  intros U n. split.
  - intros text m1 m2 m3 m4 ms E. split.
    + rewrite processActions_Ok, E. reflexivity.
    + assert (Hs : StronglySorted precedes (urlMatches text))
        by (apply matchAll_loop_sorted; reflexivity).
      assert (Hf := @matchAll_loop_substring text (length text + 2) (URL_PATTERN 0) eq_refl).
      fold (urlMatches text) in Hf. rewrite E in Hs, Hf.
      apply StronglySorted_inv in Hs. destruct Hs as [Hs H1].
      apply StronglySorted_inv in Hs. destruct Hs as [Hs H2].
      apply StronglySorted_inv in Hs. destruct Hs as [Hs H3].
      inversion H1 as [|? ? [H12 _] _]. inversion H2 as [|? ? [H23 _] _].
      inversion H3 as [|? ? [H34 _] _].
      inversion Hf as [|? ? [F1 _] Hf2]. inversion Hf2 as [|? ? [F2 _] Hf3].
      inversion Hf3 as [|? ? [F3 _] _].
      repeat split; assumption.
  - rewrite processActions_Ok.
    set (ms := urlMatches _). vm_compute in ms. subst ms.
    do 3 eexists. split; [reflexivity|]. repeat split.
Qed.

(** The theorem at the four-URL text of the specification. *)
Lemma processActions_first_three_witness :
  let text := str "https://a.com https://b.com https://c.com https://d.com" in
  let m k u := mkMatch k (str u) in
  urlMatches text =
    [m 0 "https://a.com"; m 14 "https://b.com"; m 28 "https://c.com"; m 42 "https://d.com"]%string /\
  map url
    match processActions plainHostname 0 text with
    | Ok actions => actions
    | Throw _ => []
    end = [str "https://a.com"; str "https://b.com"; str "https://c.com"].
Proof.
  split; [vm_compute; reflexivity|].
  destruct (processActions_first_three_in_source_order plainHostname 0) as [H _].
  destruct (H (str "https://a.com https://b.com https://c.com https://d.com")
              (mkMatch 0 (str "https://a.com")) (mkMatch 14 (str "https://b.com"))
              (mkMatch 28 (str "https://c.com")) (mkMatch 42 (str "https://d.com")) [])
    as [-> _]; [vm_compute; reflexivity|].
  vm_compute. reflexivity.
Defined.

(** C4: a match that ends with ")" and has no "(" before that final
    character loses the final ")" and is then trimmed; this is the target of
    the action built from it.  From "(https://example.com)" the single
    action has the target "https://example.com". *)
Theorem cleanUrl_strips_trailing_paren :
  forall (URL_hostname : jsstring -> result jsstring) (n : nat),
    (forall body, ~ In (chr "(") body -> cleanUrl (body ++ str ")") = trim body) /\
    (forall text k m body,
       nth_error (urlMatches text) k = Some m -> k < 3 ->
       matched m = body ++ str ")" -> ~ In (chr "(") body ->
       exists actions a,
         processActions URL_hostname n text = Ok actions /\
         nth_error actions k = Some a /\
         url a = trim body) /\
    (exists a,
       processActions URL_hostname n (str "(https://example.com)") = Ok [a] /\
       url a = str "https://example.com").
Proof.
  intros U n. split; [|split].
  - apply cleanUrl_snoc_paren.
  - intros text k m body Hk Hlt Hm Hno.
    destruct (processActions_nth U n text Hk Hlt) as (actions & H1 & _ & H2).
    exists actions. eexists. split; [exact H1|]. split; [exact H2|].
    simpl. rewrite Hm. apply cleanUrl_snoc_paren. exact Hno.
  - rewrite processActions_Ok.
    set (ms := urlMatches _). vm_compute in ms. subst ms.
    eexists. split; reflexivity.
Qed.

(** The theorem at "(https://example.com)": the match is
    "https://example.com)" at offset 1. *)
Lemma cleanUrl_strips_trailing_paren_witness :
  let text := str "(https://example.com)" in
  nth_error (urlMatches text) 0 = Some (mkMatch 1 (str "https://example.com)")) /\
  ~ In (chr "(") (str "https://example.com") /\
  exists actions a,
    processActions plainHostname 0 text = Ok actions /\
    nth_error actions 0 = Some a /\
    url a = str "https://example.com".
Proof.
  assert (Hno : ~ In (chr "(") (str "https://example.com")).
  { vm_compute. intros H.
    repeat (destruct H as [H|H]; [discriminate H|]). exact H. }
  split; [vm_compute; reflexivity|]. split; [exact Hno|].
  destruct (cleanUrl_strips_trailing_paren plainHostname 0) as (_ & H & _).
  exact (H (str "(https://example.com)") 0 (mkMatch 1 (str "https://example.com)"))
           (str "https://example.com") eq_refl (le_n_S _ _ (le_S _ _ (le_S _ _ (le_n 0))))
           eq_refl Hno).
Defined.

(** C10: the cleanup removes one ")" and no more.  A match that ends in
    "))" and has no "(" keeps a final ")" in the action target, which is the
    match without its last character (and without leading white space, of
    which a match has none).  From "see https://a.com/x))" the target is
    "https://a.com/x)". *)
Theorem cleanUrl_strips_one_paren_only :
  forall (URL_hostname : jsstring -> result jsstring) (n : nat),
    (forall body, ~ In (chr "(") body ->
       cleanUrl (body ++ str "))") = trimStart body ++ str ")") /\
    (forall text k m body,
       nth_error (urlMatches text) k = Some m -> k < 3 ->
       matched m = body ++ str "))" -> ~ In (chr "(") body ->
       exists actions a,
         processActions URL_hostname n text = Ok actions /\
         nth_error actions k = Some a /\
         url a = trimStart body ++ str ")" /\
         endsWith (url a) (str ")") = true) /\
    (exists a,
       processActions URL_hostname n (str "see https://a.com/x))") = Ok [a] /\
       url a = str "https://a.com/x)").
Proof.
  intros U n.
  assert (Hclean : forall body, ~ In (chr "(") body ->
            cleanUrl (body ++ str "))") = trimStart body ++ str ")").
  { intros body Hno.
    change (str "))") with (str ")" ++ str ")"). rewrite app_assoc.
    rewrite cleanUrl_snoc_paren.
    - apply trim_snoc. reflexivity.
    - rewrite in_app_iff. intros [H|[H|[]]]; [exact (Hno H)|discriminate H]. }
  split; [exact Hclean|split].
  - intros text k m body Hk Hlt Hm Hno.
    destruct (processActions_nth U n text Hk Hlt) as (actions & H1 & _ & H2).
    exists actions. eexists. split; [exact H1|]. split; [exact H2|].
    simpl. rewrite Hm, (Hclean body Hno). split; [reflexivity|].
    apply endsWith_snoc.
  - rewrite processActions_Ok.
    set (ms := urlMatches _). vm_compute in ms. subst ms.
    eexists. split; reflexivity.
Qed.

(** The theorem at "see https://a.com/x))": the match is
    "https://a.com/x))" at offset 4. *)
Lemma cleanUrl_strips_one_paren_only_witness :
  let text := str "see https://a.com/x))" in
  nth_error (urlMatches text) 0 = Some (mkMatch 4 (str "https://a.com/x))")) /\
  ~ In (chr "(") (str "https://a.com/x") /\
  exists actions a,
    processActions plainHostname 0 text = Ok actions /\
    nth_error actions 0 = Some a /\
    url a = str "https://a.com/x)" /\
    endsWith (url a) (str ")") = true.
Proof.
  assert (Hno : ~ In (chr "(") (str "https://a.com/x")).
  { vm_compute. intros H.
    repeat (destruct H as [H|H]; [discriminate H|]). exact H. }
  split; [vm_compute; reflexivity|]. split; [exact Hno|].
  destruct (cleanUrl_strips_one_paren_only plainHostname 0) as (_ & H & _).
  exact (H (str "see https://a.com/x))") 0 (mkMatch 4 (str "https://a.com/x))"))
           (str "https://a.com/x") eq_refl (le_n_S _ _ (le_S _ _ (le_S _ _ (le_n 0))))
           eq_refl Hno).
Defined.

(** C6: when the URL parser throws on the cleaned URL of one of the first
    three matches, processActions still returns normally; the action of that
    match is labelled "Open link" and keeps its target, and no match among
    the first three is lost. *)
Theorem processActions_unparseable_url :
  forall (URL_hostname : jsstring -> result jsstring) (n : nat)
         (text : jsstring) (k : nat) (m : Match) (e : exn),
    nth_error (urlMatches text) k = Some m -> k < 3 ->
    URL_hostname (cleanUrl (matched m)) = Throw e ->
    exists actions a,
      processActions URL_hostname n text = Ok actions /\
      length actions = Nat.min 3 (length (urlMatches text)) /\
      map url actions = map (fun m' => cleanUrl (matched m')) (firstn 3 (urlMatches text)) /\
      nth_error actions k = Some a /\
      label a = str "Open link" /\
      url a = cleanUrl (matched m).
Proof.
  intros U n text k m e Hk Hlt He.
  destruct (processActions_nth U n text Hk Hlt) as (actions & H1 & H2 & H3).
  exists actions. eexists. split; [exact H1|]. split; [exact H2|].
  split; [|split; [exact H3|]].
  - rewrite processActions_Ok in H1. injection H1 as <-.
    rewrite map_map. reflexivity.
  - simpl. unfold labelFor. rewrite He. split; reflexivity.
Qed.

(** The theorem at a text whose first URL has a host the parser rejects and
    whose second URL parses: both become actions. *)
Lemma processActions_unparseable_url_witness :
  let text := str "bad https://exa%mple.com then https://foo.io" in
  nth_error (urlMatches text) 0 = Some (mkMatch 4 (str "https://exa%mple.com")) /\
  plainHostname (str "https://exa%mple.com") = Throw (TypeError "Invalid URL") /\
  exists actions a,
    processActions plainHostname 0 text = Ok actions /\
    length actions = 2 /\
    map url actions = [str "https://exa%mple.com"; str "https://foo.io"] /\
    nth_error actions 0 = Some a /\
    label a = str "Open link" /\
    url a = str "https://exa%mple.com".
Proof.
  split; [vm_compute; reflexivity|]. split; [vm_compute; reflexivity|].
  exact (@processActions_unparseable_url plainHostname 0
           (str "bad https://exa%mple.com then https://foo.io") 0
           (mkMatch 4 (str "https://exa%mple.com")) (TypeError "Invalid URL")
           eq_refl (le_n_S _ _ (le_S _ _ (le_S _ _ (le_n 0)))) eq_refl).
Defined.

(** ** The two patterns of the label *)

Lemma startsWith_app (s t : jsstring) :
  startsWith s t = true -> s = t ++ skipn (length t) s.
Proof.
  revert s. induction t as [|b t IH]; intros s; simpl; [reflexivity|].
  destruct s as [|a s]; [discriminate|].
  rewrite andb_true_iff, N.eqb_eq. intros [-> H]. f_equal. apply IH. exact H.
Qed.

Lemma string_eqb_length (s t : jsstring) :
  string_eqb s t = true -> length s = length t.
Proof. intros H. apply string_eqb_eq in H. subst. reflexivity. Qed.

Lemma string_eqb_startsWith (s t : jsstring) :
  string_eqb s t = startsWith s t && isEmptyString (skipn (length t) s).
Proof.
  revert s. induction t as [|b t IH]; intros [|a s]; simpl; try reflexivity.
  rewrite IH. apply andb_assoc.
Qed.

Lemma last_cons_default {A} (x : A) (l : list A) (d d' : A) :
  last (x :: l) d = last (x :: l) d'.
Proof.
  revert x. induction l as [|y l IH]; intros x; [reflexivity|].
  change (last (y :: l) d = last (y :: l) d'). apply IH.
Qed.

(** A literal without the [i] flag matches exactly when the input starts
    with it. *)
Lemma matcher_lit (ml : bool) (t : jsstring) :
  forall p s,
    matcher (Flags false ml) (lit t) (State p s) =
    if startsWith s t
    then [State (last (map Some t) p) (skipn (length t) s)]
    else [].
Proof.
  induction t as [|c t IH]; intros p s; [reflexivity|].
  destruct t as [|c' t'].
  - destruct s as [|a s]; [reflexivity|].
    cbn. unfold chrMatches, canonicalize. cbn.
    rewrite N.eqb_sym, andb_true_r. destruct (N.eqb_spec a c) as [->|]; reflexivity.
  - change (lit (c :: c' :: t')) with (Seq (Chr c) (lit (c' :: t'))).
    destruct s as [|a s]; [reflexivity|].
    cbn [matcher step1 rest]. unfold chrMatches, canonicalize. cbn [ignoreCase].
    rewrite N.eqb_sym.
    change (startsWith (a :: s) (c :: c' :: t'))
      with (N.eqb a c && startsWith s (c' :: t')).
    destruct (N.eqb_spec a c) as [->|]; [|reflexivity].
    cbn [flat_map andb]. rewrite IH, app_nil_r.
    destruct (startsWith s (c' :: t')); [|reflexivity].
    f_equal. f_equal. apply (last_cons_default (Some c') (map Some t')).
Qed.

(** Without the [m] flag, [^] fails everywhere but at the start. *)
Lemma scan_Bol_later (i : bool) (r : regex) (s : jsstring) :
  forall c idx, scan (Flags i false) (Seq Bol r) (Some c) s idx = None.
Proof.
  induction s as [|a s IH]; intros c idx; [reflexivity|].
  cbn. apply IH.
Qed.

Lemma replace_scan (S : jsstring) (R : RegExp) (replacement : jsstring) :
  global R = false ->
  replace S R replacement =
  match scan (reFlags R) (source R) None S 0 with
  | Some (i, n) =>
      firstn i S ++ replacement ++ skipn (i + length (firstn n (skipn i S))) S
  | None => S
  end.
Proof.
  intros HR. unfold replace, exec. rewrite HR.
  assert (Hseek : seek None S 0 = Some (State None S)) by (destruct S; reflexivity).
  rewrite Hseek. cbn [prev rest].
  destruct (scan (reFlags R) (source R) None S 0) as [[i n]|]; reflexivity.
Qed.

Lemma replace_wwwPattern (hostname : jsstring) :
  replace hostname wwwPattern [] = strip_leading_www hostname.
Proof.
  rewrite replace_scan by reflexivity. unfold strip_leading_www.
  change (reFlags wwwPattern) with (Flags false false).
  change (source wwwPattern) with (Seq Bol (lit (str "www."))).
  assert (H0 : matchAt (Flags false false) (Seq Bol (lit (str "www."))) (State None hostname) =
               if startsWith hostname (str "www.") then Some 4 else None).
  { unfold matchAt. cbn [matcher atLineStart prev flat_map]. rewrite app_nil_r, matcher_lit.
    destruct (startsWith hostname (str "www.")) eqn:E; [|reflexivity].
    apply startsWith_app in E. unfold remaining. cbn [rest].
    rewrite E at 1. rewrite length_app. f_equal.
    change (length (str "www.")) with 4. lia. }
  destruct hostname as [|c h].
  - reflexivity.
  - cbn [scan]. rewrite H0.
    destruct (startsWith (c :: h) (str "www.")) eqn:E.
    + apply startsWith_app in E. change (length (str "www.")) with 4 in E.
      rewrite E. reflexivity.
    + rewrite scan_Bol_later. reflexivity.
Qed.

Lemma lit_then_Eol (t : jsstring) (p : option char) (s : jsstring) :
  flat_map (matcher (Flags false false) Eol)
           (matcher (Flags false false) (lit t) (State p s)) =
  if string_eqb s t then [State (last (map Some t) p) []] else [].
Proof.
  rewrite matcher_lit, string_eqb_startsWith.
  destruct (startsWith s t); [|reflexivity].
  cbn [flat_map andb]. destruct (skipn (length t) s); reflexivity.
Qed.

(** The suffix pattern matches at a position exactly when what is left of
    the string is one of the five suffixes, and then to the end. *)
Lemma matchAt_tldPattern (p : option char) (s : jsstring) :
  matchAt (Flags false false) (source tldPattern) (State p s) =
  if isTld s then Some (length s) else None.
Proof.
  change (source tldPattern)
    with (Seq (Chr (chr "."))
           (Seq (Alt (lit (str "com")) (Alt (lit (str "org")) (Alt (lit (str "net"))
                  (Alt (lit (str "io")) (lit (str "dev"))))))
                Eol)).
  unfold matchAt. destruct s as [|c s]; [reflexivity|].
  cbn [matcher step1 rest]. unfold chrMatches, canonicalize. cbn [ignoreCase].
  unfold isTld, tldSuffixes. cbn [map existsb].
  change (str ".com") with (chr "." :: str "com").
  change (str ".org") with (chr "." :: str "org").
  change (str ".net") with (chr "." :: str "net").
  change (str ".io") with (chr "." :: str "io").
  change (str ".dev") with (chr "." :: str "dev").
  cbn [string_eqb]. rewrite (N.eqb_sym c).
  destruct (N.eqb_spec (chr ".") c) as [<-|Hne].
  - cbn [flat_map andb]. rewrite app_nil_r, !flat_map_app, !lit_then_Eol.
    unfold remaining.
    destruct (string_eqb s (str "com")); [reflexivity|].
    destruct (string_eqb s (str "org")); [reflexivity|].
    destruct (string_eqb s (str "net")); [reflexivity|].
    destruct (string_eqb s (str "io")); [reflexivity|].
    destruct (string_eqb s (str "dev")); reflexivity.
  - reflexivity.
Qed.

Lemma scan_tldPattern (s : jsstring) :
  forall p idx,
    scan (Flags false false) (source tldPattern) p s idx = firstTld s idx.
Proof.
  induction s as [|c s IH]; intros p idx.
  - reflexivity.
  - cbn [scan firstTld]. rewrite matchAt_tldPattern.
    destruct (isTld (c :: s)); [reflexivity|apply IH].
Qed.

Lemma firstTld_dropTld (s : jsstring) :
  forall pre,
    match firstTld s (length pre) with
    | Some (i, n) =>
        firstn i (pre ++ s) ++ [] ++
        skipn (i + length (firstn n (skipn i (pre ++ s)))) (pre ++ s)
    | None => pre ++ s
    end = pre ++ dropTld s.
Proof.
  induction s as [|c s IH]; intros pre.
  - reflexivity.
  - cbn [firstTld dropTld]. destruct (isTld (c :: s)) eqn:E.
    + assert (H1 : firstn (length pre) (pre ++ c :: s) = pre).
      { rewrite firstn_app, firstn_all, Nat.sub_diag. apply app_nil_r. }
      assert (H2 : skipn (length pre) (pre ++ c :: s) = c :: s).
      { rewrite skipn_app, skipn_all, Nat.sub_diag. reflexivity. }
      rewrite H1, H2, firstn_all.
      rewrite skipn_all2 by (rewrite length_app; lia). reflexivity.
    + specialize (IH (pre ++ [c])). rewrite length_app in IH. cbn [length] in IH.
      replace (length pre + 1) with (S (length pre)) in IH by lia.
      rewrite <- !app_assoc in IH. exact IH.
Qed.

Lemma replace_tldPattern_dropTld (hostname : jsstring) :
  replace hostname tldPattern [] = dropTld hostname.
Proof.
  rewrite replace_scan by reflexivity.
  change (reFlags tldPattern) with (Flags false false).
  rewrite scan_tldPattern. exact (firstTld_dropTld hostname []).
Qed.

Lemma endsWith_cons (c : char) (h suffix : jsstring) :
  endsWith (c :: h) suffix = string_eqb (c :: h) suffix || endsWith h suffix.
Proof.
  unfold endsWith.
  destruct (string_eqb (c :: h) suffix) eqn:E.
  - apply string_eqb_eq in E. subst suffix.
    rewrite Nat.leb_refl, Nat.sub_diag. cbn [skipn andb orb].
    apply string_eqb_eq. reflexivity.
  - cbn [orb]. destruct (Nat.leb_spec (length suffix) (length h)) as [Hle|Hgt].
    + assert (Hle' : (length suffix <=? length (c :: h)) = true)
        by (apply Nat.leb_le; cbn [length]; lia).
      rewrite Hle'. cbn [length andb].
      replace (S (length h) - length suffix) with (S (length h - length suffix)) by lia.
      reflexivity.
    + cbn [andb]. destruct (Nat.leb_spec (length suffix) (length (c :: h))) as [Hle|_];
        [|reflexivity].
      cbn [length] in Hle. replace (length (c :: h) - length suffix) with 0
        by (cbn [length]; lia).
      cbn [skipn andb]. exact E.
Qed.

Lemma find_ext_in {A} (f g : A -> bool) (l : list A) :
  (forall x, In x l -> f x = g x) -> find f l = find g l.
Proof.
  induction l as [|a l IH]; intros H; [reflexivity|]. cbn [find].
  rewrite (H a (or_introl eq_refl)).
  destruct (g a); [reflexivity|]. apply IH. intros x Hx. apply H. right. exact Hx.
Qed.

Lemma strip_trailing_tld_isTld (h : jsstring) :
  isTld h = true -> strip_trailing_tld h = [].
Proof.
  unfold isTld. rewrite existsb_exists. intros (x & Hin & Hx).
  apply string_eqb_eq in Hx. subst x.
  unfold tldSuffixes in Hin. cbn [map In] in Hin.
  repeat (destruct Hin as [<-|Hin]; [reflexivity|]). destruct Hin.
Qed.

Lemma strip_trailing_tld_cons (c : char) (h : jsstring) :
  isTld (c :: h) = false ->
  strip_trailing_tld (c :: h) = c :: strip_trailing_tld h.
Proof.
  intros Hno. unfold strip_trailing_tld.
  assert (Hfind : find (endsWith (c :: h)) tldSuffixes = find (endsWith h) tldSuffixes).
  { apply find_ext_in. intros x Hx. rewrite endsWith_cons.
    unfold isTld in Hno.
    destruct (string_eqb (c :: h) x) eqn:E; [|reflexivity].
    exfalso. assert (Hex : existsb (string_eqb (c :: h)) tldSuffixes = true)
      by (apply existsb_exists; exists x; split; assumption).
    congruence. }
  rewrite Hfind. destruct (find (endsWith h) tldSuffixes) as [suffix|] eqn:E; [|reflexivity].
  apply find_some in E. destruct E as [_ E]. unfold endsWith in E.
  apply andb_true_iff in E. destruct E as [E _]. apply Nat.leb_le in E.
  cbn [length]. replace (S (length h) - length suffix) with (S (length h - length suffix)) by lia.
  reflexivity.
Qed.

Lemma dropTld_strip_trailing_tld (h : jsstring) :
  dropTld h = strip_trailing_tld h.
Proof.
  induction h as [|c h IH]; [reflexivity|].
  cbn [dropTld]. destruct (isTld (c :: h)) eqn:E.
  - symmetry. apply strip_trailing_tld_isTld. exact E.
  - rewrite strip_trailing_tld_cons by exact E. f_equal. exact IH.
Qed.

(** The two [replace] calls compute the label of the specification. *)
Lemma labelFor_parsed (URL_hostname : jsstring -> result jsstring)
    (u hostname : jsstring) :
  URL_hostname u = Ok hostname ->
  str "Open " ++ labelFor URL_hostname u = spec_displayLabel hostname.
Proof.
  intros H. unfold labelFor, spec_displayLabel. rewrite H.
  rewrite replace_wwwPattern, replace_tldPattern_dropTld, dropTld_strip_trailing_tld.
  reflexivity.
Qed.

(** C5: when the URL parser accepts the cleaned URL of one of the first
    three matches, the action of that match is labelled "Open " followed by
    the hostname without a leading "www." and then without a trailing
    ".com", ".org", ".net", ".io" or ".dev".  With a parser that gives the
    hostnames "example.com" and "foo.io", the text "see
    https://example.com/page and https://foo.io" yields two actions,
    labelled "Open example" and "Open foo" in that order. *)
Theorem processActions_label :
  forall (URL_hostname : jsstring -> result jsstring) (n : nat),
    (forall text k m hostname,
       nth_error (urlMatches text) k = Some m -> k < 3 ->
       URL_hostname (cleanUrl (matched m)) = Ok hostname ->
       exists actions a,
         processActions URL_hostname n text = Ok actions /\
         nth_error actions k = Some a /\
         url a = cleanUrl (matched m) /\
         label a = spec_displayLabel hostname) /\
    (URL_hostname (str "https://example.com/page") = Ok (str "example.com") ->
     URL_hostname (str "https://foo.io") = Ok (str "foo.io") ->
     exists a b,
       processActions URL_hostname n
         (str "see https://example.com/page and https://foo.io") = Ok [a; b] /\
       url a = str "https://example.com/page" /\ label a = str "Open example" /\
       url b = str "https://foo.io" /\ label b = str "Open foo").
Proof.
  intros U n. split.
  - intros text k m hostname Hk Hlt HU.
    destruct (processActions_nth U n text Hk Hlt) as (actions & H1 & _ & H2).
    exists actions. eexists. split; [exact H1|]. split; [exact H2|].
    split; [reflexivity|]. cbn [label viewAction].
    apply labelFor_parsed. exact HU.
  - intros Ha Hb. rewrite processActions_Ok.
    set (ms := urlMatches _). vm_compute in ms. subst ms.
    do 2 eexists. split; [reflexivity|].
    cbn [url label viewAction].
    change (cleanUrl _) with (str "https://example.com/page") at 1.
    split; [reflexivity|]. split.
    + change (cleanUrl _) with (str "https://example.com/page").
      rewrite (labelFor_parsed U _ Ha). reflexivity.
    + split; [reflexivity|].
      change (cleanUrl _) with (str "https://foo.io").
      rewrite (labelFor_parsed U _ Hb). reflexivity.
Qed.

(** The theorem with the stand-in parser at the text of the specification. *)
Lemma processActions_label_witness :
  let text := str "see https://example.com/page and https://foo.io" in
  plainHostname (str "https://example.com/page") = Ok (str "example.com") /\
  plainHostname (str "https://foo.io") = Ok (str "foo.io") /\
  exists a b,
    processActions plainHostname 0 text = Ok [a; b] /\
    url a = str "https://example.com/page" /\ label a = str "Open example" /\
    url b = str "https://foo.io" /\ label b = str "Open foo".
Proof.
  split; [reflexivity|]. split; [reflexivity|].
  exact (proj2 (processActions_label plainHostname 0) eq_refl eq_refl).
Defined.

(** ** The markup detector *)

Lemma containsMarkdown_more_than_two (md_parse : jsstring -> result (list Token))
    (text : jsstring) (tokens : list Token) :
  md_parse text = Ok tokens -> 2 < length tokens ->
  containsMarkdown md_parse text = Ok true.
Proof.
  intros H Hlen. unfold containsMarkdown. rewrite H. cbn [bind].
  destruct (Nat.leb_spec (length tokens) 2) as [Hle|_]; [lia|].
  apply Nat.ltb_lt in Hlen. rewrite Hlen. reflexivity.
Qed.

Lemma existsb_rev {A} (f : A -> bool) (l : list A) :
  existsb f (rev l) = existsb f l.
Proof.
  induction l as [|a l IH]; [reflexivity|].
  cbn [rev existsb]. rewrite existsb_app, IH. cbn [existsb].
  rewrite orb_false_r. apply orb_comm.
Qed.

Lemma isEmptyLine_false (l : jsstring) :
  existsb (fun c => negb (isSpace c)) l = true -> isEmptyLine l = false.
Proof.
  unfold isEmptyLine. induction l as [|c l IH]; cbn [existsb forallb]; [discriminate|].
  destruct (isSpace c); cbn [negb orb andb]; [exact IH|reflexivity].
Qed.

Lemma normalize_visible (n : nat) :
  forall s, length s <= n ->
    existsb (fun c => negb (isBlank c)) s = true ->
    existsb (fun c => negb (isBlank c)) (normalize s) = true.
Proof.
  induction n as [|n IH]; intros [|c s] Hlen; cbn [existsb]; try discriminate.
  - cbn [length] in Hlen. lia.
  - cbn [length] in Hlen. cbn [normalize].
    destruct (N.eqb_spec c 13) as [->|H13].
    + cbn [existsb]. change (negb (isBlank 13%N)) with false.
      change (negb (isBlank 10%N)) with false. cbn [orb].
      destruct s as [|d s']; [discriminate|].
      destruct (N.eqb_spec d 10) as [->|H10].
      * cbn [existsb]. change (negb (isBlank 10%N)) with false. cbn [orb].
        apply IH. cbn [length] in Hlen. lia.
      * apply IH. lia.
    + destruct (N.eqb_spec c 0) as [->|H0].
      * intros _. reflexivity.
      * cbn [existsb]. destruct (negb (isBlank c)); [reflexivity|].
        cbn [orb]. apply IH. lia.
Qed.

Lemma split_lines_visible (s : jsstring) :
  forall cur,
    existsb (fun c => negb (isSpace c)) cur ||
    existsb (fun c => negb (isBlank c)) s = true ->
    existsb (fun l => negb (isEmptyLine l)) (split_lines cur s) = true.
Proof.
  induction s as [|c s IH]; intros cur; cbn [existsb split_lines].
  - rewrite orb_false_r. intros H. destruct cur as [|a cur]; [discriminate|].
    cbn [existsb]. rewrite isEmptyLine_false by (rewrite existsb_rev; exact H).
    reflexivity.
  - intros H. destruct (N.eqb_spec c 10) as [->|H10].
    + cbn [existsb]. change (negb (isBlank 10%N)) with false in H. cbn [orb] in H.
      destruct (existsb (fun c => negb (isSpace c)) cur) eqn:E.
      * rewrite isEmptyLine_false by (rewrite existsb_rev; exact E). reflexivity.
      * cbn [orb] in H. rewrite (IH [] H). apply orb_true_r.
    + apply IH. cbn [existsb].
      assert (Hc : negb (isBlank c) = true -> negb (isSpace c) = true).
      { unfold isBlank. destruct (isSpace c); [discriminate|reflexivity]. }
      set (a := existsb _ cur) in *. set (b := existsb _ s) in *.
      destruct (negb (isBlank c)).
      * rewrite (Hc eq_refl). reflexivity.
      * cbn [orb] in H. destruct a; [rewrite orb_true_r; reflexivity|].
        cbn [orb] in H. rewrite H. apply orb_true_r.
Qed.

Lemma paragraphs_nonempty (ls : list jsstring) :
  forall cur,
    cur <> [] \/ existsb (fun l => negb (isEmptyLine l)) ls = true ->
    paragraphs cur ls <> [].
Proof.
  induction ls as [|l ls IH]; intros cur H; cbn [paragraphs].
  - destruct H as [H|H]; [|discriminate]. destruct cur; [contradiction|discriminate].
  - destruct (isEmptyLine l) eqn:E.
    + destruct cur as [|a cur]; [|discriminate].
      apply IH. right. destruct H as [H|H]; [contradiction|].
      cbn [existsb] in H. rewrite E in H. exact H.
    + apply IH. left. discriminate.
Qed.

(** The parser gives three tokens for each paragraph. *)
Lemma parse_three_per_paragraph (text : jsstring) :
  exists tokens,
    MarkdownIt.parse text = Ok tokens /\
    length tokens = 3 * length (paragraphs [] (split_lines [] (normalize text))).
Proof.
  eexists. split; [reflexivity|].
  induction (paragraphs [] (split_lines [] (normalize text))) as [|ps l IH];
    [reflexivity|].
  cbn [flat_map]. rewrite length_app, IH. cbn [length paragraphTokens]. lia.
Qed.

(** Any text with a visible character is classified as markdown by the
    parser stage, and so by detectMarkdown. *)
Lemma detectMarkdown_visible (text : jsstring) :
  existsb (fun c => negb (isBlank c)) text = true ->
  containsMarkdown MarkdownIt.parse text = Ok true /\
  detectMarkdown MarkdownIt.parse text = Ok true.
Proof.
  intros H.
  assert (Hc : containsMarkdown MarkdownIt.parse text = Ok true).
  { destruct (parse_three_per_paragraph text) as (tokens & Hp & Hlen).
    apply (containsMarkdown_more_than_two _ _ Hp).
    assert (Hne : paragraphs [] (split_lines [] (normalize text)) <> []).
    { apply paragraphs_nonempty. right. apply split_lines_visible.
      cbn [existsb orb]. apply (normalize_visible (n := length text)); [lia|exact H]. }
    destruct (paragraphs [] (split_lines [] (normalize text))); [contradiction|].
    cbn [length] in Hlen. lia. }
  split; [exact Hc|]. unfold detectMarkdown. rewrite Hc. reflexivity.
Qed.

(** C1: on "plain text, no formatting" the parser yields the three tokens of
    one paragraph, whose only child is text; with three tokens the test
    [tokens.length <= 2] fails and containsMarkdown answers
    [tokens.length > 2], so detectMarkdown returns true, although no
    fallback pattern matches the text. *)
Theorem detectMarkdown_plain_text :
  let text := str "plain text, no formatting" in
  MarkdownIt.parse text =
    Ok [Tok "paragraph_open" [] None;
        Tok "inline" text (Some [Tok "text" text None]);
        Tok "paragraph_close" [] None] /\
  containsMarkdown MarkdownIt.parse text = Ok true /\
  hasCommonMarkdownPatterns text = false /\
  detectMarkdown MarkdownIt.parse text = Ok true.
Proof.
  cbv zeta. repeat split; vm_compute; reflexivity.
Qed.

(** C8: on the empty string the parser yields no token, so the structural
    stage returns false; no fallback pattern matches; detectMarkdown returns
    false. *)
Theorem detectMarkdown_empty :
  MarkdownIt.parse (str "") = Ok [] /\
  containsMarkdown MarkdownIt.parse (str "") = Ok false /\
  hasCommonMarkdownPatterns (str "") = false /\
  detectMarkdown MarkdownIt.parse (str "") = Ok false.
Proof.
  repeat split; vm_compute; reflexivity.
Qed.


(** [test] on a pattern without the [g] flag neither reads nor writes
    [lastIndex]. *)
Lemma test_without_g (R : RegExp) (k : nat) (S : jsstring) :
  global R = false ->
  fst (test (set_lastIndex R k) S) = fst (test R S) /\ snd (test R S) = R.
Proof.
  intros HR. unfold test, exec. cbn [set_lastIndex global source reFlags].
  rewrite HR. destruct (seek None S 0) as [st|]; [|split; reflexivity].
  destruct (scan (reFlags R) (source R) (prev st) (rest st) 0) as [[i n]|];
    split; reflexivity.
Qed.

Lemma Array_some_test_lastIndex (li : RegExp -> nat) (text : jsstring)
    (patterns : list RegExp) :
  forallb (fun R => negb (global R)) patterns = true ->
  Array_some_test (map (fun R => set_lastIndex R (li R)) patterns) text =
  Array_some_test patterns text.
Proof.
  unfold Array_some_test. induction patterns as [|R l IH]; [reflexivity|].
  cbn [forallb map existsb]. rewrite andb_true_iff, negb_true_iff. intros [HR Hl].
  rewrite (proj1 (test_without_g R (li R) text HR)), (IH Hl). reflexivity.
Qed.

(** C9: two calls with the same text give the same result.  For
    detectMarkdown the two results are those of one call; its patterns carry
    no [g] flag, so that whatever [lastIndex] they held would not change
    what [test] answers.  For processActions the two results are those of
    one call whatever [lastIndex] the shared object [URL_PATTERN] holds at
    either call: the function matches with a fresh copy of it. *)
Theorem two_runs_agree :
  forall (md_parse : jsstring -> result (list Token))
         (URL_hostname : jsstring -> result jsstring)
         (text : jsstring) (n1 n2 : nat) (li : RegExp -> nat),
    twice (detectMarkdown md_parse) (detectMarkdown md_parse) text =
      (b <- detectMarkdown md_parse text ;; Ok (b, b)) /\
    Array_some_test (map (fun R => set_lastIndex R (li R)) markdownPatterns) text =
      hasCommonMarkdownPatterns text /\
    twice (processActions URL_hostname n1) (processActions URL_hostname n2) text =
      (actions <- processActions URL_hostname 0 text ;; Ok (actions, actions)) /\
    processActions URL_hostname n1 text = processActions URL_hostname n2 text.
Proof.
  intros md_parse U text n1 n2 li. split; [|split; [|split]].
  - unfold twice. destruct (detectMarkdown md_parse text); reflexivity.
  - apply Array_some_test_lastIndex. reflexivity.
  - unfold twice. rewrite !processActions_Ok. reflexivity.
  - rewrite !processActions_Ok. reflexivity.
Qed.

(** The earlier build on the four-URL text: the last three matches, in
    reverse order. *)
Remark processUrls_four_urls :
  forall URL_hostname n,
    exists a b c text,
      processUrls URL_hostname n
        (str "https://a.com https://b.com https://c.com https://d.com") =
        Ok ([a; b; c], text) /\
      url a = str "https://d.com" /\
      url b = str "https://c.com" /\
      url c = str "https://b.com".
Proof.
  intros U n. unfold processUrls. rewrite matchAll_URL_PATTERN.
  set (ms := urlMatches _). vm_compute in ms. subst ms.
  cbn [bind length Nat.eqb]. 
  set (sm := sortDescending _). vm_compute in sm. subst sm.
  cbn [length Nat.min Array_slice_0 firstn map matched urlsLoop].
  rewrite !deriveLabel_Ok. cbn [bind app].
  do 4 eexists. split; [reflexivity|]. repeat split.
Qed.

(** ** The token loops of containsMarkdown *)

Lemma childrenLoop_existsb (cs : list Token) (hasFormatting : bool) :
  childrenLoop cs hasFormatting =
  hasFormatting || existsb (fun child => negb (String.eqb (type child) "text")) cs.
Proof.
  induction cs as [|child cs IH]; cbn [childrenLoop existsb].
  - rewrite orb_false_r. reflexivity.
  - destruct (negb (String.eqb (type child) "text")).
    + rewrite orb_true_r. reflexivity.
    + exact IH.
Qed.

Lemma tokensLoop_existsb (ts : list Token) :
  forall hasFormatting,
    tokensLoop ts hasFormatting = hasFormatting || existsb isFormattingToken ts.
Proof.
  induction ts as [|token ts IH]; intros hf; cbn [tokensLoop existsb].
  - rewrite orb_false_r. reflexivity.
  - unfold isFormattingToken at 1.
    destruct (Array_includes blockLevelTypes (type token)).
    + rewrite orb_true_r. reflexivity.
    + rewrite IH. cbn [orb].
      destruct (String.eqb (type token) "inline"); cbn [andb orb]; [|reflexivity].
      destruct (children token) as [cs|]; cbn [orb]; [|reflexivity].
      rewrite childrenLoop_existsb. rewrite orb_assoc. reflexivity.
Qed.

(** X1: the structural stage, whatever the parser: it throws what the parser
    throws; otherwise it answers true exactly when the parser gave more
    than two tokens, or one of the tokens is block-level or is an inline
    token with a child that is not text.  The [break]s of the two loops do
    not change that. *)
Theorem containsMarkdown_tokens :
  forall (md_parse : jsstring -> result (list Token)) (text : jsstring),
    containsMarkdown md_parse text =
    (tokens <- md_parse text ;;
     Ok ((2 <? length tokens) || existsb isFormattingToken tokens)).
Proof.
  intros md_parse text. unfold containsMarkdown.
  destruct (md_parse text) as [tokens|e]; cbn [bind]; [|reflexivity].
  destruct (Nat.leb_spec (length tokens) 2) as [Hle|Hgt].
  - rewrite tokensLoop_existsb.
    destruct (Nat.ltb_spec 2 (length tokens)); [lia|reflexivity].
  - destruct (Nat.ltb_spec 2 (length tokens)); [reflexivity|lia].
Qed.

(** ** What a match consumes *)

Lemma step1_consumed (ok : char -> bool) (x y : state) :
  In y (step1 ok x) -> exists c, rest x = c :: rest y /\ ok c = true.
Proof.
  unfold step1. destruct x as [p [|c s]]; cbn [rest]; [intros []|].
  destruct (ok c) eqn:E; [|intros []].
  intros [<-|[]]. exists c. split; [reflexivity|exact E].
Qed.

Lemma forallb_weaken {A} (f g : A -> bool) (l : list A) :
  (forall a, f a = true -> g a = true) ->
  forallb f l = true -> forallb g l = true.
Proof.
  intros Hfg. rewrite !forallb_forall. intros H a Ha. apply Hfg, H, Ha.
Qed.

Lemma repeatMatcher_consumed (m : state -> list state) (ok : char -> bool) :
  (forall x y, In y (m x) ->
     exists consumed, rest x = consumed ++ rest y /\ forallb ok consumed = true) ->
  forall fuel min max greedy x y,
    In y (repeatMatcher fuel m min max greedy x) ->
    exists consumed, rest x = consumed ++ rest y /\ forallb ok consumed = true.
Proof.
  intros Hm.
  assert (Hrefl : forall x : state,
            exists consumed, rest x = consumed ++ rest x /\ forallb ok consumed = true)
    by (intros x; exists []; split; reflexivity).
  induction fuel as [|fuel IH]; intros min max greedy x y; cbn [repeatMatcher];
    [intros []|].
  assert (Hagain : In y (flat_map (fun y0 =>
            if (min =? 0) && (remaining y0 =? remaining x) then []
            else repeatMatcher fuel m (pred min) (option_map pred max) greedy y0) (m x)) ->
          exists consumed, rest x = consumed ++ rest y /\ forallb ok consumed = true).
  { rewrite in_flat_map. intros (z & Hz & Hy).
    destruct ((min =? 0) && (remaining z =? remaining x)); [destruct Hy|].
    apply IH in Hy. apply Hm in Hz.
    destruct Hz as (c1 & E1 & F1). destruct Hy as (c2 & E2 & F2).
    exists (c1 ++ c2). split.
    - rewrite E1, E2, app_assoc. reflexivity.
    - rewrite forallb_app, F1, F2. reflexivity. }
  destruct (isZero max).
  - intros [<-|[]]. apply Hrefl.
  - destruct (negb (min =? 0)); [exact Hagain|].
    destruct greedy.
    + rewrite in_app_iff. intros [H|[<-|[]]]; [auto|apply Hrefl].
    + intros [<-|H]; [apply Hrefl|auto].
Qed.

(** What lies between the start and the end of a match is made of code
    units the pattern can consume. *)
Lemma matcher_consumed (fl : flags) (r : regex) :
  forall x y, In y (matcher fl r x) ->
    exists consumed,
      rest x = consumed ++ rest y /\ forallb (consumable fl r) consumed = true.
Proof.
  assert (Hrefl : forall (ok : char -> bool) (x : state),
            exists consumed, rest x = consumed ++ rest x /\ forallb ok consumed = true)
    by (intros ok x; exists []; split; reflexivity).
  assert (Hone : forall (ok : char -> bool) x y, In y (step1 ok x) ->
            exists consumed, rest x = consumed ++ rest y /\ forallb ok consumed = true).
  { intros ok x y H. apply step1_consumed in H. destruct H as (c & E & Hc).
    exists [c]. split; [exact E|]. cbn [forallb]. rewrite Hc. reflexivity. }
  induction r; intros x y; cbn [matcher consumable].
  - intros [<-|[]]. apply Hrefl.
  - apply Hone.
  - apply Hone.
  - apply Hone.
  - rewrite in_flat_map. intros (z & Hz & Hy).
    apply IHr1 in Hz. apply IHr2 in Hy.
    destruct Hz as (c1 & E1 & F1). destruct Hy as (c2 & E2 & F2).
    exists (c1 ++ c2). split.
    + rewrite E1, E2, app_assoc. reflexivity.
    + rewrite forallb_app. apply andb_true_iff. split.
      * apply (forallb_weaken _ _ _ (fun a Ha => orb_true_intro _ _ (or_introl Ha)) F1).
      * apply (forallb_weaken _ _ _ (fun a Ha => orb_true_intro _ _ (or_intror Ha)) F2).
  - rewrite in_app_iff. intros [H|H].
    + apply IHr1 in H. destruct H as (c1 & E1 & F1). exists c1. split; [exact E1|].
      apply (forallb_weaken _ _ _ (fun a Ha => orb_true_intro _ _ (or_introl Ha)) F1).
    + apply IHr2 in H. destruct H as (c2 & E2 & F2). exists c2. split; [exact E2|].
      apply (forallb_weaken _ _ _ (fun a Ha => orb_true_intro _ _ (or_intror Ha)) F2).
  - apply repeatMatcher_consumed. exact IHr.
  - destruct (atLineStart fl x); [intros [<-|[]]; apply Hrefl|intros []].
  - destruct (atLineEnd fl x); [intros [<-|[]]; apply Hrefl|intros []].
  - destruct (atWordBoundary x); [intros [<-|[]]; apply Hrefl|intros []].
Qed.

Lemma matchAt_consumed (fl : flags) (r : regex) (p : option char) (s : jsstring) (n : nat) :
  matchAt fl r (State p s) = Some n ->
  n <= length s /\ forallb (consumable fl r) (firstn n s) = true.
Proof.
  unfold matchAt. destruct (matcher fl r (State p s)) as [|y l] eqn:E; [discriminate|].
  intros [= <-].
  destruct (@matcher_consumed fl r (State p s) y) as (consumed & Hs & Hc).
  { rewrite E. left. reflexivity. }
  cbn [rest] in Hs. unfold remaining. cbn [rest]. rewrite Hs, length_app.
  replace (length consumed + length (rest y) - length (rest y)) with (length consumed) by lia.
  split; [lia|].
  rewrite firstn_app, firstn_all, Nat.sub_diag. cbn [firstn]. rewrite app_nil_r. exact Hc.
Qed.

Lemma scan_consumed (fl : flags) (r : regex) (s : jsstring) :
  forall p idx i n,
    scan fl r p s idx = Some (i, n) ->
    idx <= i /\
    forallb (consumable fl r) (firstn n (skipn (i - idx) s)) = true.
Proof.
  induction s as [|c s IH]; intros p idx i n; cbn [scan].
  - destruct (matchAt fl r (State p [])) eqn:E; [|discriminate].
    intros [= <- <-]. split; [lia|]. rewrite Nat.sub_diag.
    apply (matchAt_consumed _ _ _ _ E).
  - destruct (matchAt fl r (State p (c :: s))) eqn:E.
    + intros [= <- <-]. split; [lia|]. rewrite Nat.sub_diag.
      apply (matchAt_consumed _ _ _ _ E).
    + intros H. apply IH in H. destruct H as [Hle H]. split; [lia|].
      replace (i - idx) with (S (i - S idx)) by lia. exact H.
Qed.

Lemma seek_rest (S : jsstring) :
  forall p i st, seek p S i = Some st -> rest st = skipn i S.
Proof.
  induction S as [|c S IH]; intros p [|i] st; cbn [seek skipn]; try discriminate.
  - intros [= <-]. reflexivity.
  - intros [= <-]. reflexivity.
  - apply IH.
Qed.

Lemma exec_consumed (R : RegExp) (S : jsstring) (m : Match) (R' : RegExp) :
  exec R S = (Some m, R') ->
  forallb (consumable (reFlags R) (source R)) (matched m) = true.
Proof.
  unfold exec.
  destruct (seek None S (if global R then lastIndex R else 0)) as [st|] eqn:Hseek;
    [|discriminate].
  destruct (scan (reFlags R) (source R) (prev st) (rest st)
              (if global R then lastIndex R else 0)) as [[i n]|] eqn:Hscan;
    [|discriminate].
  intros [= <- _]. cbn [matched].
  apply scan_consumed in Hscan. destruct Hscan as [Hle Hc].
  rewrite (seek_rest _ _ _ Hseek), skipn_skipn in Hc.
  replace (i - (if global R then lastIndex R else 0) + (if global R then lastIndex R else 0))
    with i in Hc by lia.
  exact Hc.
Qed.

Lemma matchAll_loop_consumed (S : jsstring) :
  forall fuel R,
    Forall (fun m => forallb (consumable (reFlags R) (source R)) (matched m) = true)
           (matchAll_loop fuel R S).
Proof.
  induction fuel as [|fuel IH]; intros R; cbn [matchAll_loop]; [constructor|].
  destruct (exec R S) as [[m|] R'] eqn:E; [|constructor].
  constructor; [exact (exec_consumed _ _ E)|].
  assert (HR' : reFlags R' = reFlags R /\ source R' = source R).
  { unfold exec in E.
    destruct (seek None S (if global R then lastIndex R else 0)) as [st|]; [|discriminate].
    destruct (scan _ _ _ _ _) as [[i n]|]; [|discriminate].
    injection E as _ <-. destruct (global R); split; reflexivity. }
  destruct HR' as [Hf Hs].
  destruct (isEmptyString (matched m)).
  - specialize (IH (set_lastIndex R' (lastIndex R' + 1))).
    cbn [set_lastIndex reFlags source] in IH. rewrite Hf, Hs in IH. exact IH.
  - specialize (IH R'). rewrite Hf, Hs in IH. exact IH.
Qed.

(** ** The alphabet of URL_PATTERN *)

Lemma asciiUpper_cases (p c : char) :
  asciiUpper p = asciiUpper c -> c = p \/ c = asciiUpper p \/ c = asciiLower p.
Proof.
  unfold asciiUpper, asciiLower, isAsciiLower, isAsciiUpper.
  destruct (N.leb_spec 97 p), (N.leb_spec p 122), (N.leb_spec 97 c), (N.leb_spec c 122),
           (N.leb_spec 65 p), (N.leb_spec p 90); cbn [andb]; lia.
Qed.

Lemma chrMatches_cases (fl : flags) (p c : char) :
  chrMatches fl p c = true ->
  c = p \/ (ignoreCase fl = true /\ (c = asciiUpper p \/ c = asciiLower p)).
Proof.
  unfold chrMatches, canonicalize. rewrite N.eqb_eq.
  destruct (ignoreCase fl).
  - intros H. apply asciiUpper_cases in H. tauto.
  - intros ->. left. reflexivity.
Qed.

Lemma N_range_In (lo hi c : N) :
  (lo <= c)%N -> (c <= hi)%N -> In c (N_range lo hi).
Proof.
  intros H1 H2. unfold N_range. apply in_map_iff.
  exists (N.to_nat (c - lo)). split; [lia|]. apply in_seq. lia.
Qed.

Lemma inRanges_forallb (ok : char -> bool) (ranges : list (char * char)) (c : char) :
  forallb (fun rg => forallb ok (N_range (fst rg) (snd rg))) ranges = true ->
  inRanges ranges c = true -> ok c = true.
Proof.
  unfold inRanges. rewrite forallb_forall, existsb_exists.
  intros Hall (rg & Hin & Hc). apply andb_true_iff in Hc. destruct Hc as [H1 H2].
  apply N.leb_le in H1, H2. specialize (Hall rg Hin). rewrite forallb_forall in Hall.
  apply Hall, N_range_In; assumption.
Qed.

Lemma alphabetWithin_sound (ok : char -> bool) (fl : flags) (r : regex) :
  (forall c, ok (asciiUpper c) = true \/ ok (asciiLower c) = true -> ok c = true) ->
  alphabetWithin ok r = true ->
  forall c, consumable fl r c = true -> ok c = true.
Proof.
  intros Hcase. induction r; cbn [alphabetWithin consumable]; try discriminate.
  - rewrite !andb_true_iff. intros [[Hp Hu] Hl] x Hx.
    apply chrMatches_cases in Hx.
    destruct Hx as [->|[_ [->| ->]]]; assumption.
  - destruct invert; [discriminate|]. intros Hall x. unfold clsMatches. cbn [xorb].
    rewrite orb_true_iff, andb_true_iff, orb_true_iff.
    intros [H|[_ [H|H]]].
    + exact (inRanges_forallb _ _ _ Hall H).
    + apply Hcase. left. exact (inRanges_forallb _ _ _ Hall H).
    + apply Hcase. right. exact (inRanges_forallb _ _ _ Hall H).
  - rewrite andb_true_iff. intros [H1 H2] x. rewrite orb_true_iff. intros [H|H]; auto.
  - rewrite andb_true_iff. intros [H1 H2] x. rewrite orb_true_iff. intros [H|H]; auto.
  - exact IHr.
Qed.

Lemma isUrlChar_case (c : char) :
  isUrlChar (asciiUpper c) = true \/ isUrlChar (asciiLower c) = true ->
  isUrlChar c = true.
Proof.
  unfold asciiUpper, asciiLower.
  destruct (isAsciiLower c) eqn:El.
  - intros _. unfold isUrlChar. rewrite El. reflexivity.
  - destruct (isAsciiUpper c) eqn:Eu.
    + intros _. unfold isUrlChar. rewrite Eu, orb_true_r. reflexivity.
    + intros [H|H]; exact H.
Qed.

Lemma URL_PATTERN_alphabet (c : char) :
  consumable (Flags true false) URL_PATTERN_source c = true -> isUrlChar c = true.
Proof.
  apply alphabetWithin_sound; [exact isUrlChar_case|]. vm_compute. reflexivity.
Qed.

Lemma isUrlChar_not_space (c : char) : isUrlChar c = true -> isWhiteSpace c = false.
Proof.
  unfold isUrlChar, isOneOf, isDigitChar, isAsciiLower, isAsciiUpper, isWhiteSpace,
    isLineTerminator.
  cbn [str list_ascii_of_string map existsb N_of_ascii N_of_digits].
  intros H. apply not_true_is_false. revert H.
  repeat rewrite ?orb_true_iff, ?andb_true_iff, ?N.leb_le, ?N.eqb_eq.
  cbn. lia.
Qed.

Lemma urlMatches_alphabet (text : jsstring) (m : Match) :
  In m (urlMatches text) -> forallb isUrlChar (matched m) = true.
Proof.
  intros Hin.
  pose proof (matchAll_loop_consumed text (length text + 2) (URL_PATTERN 0)) as H.
  rewrite Forall_forall in H. specialize (H m Hin).
  apply (forallb_weaken _ _ _ URL_PATTERN_alphabet H).
Qed.

Lemma trimStart_id (s : jsstring) :
  forallb (fun c => negb (isWhiteSpace c)) s = true -> trimStart s = s.
Proof.
  destruct s as [|c s]; [reflexivity|]. cbn [forallb trimStart].
  destruct (isWhiteSpace c); [discriminate|reflexivity].
Qed.

Lemma trim_id (s : jsstring) :
  forallb (fun c => negb (isWhiteSpace c)) s = true -> trim s = s.
Proof.
  intros H. unfold trim, trimEnd. rewrite (trimStart_id _ H).
  rewrite trimStart_id, rev_involutive; [reflexivity|].
  rewrite forallb_forall in H |- *. intros c Hc. apply H, in_rev, Hc.
Qed.

Lemma forallb_firstn {A} (f : A -> bool) (k : nat) (l : list A) :
  forallb f l = true -> forallb f (firstn k l) = true.
Proof.
  rewrite !forallb_forall. intros H a Ha. apply H.
  rewrite <- (firstn_skipn k l). apply in_or_app. left. exact Ha.
Qed.

(** On a string of URL characters [trim] has nothing to remove, so that
    cleanUrl returns the string or the string without its last character. *)
Lemma cleanUrl_of_url_chars (u : jsstring) :
  forallb isUrlChar u = true ->
  (cleanUrl u = u \/ cleanUrl u = slice_0_m1 u) /\
  forallb isUrlChar (cleanUrl u) = true.
Proof.
  intros H.
  assert (Hns : forall v, forallb isUrlChar v = true ->
                  forallb (fun c => negb (isWhiteSpace c)) v = true).
  { intros v. apply forallb_weaken. intros c Hc.
    rewrite (isUrlChar_not_space _ Hc). reflexivity. }
  assert (Hs : forallb isUrlChar (slice_0_m1 u) = true)
    by (apply forallb_firstn; exact H).
  unfold cleanUrl.
  destruct (endsWith u (str ")")); [destruct (negb (includes (slice_0_m1 u) (str "(")))|];
    rewrite trim_id by auto; auto.
Qed.

Lemma lit_consumed (fl : flags) (w : jsstring) :
  forall x y, In y (matcher fl (lit w) x) ->
    exists w', rest x = w' ++ rest y /\ Forall2 (fun p c => chrMatches fl p c = true) w w'.
Proof.
  induction w as [|p w IH]; intros x y.
  - cbn [lit matcher]. intros [<-|[]]. exists []. split; [reflexivity|constructor].
  - destruct w as [|p' w'].
    + cbn [lit matcher]. intros H. apply step1_consumed in H.
      destruct H as (c & E & Hc). exists [c]. split; [exact E|].
      constructor; [exact Hc|constructor].
    + change (lit (p :: p' :: w')) with (Seq (Chr p) (lit (p' :: w'))).
      cbn [matcher]. rewrite in_flat_map. intros (z & Hz & Hy).
      apply step1_consumed in Hz. destruct Hz as (c & E & Hc).
      apply IH in Hy. destruct Hy as (v & Ev & Hv).
      exists (c :: v). split; [rewrite E, Ev; reflexivity|].
      constructor; assumption.
Qed.

Lemma chrMatches_asciiLower (fl : flags) (p c : char) :
  chrMatches fl p c = true -> asciiLower c = asciiLower p.
Proof.
  intros H. apply chrMatches_cases in H.
  destruct H as [->|[_ H]]; [reflexivity|].
  revert H. unfold asciiUpper, asciiLower, isAsciiLower, isAsciiUpper.
  destruct (N.leb_spec 97 p), (N.leb_spec p 122), (N.leb_spec 65 p), (N.leb_spec p 90);
    cbn [andb]; intros [->| ->];
    repeat match goal with
           | |- context [N.leb ?a ?b] => destruct (N.leb_spec a b); cbn [andb]
           end; lia.
Qed.

Lemma Forall2_chrMatches_lower (fl : flags) (w w' : jsstring) :
  Forall2 (fun p c => chrMatches fl p c = true) w w' ->
  map asciiLower w' = map asciiLower w.
Proof.
  induction 1 as [|p c w w' H _ IH]; [reflexivity|].
  cbn [map]. rewrite IH, (chrMatches_asciiLower _ _ _ H). reflexivity.
Qed.

Lemma startsWith_prefix (w rest : jsstring) : startsWith (w ++ rest) w = true.
Proof.
  induction w as [|c w IH]; [reflexivity|].
  cbn [app startsWith]. rewrite N.eqb_refl. exact IH.
Qed.

Lemma opt_consumed (fl : flags) (r : regex) (x y : state) :
  In y (matcher fl (opt r) x) -> y = x \/ In y (matcher fl r x).
Proof.
  unfold opt. cbn [matcher]. rewrite Nat.add_1_r.
  cbn [repeatMatcher isZero Nat.eqb negb andb option_map pred].
  rewrite in_app_iff. intros [H|[<-|[]]]; [right|left; reflexivity].
  rewrite in_flat_map in H. destruct H as (z & Hz & Hy).
  destruct (remaining z =? remaining x); [destruct Hy|].
  destruct (0 + remaining x) as [|fuel]; [destruct Hy|].
  cbn [repeatMatcher isZero] in Hy. destruct Hy as [<-|[]]. exact Hz.
Qed.

(** A match of [URL_PATTERN] starts with the scheme, in any letter case. *)
Lemma URL_PATTERN_scheme (x y : state) (consumed : jsstring) :
  In y (matcher (Flags true false) URL_PATTERN_source x) ->
  rest x = consumed ++ rest y ->
  startsWith (map asciiLower consumed) (str "http://") ||
  startsWith (map asciiLower consumed) (str "https://") = true.
Proof.
  unfold URL_PATTERN_source.
  change (seq (lit (str "http") :: opt (Chr (chr "s")) :: lit (str "://") :: ?l))
    with (Seq (lit (str "http")) (Seq (opt (Chr (chr "s"))) (Seq (lit (str "://")) (seq l)))).
  cbn [matcher]. rewrite in_flat_map. intros (z1 & H1 & H).
  rewrite in_flat_map in H. destruct H as (z2 & H2 & H).
  rewrite in_flat_map in H. destruct H as (z3 & H3 & H4).
  apply lit_consumed in H1. destruct H1 as (w1 & E1 & F1).
  apply lit_consumed in H3. destruct H3 as (w3 & E3 & F3).
  apply matcher_consumed in H4. destruct H4 as (w4 & E4 & _).
  apply Forall2_chrMatches_lower in F1, F3.
  change (map asciiLower (str "http")) with (str "http") in F1.
  change (map asciiLower (str "://")) with (str "://") in F3.
  intros Hx.
  apply opt_consumed in H2. destruct H2 as [->|H2].
  - assert (Hc : consumed = w1 ++ w3 ++ w4).
    { apply (app_inv_tail (rest y)). rewrite <- Hx, E1, E3, E4, <- !app_assoc. reflexivity. }
    rewrite Hc, !map_app, F1, F3.
    apply orb_true_iff. left.
    exact (startsWith_prefix (str "http://") (map asciiLower w4)).
  - cbn [matcher] in H2. apply step1_consumed in H2. destruct H2 as (c & E2 & Hc2).
    apply chrMatches_asciiLower in Hc2.
    assert (Hc : consumed = w1 ++ c :: w3 ++ w4).
    { apply (app_inv_tail (rest y)). rewrite <- Hx, E1, E2, E3, E4, <- !app_assoc.
      cbn [app]. rewrite <- app_assoc. reflexivity. }
    rewrite Hc, map_app. cbn [map]. rewrite map_app, F1, F3, Hc2.
    apply orb_true_iff. right.
    exact (startsWith_prefix (str "https://") (map asciiLower w4)).
Qed.

(** ** Each match is what the matcher consumed *)

Lemma matchAt_matcher (fl : flags) (r : regex) (p : option char) (s : jsstring) (n : nat) :
  matchAt fl r (State p s) = Some n ->
  exists y, In y (matcher fl r (State p s)) /\ s = firstn n s ++ rest y.
Proof.
  unfold matchAt. destruct (matcher fl r (State p s)) as [|y l] eqn:E; [discriminate|].
  intros [= <-].
  assert (Hin : In y (matcher fl r (State p s))) by (rewrite E; left; reflexivity).
  exists y. split; [left; reflexivity|].
  destruct (matcher_consumed _ _ _ _ Hin) as (consumed & Hs & _).
  cbn [rest] in Hs. unfold remaining. cbn [rest]. rewrite Hs at 2 3. rewrite length_app.
  replace (length consumed + length (rest y) - length (rest y)) with (length consumed) by lia.
  rewrite firstn_app, firstn_all, Nat.sub_diag. cbn [firstn]. rewrite app_nil_r. exact Hs.
Qed.

Lemma scan_matcher (fl : flags) (r : regex) (s : jsstring) :
  forall p idx i n,
    scan fl r p s idx = Some (i, n) ->
    idx <= i /\
    exists p' y,
      In y (matcher fl r (State p' (skipn (i - idx) s))) /\
      skipn (i - idx) s = firstn n (skipn (i - idx) s) ++ rest y.
Proof.
  induction s as [|c s IH]; intros p idx i n; cbn [scan].
  - destruct (matchAt fl r (State p [])) eqn:E; [|discriminate].
    intros [= <- <-]. split; [lia|]. rewrite Nat.sub_diag.
    destruct (matchAt_matcher _ _ _ _ E) as (y & Hy & Hs). exists p, y. split; assumption.
  - destruct (matchAt fl r (State p (c :: s))) eqn:E.
    + intros [= <- <-]. split; [lia|]. rewrite Nat.sub_diag.
      destruct (matchAt_matcher _ _ _ _ E) as (y & Hy & Hs). exists p, y. split; assumption.
    + intros H. apply IH in H. destruct H as [Hle H]. split; [lia|].
      replace (i - idx) with (S (i - S idx)) by lia. exact H.
Qed.

Lemma exec_pattern (R : RegExp) (S : jsstring) :
  reFlags (snd (exec R S)) = reFlags R /\ source (snd (exec R S)) = source R /\
  global (snd (exec R S)) = global R.
Proof.
  unfold exec.
  destruct (global R) eqn:Eg;
    (destruct (seek None S _) as [st|];
     [destruct (scan _ _ _ _ _) as [[i n]|]|]);
    cbn [snd set_lastIndex reFlags source global]; rewrite ?Eg; repeat split.
Qed.

Lemma exec_matcher (R : RegExp) (S : jsstring) (m : Match) (R' : RegExp) :
  exec R S = (Some m, R') ->
  exists p y, In y (matcher (reFlags R) (source R) (State p (matched m ++ rest y))).
Proof.
  unfold exec.
  destruct (seek None S (if global R then lastIndex R else 0)) as [st|] eqn:Hseek;
    [|discriminate].
  destruct (scan (reFlags R) (source R) (prev st) (rest st)
              (if global R then lastIndex R else 0)) as [[i n]|] eqn:Hscan;
    [|discriminate].
  intros [= <- _]. cbn [matched].
  apply scan_matcher in Hscan. destruct Hscan as (Hle & p & y & Hy & Hs).
  rewrite (seek_rest _ _ _ Hseek), skipn_skipn in Hy, Hs.
  replace (i - (if global R then lastIndex R else 0) + (if global R then lastIndex R else 0))
    with i in Hy, Hs by lia.
  exists p, y. rewrite <- Hs. exact Hy.
Qed.

Lemma matchAll_loop_matcher (S : jsstring) :
  forall fuel R,
    Forall (fun m => exists p y,
              In y (matcher (reFlags R) (source R) (State p (matched m ++ rest y))))
           (matchAll_loop fuel R S).
Proof.
  induction fuel as [|fuel IH]; intros R; cbn [matchAll_loop]; [constructor|].
  pose proof (exec_pattern R S) as (Hf & Hs & _).
  destruct (exec R S) as [[m|] R'] eqn:E; [|constructor]. cbn [snd] in Hf, Hs.
  constructor; [exact (exec_matcher _ _ E)|].
  destruct (isEmptyString (matched m)).
  - specialize (IH (set_lastIndex R' (lastIndex R' + 1))).
    cbn [set_lastIndex reFlags source] in IH. rewrite Hf, Hs in IH. exact IH.
  - specialize (IH R'). rewrite Hf, Hs in IH. exact IH.
Qed.

Lemma urlMatches_scheme (text : jsstring) (m : Match) :
  In m (urlMatches text) ->
  startsWith (map asciiLower (matched m)) (str "http://") ||
  startsWith (map asciiLower (matched m)) (str "https://") = true.
Proof.
  intros Hin.
  pose proof (matchAll_loop_matcher text (length text + 2) (URL_PATTERN 0)) as H.
  rewrite Forall_forall in H. destruct (H m Hin) as (p & y & Hy).
  exact (URL_PATTERN_scheme _ _ _ Hy eq_refl).
Qed.

(** ** Patterns that need a character the text does not have *)

Lemma flat_map_nil {A B} (f : A -> list B) (l : list A) :
  (forall a, In a l -> f a = []) -> flat_map f l = [].
Proof.
  induction l as [|a l IH]; intros H; [reflexivity|].
  cbn [flat_map]. rewrite (H a (or_introl eq_refl)), IH; [reflexivity|].
  intros b Hb. apply H. right. exact Hb.
Qed.

Lemma step1_nil (ok special : char -> bool) (x : state) :
  (forall c, ok c = true -> special c = true) ->
  forallb (fun c => negb (special c)) (rest x) = true ->
  step1 ok x = [].
Proof.
  intros Hok. unfold step1. destruct (rest x) as [|c s]; [reflexivity|].
  cbn [forallb]. destruct (ok c) eqn:E; [|reflexivity].
  rewrite (Hok c E). discriminate.
Qed.

Lemma needs_sound (fl : flags) (special : char -> bool) (r : regex) :
  needs fl special r = true ->
  forall x, forallb (fun c => negb (special c)) (rest x) = true ->
    matcher fl r x = [].
Proof.
  induction r; cbn [needs matcher]; try discriminate.
  - rewrite andb_true_iff, orb_true_iff, negb_true_iff, andb_true_iff.
    intros [Hp Hi] x Hx. apply (step1_nil _ special); [|exact Hx].
    intros a Ha. apply chrMatches_cases in Ha.
    destruct Ha as [->|[Hic [->| ->]]]; [exact Hp| |];
      destruct Hi as [Hi|[Hu Hl]]; congruence.
  - destruct invert; [discriminate|].
    rewrite andb_true_iff, negb_true_iff. intros [Hi Hall] x Hx.
    apply (step1_nil _ special); [|exact Hx].
    intros a. unfold clsMatches. rewrite Hi. cbn [xorb andb]. rewrite orb_false_r.
    apply inRanges_forallb. exact Hall.
  - rewrite orb_true_iff. intros [H|H] x Hx.
    + rewrite (IHr1 H x Hx). reflexivity.
    + apply flat_map_nil. intros y Hy. apply IHr2; [exact H|].
      apply matcher_consumed in Hy. destruct Hy as (consumed & E & _).
      rewrite E, forallb_app in Hx. apply andb_true_iff in Hx. apply Hx.
  - rewrite andb_true_iff. intros [H1 H2] x Hx.
    rewrite (IHr1 H1 x Hx), (IHr2 H2 x Hx). reflexivity.
  - rewrite !andb_true_iff, !negb_true_iff. intros [[Hmin Hmax] H] x Hx.
    destruct (min + remaining x + 1) as [|fuel]; [reflexivity|].
    cbn [repeatMatcher]. rewrite Hmin, Hmax. cbn [negb andb].
    rewrite (IHr H x Hx). reflexivity.
Qed.

Lemma forallb_skipn {A} (f : A -> bool) (k : nat) (l : list A) :
  forallb f l = true -> forallb f (skipn k l) = true.
Proof.
  rewrite !forallb_forall. intros H a Ha. apply H.
  rewrite <- (firstn_skipn k l). apply in_or_app. right. exact Ha.
Qed.

Lemma scan_needs (fl : flags) (special : char -> bool) (r : regex) (s : jsstring) :
  needs fl special r = true ->
  forallb (fun c => negb (special c)) s = true ->
  forall p idx, scan fl r p s idx = None.
Proof.
  intros Hr. induction s as [|c s IH]; intros Hs p idx; cbn [scan]; unfold matchAt.
  - rewrite (needs_sound _ _ _ Hr); [reflexivity|exact Hs].
  - rewrite (needs_sound _ _ _ Hr); [|exact Hs].
    cbn [forallb] in Hs. apply andb_true_iff in Hs. apply IH, Hs.
Qed.

Lemma exec_needs (special : char -> bool) (R : RegExp) (S : jsstring) :
  needs (reFlags R) special (source R) = true ->
  forallb (fun c => negb (special c)) S = true ->
  fst (exec R S) = None.
Proof.
  intros Hr Hs. unfold exec.
  destruct (seek None S (if global R then lastIndex R else 0)) as [st|] eqn:Hseek;
    [|reflexivity].
  rewrite (scan_needs _ _ _ _ Hr); [reflexivity|].
  rewrite (seek_rest _ _ _ Hseek). apply forallb_skipn, Hs.
Qed.

Lemma Array_some_test_needs (special : char -> bool) (patterns : list RegExp)
    (text : jsstring) :
  forallb (fun R => needs (reFlags R) special (source R)) patterns = true ->
  forallb (fun c => negb (special c)) text = true ->
  Array_some_test patterns text = false.
Proof.
  intros Hp Ht. unfold Array_some_test.
  induction patterns as [|R l IH]; [reflexivity|].
  cbn [forallb] in Hp. apply andb_true_iff in Hp. destruct Hp as [HR Hl].
  cbn [existsb]. rewrite (IH Hl), orb_false_r. unfold test.
  pose proof (exec_needs special R text HR Ht) as E.
  destruct (exec R text) as [[m|] R']; [discriminate|reflexivity].
Qed.

Lemma forallb_negb_eqb (k : char) (s : jsstring) :
  ~ In k s -> forallb (fun c => negb (N.eqb c k)) s = true.
Proof.
  intros H. apply forallb_forall. intros c Hc. apply negb_true_iff, N.eqb_neq.
  intros ->. exact (H Hc).
Qed.

Lemma forallb_and {A} (f g : A -> bool) (l : list A) :
  forallb f l = true -> forallb g l = true ->
  forallb (fun a => f a && g a) l = true.
Proof.
  rewrite !forallb_forall. intros Hf Hg a Ha. rewrite (Hf a Ha), (Hg a Ha). reflexivity.
Qed.

(** Without markup characters no pattern matches. *)
Lemma no_markup_no_pattern :
  forall text : jsstring,
    forallb (fun c => negb (isMarkupChar c)) text = true ->
    forallb (fun c => negb (isDigitChar c)) text = true \/ ~ In (chr ".") text ->
    hasCommonMarkdownPatterns text = false.
Proof.
  intros text Hm [Hd|Hp].
  - apply (Array_some_test_needs (fun c => isMarkupChar c || isDigitChar c)).
    + vm_compute. reflexivity.
    + pose proof (forallb_and _ _ _ Hm Hd) as H.
      apply (forallb_weaken _ _ _ (fun c Hc => eq_trans (negb_orb _ _) Hc) H).
  - apply (Array_some_test_needs (fun c => isMarkupChar c || N.eqb c (chr "."))).
    + vm_compute. reflexivity.
    + pose proof (forallb_and _ _ _ Hm (forallb_negb_eqb _ _ Hp)) as H.
      apply (forallb_weaken _ _ _ (fun c Hc => eq_trans (negb_orb _ _) Hc) H).
Qed.

(** X2: a text that has none of the characters [* _ ~ # - + > ` [ |], and
    that has no digit or no full stop, matches none of the fifteen fallback
    patterns. *)
Theorem hasCommonMarkdownPatterns_needs_markup :
  forall text : jsstring,
    forallb (fun c => negb (isMarkupChar c)) text = true ->
    forallb (fun c => negb (isDigitChar c)) text = true \/ ~ In (chr ".") text ->
    hasCommonMarkdownPatterns text = false.
Proof. exact no_markup_no_pattern. Qed.

(** The theorem at a sentence without digits and at a sentence without a
    full stop. *)
Lemma hasCommonMarkdownPatterns_needs_markup_witness :
  hasCommonMarkdownPatterns (str "Build finished. All tests passed!") = false /\
  hasCommonMarkdownPatterns (str "Deployed 3 services in 42 seconds") = false.
Proof.
  split.
  - apply hasCommonMarkdownPatterns_needs_markup; [reflexivity|left; reflexivity].
  - apply hasCommonMarkdownPatterns_needs_markup; [reflexivity|right].
    vm_compute. intros H. repeat (destruct H as [H|H]; [discriminate H|]). exact H.
Defined.

(** X3: a text without a colon, or without a slash, or without a full stop
    holds no match of URL_PATTERN, and processActions returns the empty
    list. *)
Theorem processActions_needs_url_punctuation :
  forall (URL_hostname : jsstring -> result jsstring) (n : nat) (text : jsstring),
    ~ In (chr ":") text \/ ~ In (chr "/") text \/ ~ In (chr ".") text ->
    urlMatches text = [] /\ processActions URL_hostname n text = Ok [].
Proof.
  intros U n text H.
  assert (E : urlMatches text = []).
  { unfold urlMatches. rewrite Nat.add_comm. cbn [Nat.add matchAll_loop].
    assert (Hx : fst (exec (URL_PATTERN 0) text) = None).
    { destruct H as [H|[H|H]].
      - apply (exec_needs (fun c => N.eqb c (chr ":"))); [reflexivity|].
        apply forallb_negb_eqb, H.
      - apply (exec_needs (fun c => N.eqb c (chr "/"))); [reflexivity|].
        apply forallb_negb_eqb, H.
      - apply (exec_needs (fun c => N.eqb c (chr "."))); [reflexivity|].
        apply forallb_negb_eqb, H. }
    destruct (exec (URL_PATTERN 0) text) as [[m|] R']; [discriminate|reflexivity]. }
  split; [exact E|]. rewrite processActions_Ok, E. reflexivity.
Qed.

Lemma processActions_needs_url_punctuation_witness :
  urlMatches (str "ping example.com or mail: ops@example.com") = [] /\
  processActions plainHostname 0 (str "ping example.com or mail: ops@example.com") = Ok [].
Proof.
  apply processActions_needs_url_punctuation. right. left.
  vm_compute. intros H. repeat (destruct H as [H|H]; [discriminate H|]). exact H.
Defined.

(** ** The detector with the zero-preset parser *)

Lemma normalize_blank (n : nat) :
  forall s, length s <= n ->
    forallb isBlank s = true ->
    forallb (fun c => isSpace c || N.eqb c 10) (normalize s) = true.
Proof.
  induction n as [|n IH]; intros [|c s] Hlen; cbn [forallb]; try reflexivity.
  - cbn [length] in Hlen. lia.
  - cbn [length] in Hlen. rewrite andb_true_iff. intros [Hc Hs]. cbn [normalize].
    destruct (N.eqb_spec c 13) as [->|H13].
    + cbn [forallb]. change (isSpace 10%N || N.eqb 10 10) with true. cbn [andb].
      destruct s as [|d s']; [reflexivity|].
      destruct (N.eqb_spec d 10) as [->|H10].
      * apply IH; [cbn [length] in Hlen; lia|].
        cbn [forallb] in Hs. apply andb_true_iff in Hs. apply Hs.
      * apply IH; [lia|exact Hs].
    + destruct (N.eqb_spec c 0) as [->|H0]; [discriminate Hc|].
      cbn [forallb]. rewrite (IH s) by (lia || exact Hs). rewrite andb_true_r.
      unfold isBlank in Hc. apply N.eqb_neq in H13. rewrite H13, orb_false_r in Hc.
      exact Hc.
Qed.

Lemma forallb_rev {A} (f : A -> bool) (l : list A) :
  forallb f l = true -> forallb f (rev l) = true.
Proof.
  rewrite !forallb_forall. intros H a Ha. apply H, in_rev, Ha.
Qed.

Lemma split_lines_blank (s : jsstring) :
  forall cur,
    forallb isSpace cur = true ->
    forallb (fun c => isSpace c || N.eqb c 10) s = true ->
    forallb isEmptyLine (split_lines cur s) = true.
Proof.
  induction s as [|c s IH]; intros cur Hcur; cbn [forallb split_lines].
  - intros _. destruct cur as [|a cur]; [reflexivity|].
    cbn [forallb]. rewrite andb_true_r. apply forallb_rev. exact Hcur.
  - rewrite andb_true_iff. intros [Hc Hs].
    destruct (N.eqb_spec c 10) as [->|H10].
    + cbn [forallb]. apply andb_true_iff. split.
      * apply forallb_rev. exact Hcur.
      * apply IH; [reflexivity|exact Hs].
    + apply IH; [|exact Hs]. cbn [forallb]. rewrite Hcur, andb_true_r.
      rewrite orb_false_r in Hc. exact Hc.
Qed.

Lemma paragraphs_blank (ls : list jsstring) :
  forallb isEmptyLine ls = true -> paragraphs [] ls = [].
Proof.
  induction ls as [|l ls IH]; cbn [forallb paragraphs]; [reflexivity|].
  rewrite andb_true_iff. intros [Hl Hls]. rewrite Hl. apply IH, Hls.
Qed.

Lemma parse_blank (text : jsstring) :
  forallb isBlank text = true -> MarkdownIt.parse text = Ok [].
Proof.
  intros H. unfold MarkdownIt.parse.
  rewrite paragraphs_blank; [reflexivity|].
  apply split_lines_blank; [reflexivity|].
  apply (normalize_blank (n := length text)); [lia|exact H].
Qed.

Lemma isBlank_plain (c : char) :
  isBlank c = true -> negb (isMarkupChar c) && negb (isDigitChar c) = true.
Proof.
  unfold isBlank, isSpace. rewrite !orb_true_iff, !N.eqb_eq.
  intros [[[->| ->]| ->]| ->]; reflexivity.
Qed.

(** X4: with the zero-preset parser, detectMarkdown returns true exactly when
    the text has a character other than space, tab, line feed and carriage
    return. *)
Theorem detectMarkdown_zero_preset :
  forall text : jsstring,
    detectMarkdown MarkdownIt.parse text =
    Ok (existsb (fun c => negb (isBlank c)) text).
Proof.
  intros text.
  destruct (existsb (fun c => negb (isBlank c)) text) eqn:E.
  - apply detectMarkdown_visible. exact E.
  - assert (Hb : forallb isBlank text = true).
    { apply forallb_forall. intros c Hc.
      destruct (isBlank c) eqn:Ec; [reflexivity|]. exfalso.
      assert (Hex : existsb (fun c => negb (isBlank c)) text = true).
      { apply existsb_exists. exists c. rewrite Ec. split; [exact Hc|reflexivity]. }
      congruence. }
    unfold detectMarkdown, containsMarkdown. rewrite (parse_blank _ Hb).
    cbn [bind length Nat.leb tokensLoop negb]. f_equal.
    apply no_markup_no_pattern; [|left].
    + apply (forallb_weaken _ _ _
               (fun c Hc => proj1 (proj1 (andb_true_iff _ _) (isBlank_plain c Hc))) Hb).
    + apply (forallb_weaken _ _ _
               (fun c Hc => proj2 (proj1 (andb_true_iff _ _) (isBlank_plain c Hc))) Hb).
Qed.

(** ** The targets of the actions *)

Lemma firstn_In {A} (k : nat) (l : list A) (a : A) : In a (firstn k l) -> In a l.
Proof.
  intros H. rewrite <- (firstn_skipn k l). apply in_or_app. left. exact H.
Qed.

(** Every action comes from a match of the text. *)
Lemma processActions_In (URL_hostname : jsstring -> result jsstring) (n : nat)
    (text : jsstring) :
  exists actions,
    processActions URL_hostname n text = Ok actions /\
    forall a, In a actions ->
      exists m, In m (urlMatches text) /\ a = viewAction URL_hostname (cleanUrl (matched m)).
Proof.
  eexists. split; [apply processActions_Ok|].
  intros a Ha. apply in_map_iff in Ha. destruct Ha as (m & <- & Hm).
  exists m. split; [exact (firstn_In _ _ _ Hm)|reflexivity].
Qed.

Lemma endsWith_char_inv (u : jsstring) (c : char) :
  endsWith u [c] = true -> exists body, u = body ++ [c].
Proof.
  unfold endsWith. rewrite andb_true_iff, string_eqb_eq. intros [Hlen H].
  exists (firstn (length u - 1) u). rewrite <- H at 1.
  cbn [length]. symmetry. apply firstn_skipn.
Qed.

Lemma startsWith_snoc_inv (P b : jsstring) (c : char) :
  ~ In c P -> startsWith (b ++ [c]) P = true -> startsWith b P = true.
Proof.
  revert b. induction P as [|q P IH]; intros b Hno; [reflexivity|].
  destruct b as [|a b]; cbn [app startsWith].
  - rewrite andb_true_iff, N.eqb_eq. intros [-> _]. exfalso. apply Hno. left. reflexivity.
  - rewrite !andb_true_iff. intros [Ha H]. split; [exact Ha|].
    apply IH; [|exact H]. intros Hin. apply Hno. right. exact Hin.
Qed.

(** X5: every action target is made of ASCII letters, digits and the
    punctuation [-@:%._+~#=()?&/] only; it holds no white space, no quote
    and no control character. *)
Theorem processActions_target_alphabet :
  forall (URL_hostname : jsstring -> result jsstring) (n : nat) (text : jsstring),
    exists actions,
      processActions URL_hostname n text = Ok actions /\
      Forall (fun a => forallb isUrlChar (url a) = true) actions.
Proof.
  intros U n text. destruct (processActions_In U n text) as (actions & E & H).
  exists actions. split; [exact E|]. apply Forall_forall. intros a Ha.
  destruct (H a Ha) as (m & Hm & ->). cbn [url viewAction].
  exact (proj2 (cleanUrl_of_url_chars _ (urlMatches_alphabet _ _ Hm))).
Qed.

(** X6: every action target starts with "http://" or "https://", in any
    letter case. *)
Theorem processActions_target_scheme :
  forall (URL_hostname : jsstring -> result jsstring) (n : nat) (text : jsstring),
    exists actions,
      processActions URL_hostname n text = Ok actions /\
      Forall (fun a =>
                startsWith (map asciiLower (url a)) (str "http://") ||
                startsWith (map asciiLower (url a)) (str "https://") = true) actions.
Proof.
  intros U n text. destruct (processActions_In U n text) as (actions & E & H).
  exists actions. split; [exact E|]. apply Forall_forall. intros a Ha.
  destruct (H a Ha) as (m & Hm & ->). cbn [url viewAction].
  pose proof (urlMatches_scheme _ _ Hm) as Hs.
  destruct (cleanUrl_of_url_chars _ (urlMatches_alphabet _ _ Hm)) as [[->| Hc] _];
    [exact Hs|].
  rewrite Hc. unfold cleanUrl in Hc.
  destruct (endsWith (matched m) (str ")")) eqn:Ee.
  - apply (endsWith_char_inv (matched m) (chr ")")) in Ee. destruct Ee as (body & Eb).
    rewrite Eb, slice_0_m1_snoc. rewrite Eb, map_app in Hs. cbn [map] in Hs.
    change (asciiLower (chr ")")) with (chr ")") in Hs.
    apply orb_true_iff in Hs. apply orb_true_iff.
    destruct Hs as [Hs|Hs]; [left|right];
      (apply (startsWith_snoc_inv _ _ (chr ")")); [|exact Hs]);
      vm_compute; intros Hin;
      repeat (destruct Hin as [Hin|Hin]; [discriminate Hin|]); exact Hin.
  - (* without a final ")" the slice equals the match only if it is empty *)
    destruct (matched m) as [|c u] eqn:Em; [exact Hs|].
    exfalso. assert (Hlen : length (trim (c :: u)) = length (slice_0_m1 (c :: u)))
      by (rewrite Hc; reflexivity).
    rewrite trim_id in Hlen.
    + unfold slice_0_m1 in Hlen. rewrite length_firstn in Hlen. cbn [length] in Hlen. lia.
    + pose proof (urlMatches_alphabet _ _ Hm) as Hu. rewrite Em in Hu.
      apply (forallb_weaken _ _ _
               (fun x Hx => eq_trans (f_equal negb (isUrlChar_not_space x Hx)) eq_refl) Hu).
Qed.

(** X7: every action target occurs in the text: the extractor builds no
    target of its own. *)
Theorem processActions_target_in_text :
  forall (URL_hostname : jsstring -> result jsstring) (n : nat) (text : jsstring),
    exists actions,
      processActions URL_hostname n text = Ok actions /\
      Forall (fun a => exists before after, text = before ++ url a ++ after) actions.
Proof.
  intros U n text. destruct (processActions_In U n text) as (actions & E & H).
  exists actions. split; [exact E|]. apply Forall_forall. intros a Ha.
  destruct (H a Ha) as (m & Hm & ->). cbn [url viewAction].
  pose proof (@matchAll_loop_substring text (length text + 2) (URL_PATTERN 0) eq_refl) as Hsub.
  rewrite Forall_forall in Hsub. destruct (Hsub m Hm) as [Hmat Hlen].
  assert (Htext : text = firstn (index m) text ++ matched m ++
                         skipn (length (matched m)) (skipn (index m) text)).
  { set (k := length (matched m)) in *. rewrite Hmat.
    rewrite (firstn_skipn k), firstn_skipn. reflexivity. }
  destruct (cleanUrl_of_url_chars _ (urlMatches_alphabet _ _ Hm)) as [[->| ->] _].
  - eexists. eexists. exact Htext.
  - exists (firstn (index m) text).
    exists (skipn (length (matched m) - 1) (matched m) ++
            skipn (length (matched m)) (skipn (index m) text)).
    unfold slice_0_m1.
    rewrite (app_assoc (firstn (length (matched m) - 1) (matched m))), firstn_skipn.
    exact Htext.
Qed.

(** ** The other branches of cleanUrl *)

Lemma includes_char_true (s : jsstring) (c : char) :
  In c s -> includes s [c] = true.
Proof.
  intros H. destruct (includes s [c]) eqn:E; [reflexivity|].
  apply includes_char in E. contradiction.
Qed.

(** X8: cleanUrl removes nothing but white space at the two ends unless the
    string ends with ")" and has no "(" before it: a final ")" that closes
    a "(" of the same string stays, and so does any other final character.
    A match such as "https://en.wikipedia.org/wiki/Rocq_(software)" is kept
    whole. *)
Theorem cleanUrl_keeps_closed_paren :
  forall (URL_hostname : jsstring -> result jsstring) (n : nat),
    (forall body, In (chr "(") body ->
       cleanUrl (body ++ str ")") = trimStart body ++ str ")") /\
    (forall body c, c <> chr ")" -> cleanUrl (body ++ [c]) = trim (body ++ [c])) /\
    cleanUrl [] = [] /\
    (exists a,
       processActions URL_hostname n
         (str "see https://en.wikipedia.org/wiki/Rocq_(software)") = Ok [a] /\
       url a = str "https://en.wikipedia.org/wiki/Rocq_(software)").
Proof.
  intros U n. repeat split.
  - intros body Hin. unfold cleanUrl. change (str ")") with [chr ")"].
    rewrite endsWith_snoc, slice_0_m1_snoc.
    change (str "(") with [chr "("]. rewrite (includes_char_true _ _ Hin).
    cbn [negb]. apply trim_snoc. reflexivity.
  - intros body c Hc. unfold cleanUrl. change (str ")") with [chr ")"].
    rewrite (endsWith_snoc_neq body Hc). reflexivity.
  - rewrite processActions_Ok.
    set (ms := urlMatches _). vm_compute in ms. subst ms.
    eexists. split; reflexivity.
Qed.

Lemma cleanUrl_keeps_closed_paren_witness :
  cleanUrl (str "https://a.io/x_(y)") = str "https://a.io/x_(y)" /\
  cleanUrl (str "https://a.io/x.") = str "https://a.io/x.".
Proof.
  destruct (cleanUrl_keeps_closed_paren plainHostname 0) as (H1 & H2 & _).
  split.
  - apply (H1 (str "https://a.io/x_(y")). vm_compute. tauto.
  - apply (H2 (str "https://a.io/x") (chr ".")). discriminate.
Defined.

(** ** The earlier build: which matches it keeps *)

Lemma insertDescending_front (m : Match) (sorted : list Match) :
  Forall (fun x => index x < index m) sorted ->
  insertDescending m sorted = m :: sorted.
Proof.
  intros H. destruct sorted as [|x l]; [reflexivity|].
  cbn [insertDescending]. inversion H as [|? ? Hx _]; subst.
  apply Nat.ltb_lt in Hx. rewrite Hx. reflexivity.
Qed.

Lemma sortDescending_ascending (ms : list Match) :
  forall acc,
    StronglySorted precedes ms ->
    Forall (fun x => Forall (fun m => index x < index m) ms) acc ->
    fold_left (fun sorted m => insertDescending m sorted) ms acc = rev ms ++ acc.
Proof.
  induction ms as [|m ms IH]; intros acc Hs Hacc; [reflexivity|].
  cbn [fold_left rev]. apply StronglySorted_inv in Hs. destruct Hs as [Hs Hm].
  rewrite insertDescending_front.
  - rewrite IH; [rewrite <- app_assoc; reflexivity|exact Hs|].
    constructor.
    + eapply Forall_impl; [|exact Hm]. intros a [Ha _]. exact Ha.
    + eapply Forall_impl; [|exact Hacc]. intros a Ha.
      inversion Ha; assumption.
  - eapply Forall_impl; [|exact Hacc]. intros a Ha. inversion Ha; assumption.
Qed.

Lemma urlsLoop_Ok (URL_hostname : jsstring -> result jsstring) (urls : list jsstring) :
  forall actions,
    urlsLoop URL_hostname urls actions =
    Ok (actions ++
        map (fun u => mkViewAction "view" (str "Open " ++ labelFor URL_hostname u)
                        (trim u) (Some true)) urls).
Proof.
  induction urls as [|u urls IH]; intros actions; cbn [urlsLoop map].
  - rewrite app_nil_r. reflexivity.
  - rewrite deriveLabel_Ok. cbn [bind]. rewrite IH, <- app_assoc. reflexivity.
Qed.

(** X9: the earlier build, processUrls, returns the message unchanged and
    builds its actions from the last three matches of the text, the last
    one first; each target is the match as it stands, a final ")"
    included. *)
Theorem processUrls_last_three_reversed :
  forall (URL_hostname : jsstring -> result jsstring) (n : nat) (text : jsstring),
    processUrls URL_hostname n text =
    Ok (map (fun m => mkViewAction "view"
                        (str "Open " ++ labelFor URL_hostname (matched m))
                        (matched m) (Some true))
            (firstn 3 (rev (urlMatches text))),
        text).
Proof.
  intros U n text. unfold processUrls. rewrite matchAll_URL_PATTERN. cbn [bind].
  destruct (urlMatches text) as [|m0 ms0] eqn:E; [reflexivity|].
  cbn [length Nat.eqb]. rewrite <- E.
  assert (Hsort : sortDescending (urlMatches text) = rev (urlMatches text)).
  { unfold sortDescending. rewrite sortDescending_ascending.
    - apply app_nil_r.
    - apply matchAll_loop_sorted. reflexivity.
    - constructor. }
  rewrite Hsort. unfold Array_slice_0.
  assert (Hmin : firstn (Nat.min 3 (length (rev (urlMatches text)))) (rev (urlMatches text)) =
                 firstn 3 (rev (urlMatches text))).
  { destruct (rev (urlMatches text)) as [|a [|b [|c l]]]; reflexivity. }
  rewrite Hmin, urlsLoop_Ok. cbn [bind app]. f_equal. f_equal.
  rewrite map_map. apply map_ext_in. intros m Hm.
  rewrite trim_id; [reflexivity|].
  apply firstn_In, in_rev in Hm.
  apply (forallb_weaken _ _ _
           (fun x Hx => eq_trans (f_equal negb (isUrlChar_not_space x Hx)) eq_refl)
           (urlMatches_alphabet _ _ Hm)).
Qed.

(** ** The ntfy_me tool *)

Section NtfyMeFacts.

Import Tool.

Variable md_parse : jsstring -> result (list Token).
Variable URL_hostname : jsstring -> result jsstring.
Variable n : nat.
Variable fetch : Request -> attempt Response.
Variable env : Env.

Let run := NtfyMe.ntfy_me md_parse URL_hostname n fetch env.

(** The handler in one piece: when the markdown flag cannot be computed it
    answers with the failure and does nothing else; otherwise it writes one
    line, sends one request and answers from what [fetch] settles to. *)
Lemma ntfy_me_run (a : NotifyArgs) (w : World) :
  match notifyMarkdown md_parse a with
  | Rejected message => run a w = (Fulfilled (failure message), w)
  | Fulfilled b =>
      let req := notifyRequest URL_hostname env a b in
      run a w =
        (Fulfilled (notifyAnswer URL_hostname env a (fetch req)),
         mkWorld (console w ++ [notifyLine URL_hostname env a b]) (errors w)
                 (requests w ++ [req]))
  end.
Proof.
  unfold run, NtfyMe.ntfy_me, NtfyMe.ntfy_me_try, tryIO, bindIO, ret, throw, liftAttempt,
    console_log, NtfyMe.fetch_, notifyMarkdown, notifyRequest, notifyHeaders, notifyLine,
    notifyActions.
  rewrite ?processActions_Ok. cbv zeta.
  destruct (actions a) as [l|]; destruct (markdown a) as [b|]; cbn [ofResult];
    try (destruct (detectMarkdown md_parse (taskSummary a)) as [b|e]; cbn [ofResult];
         [|reflexivity]);
    cbn [console errors requests];
    (destruct (fetch _) as [resp|msg]; cbn [notifyAnswer]; [|reflexivity]);
    (destruct (ok resp); cbn [negb]; [reflexivity|]);
    (destruct ((status resp =? 401) || (status resp =? 403));
     [fold (notifyUrl env a); destruct (URL_hostname (notifyUrl env a)); reflexivity
     |destruct (text resp); reflexivity]).
Qed.

Lemma getHeader_setHeader_same (h : Headers) (k v : jsstring) :
  getHeader (setHeader h k v) k = Some v.
Proof.
  induction h as [|[k' v'] h IH]; cbn [setHeader getHeader].
  - assert (E : string_eqb k k = true) by (apply string_eqb_eq; reflexivity).
    rewrite E. reflexivity.
  - destruct (string_eqb k' k) eqn:E; cbn [getHeader]; rewrite E; [reflexivity|exact IH].
Qed.

Lemma getHeader_setHeader_other (h : Headers) (k k' v : jsstring) :
  string_eqb k k' = false ->
  getHeader (setHeader h k v) k' = getHeader h k'.
Proof.
  intros Hne. induction h as [|[k0 v0] h IH]; cbn [setHeader getHeader].
  - rewrite Hne. reflexivity.
  - destruct (string_eqb k0 k) eqn:E; cbn [getHeader].
    + apply string_eqb_eq in E. subst k0. rewrite Hne. reflexivity.
    + rewrite IH. reflexivity.
Qed.

Ltac header_lookup :=
  repeat (rewrite getHeader_setHeader_same ||
          rewrite getHeader_setHeader_other by reflexivity);
  try reflexivity.

(** X10: the handler never throws and always answers with one text.  It
    answers without [isError] only when it sent the request and the server
    accepted it, and then names the endpoint; in every case it sends at most
    one request. *)
Theorem ntfy_me_outcome :
  forall (a : NotifyArgs) (w : World),
    exists r,
      fst (run a w) = Fulfilled r /\
      length (content r) = 1 /\
      (requests (snd (run a w)) = requests w \/
       exists req, requests (snd (run a w)) = requests w ++ [req]) /\
      (isError r = true \/
       exists req resp,
         requests (snd (run a w)) = requests w ++ [req] /\
         fetch req = Fulfilled resp /\ ok resp = true /\
         content r = [str "Notification sent successfully to " ++ req_url req ++ str "!"]).
Proof.
  intros a w. pose proof (ntfy_me_run a w) as H.
  destruct (notifyMarkdown md_parse a) as [b|message].
  - cbv zeta in H. rewrite H. cbn [fst snd requests].
    set (req := notifyRequest URL_hostname env a b).
    eexists. split; [reflexivity|].
    split; [|split; [right; exists req; reflexivity|]].
    + unfold notifyAnswer.
      destruct (fetch req) as [resp|msg]; [|reflexivity].
      destruct (ok resp); [reflexivity|].
      destruct ((status resp =? 401) || (status resp =? 403));
        [destruct (URL_hostname _)|destruct (text resp)]; reflexivity.
    + unfold notifyAnswer.
      destruct (fetch req) as [resp|msg] eqn:Ef; [|left; reflexivity].
      destruct (ok resp) eqn:Eok.
      * right. exists req, resp.
        split; [reflexivity|]. split; [exact Ef|]. split; [exact Eok|reflexivity].
      * left. destruct ((status resp =? 401) || (status resp =? 403));
          [destruct (URL_hostname _)|destruct (text resp)]; reflexivity.
  - rewrite H. cbn [fst snd]. eexists. split; [reflexivity|].
    split; [reflexivity|]. split; left; reflexivity.
Qed.

(** X11: a given [markdown] flag decides the X-Markdown header by itself: the
    header is sent exactly when the flag is true, and detectMarkdown is not
    asked.  Without the flag the header is sent exactly when detectMarkdown
    returns true; if detectMarkdown throws, nothing is sent and the answer
    carries the message of the error. *)
Theorem ntfy_me_markdown_header :
  forall (a : NotifyArgs) (w : World),
    let sentWith (b : bool) :=
      exists req,
        requests (snd (run a w)) = requests w ++ [req] /\
        getHeader (req_headers req) (str "X-Markdown") =
          (if b then Some (str "true") else None) in
    match markdown a with
    | Some b => sentWith b
    | None =>
        match detectMarkdown md_parse (taskSummary a) with
        | Ok b => sentWith b
        | Throw e => run a w = (Fulfilled (failure (exn_message e)), w)
        end
    end.
Proof.
  intros a w sentWith. subst sentWith. cbv beta.
  pose proof (ntfy_me_run a w) as H. unfold notifyMarkdown in H.
  assert (Hsent : forall b,
            run a w =
              (Fulfilled (notifyAnswer URL_hostname env a
                            (fetch (notifyRequest URL_hostname env a b))),
               mkWorld (console w ++ [notifyLine URL_hostname env a b]) (errors w)
                       (requests w ++ [notifyRequest URL_hostname env a b])) ->
            exists req,
              requests (snd (run a w)) = requests w ++ [req] /\
              getHeader (req_headers req) (str "X-Markdown") =
                (if b then Some (str "true") else None)).
  { intros b ->. eexists. split; [reflexivity|].
    cbn [req_headers notifyRequest]. unfold notifyHeaders.
    destruct (truthy (notifyToken env a)), (priority a), b, (tags a) as [[|t ts]|],
      (0 <? length (notifyActions URL_hostname a)); header_lookup. }
  destruct (markdown a) as [b|].
  - apply Hsent. exact H.
  - destruct (detectMarkdown md_parse (taskSummary a)) as [b|e]; cbn [ofResult] in H.
    + apply Hsent. exact H.
    + exact H.
Qed.

(** X12: given [actions] are used as they are, and the text is not searched:
    the X-Actions header carries their JSON text, and is absent for an empty
    array.  Without [actions] the header is absent exactly when URL_PATTERN
    has no match in the summary, and otherwise carries the JSON text of what
    processActions returns. *)
Theorem ntfy_me_actions_header :
  forall (a : NotifyArgs) (w : World),
    match notifyMarkdown md_parse a with
    | Rejected _ => requests (snd (run a w)) = requests w
    | Fulfilled _ =>
        exists req,
          requests (snd (run a w)) = requests w ++ [req] /\
          getHeader (req_headers req) (str "X-Actions") =
            match actions a with
            | Some [] => None
            | Some l => Some (JSON_stringify l)
            | None =>
                match processActions URL_hostname n (taskSummary a) with
                | Ok [] => None
                | Ok l => Some (JSON_stringify l)
                | Throw _ => None
                end
            end
    end.
Proof.
  intros a w. pose proof (ntfy_me_run a w) as H.
  destruct (notifyMarkdown md_parse a) as [b|message]; [|rewrite H; reflexivity].
  cbv zeta in H. rewrite H. eexists. split; [reflexivity|].
  cbn [req_headers notifyRequest]. unfold notifyHeaders, notifyActions.
  rewrite processActions_Ok.
  destruct (actions a) as [[|x l]|];
    [| |destruct (map _ (firstn 3 (urlMatches (taskSummary a)))) as [|x l]];
    cbn [length Nat.ltb Nat.leb];
    destruct (truthy (notifyToken env a)), (priority a), b, (tags a) as [[|t ts]|];
    header_lookup.
Qed.

(** X13: a final slash on the server URL makes no difference to what is sent:
    the request and the console line are the same with and without it. *)
Theorem ntfy_me_trailing_slash :
  forall (a : NotifyArgs) (w : World) (u : jsstring),
    u <> [] -> endsWith u (str "/") = false ->
    snd (run (withNtfyUrl a (u ++ str "/")) w) = snd (run (withNtfyUrl a u) w).
Proof.
  intros a w u Hu Hslash.
  pose proof (ntfy_me_run (withNtfyUrl a (u ++ str "/")) w) as H1.
  pose proof (ntfy_me_run (withNtfyUrl a u) w) as H2.
  change (notifyMarkdown md_parse (withNtfyUrl a (u ++ str "/")))
    with (notifyMarkdown md_parse (withNtfyUrl a u)) in H1.
  assert (Hend : notifyEndpoint env (withNtfyUrl a (u ++ str "/")) =
                 notifyEndpoint env (withNtfyUrl a u)).
  { unfold notifyEndpoint, notifyBase, notifyUrl. cbn [ntfyUrl withNtfyUrl].
    destruct u as [|c u']; [contradiction|].
    cbn [orElse app]. change (c :: u' ++ str "/") with ((c :: u') ++ [chr "/"]).
    change (str "/") with [chr "/"] at 1.
    rewrite endsWith_snoc, slice_0_m1_snoc, Hslash. reflexivity. }
  destruct (notifyMarkdown md_parse (withNtfyUrl a u)) as [b|message].
  - cbv zeta in H1, H2. rewrite H1, H2. cbn [snd].
    unfold notifyRequest, notifyLine. rewrite Hend. reflexivity.
  - rewrite H1, H2. reflexivity.
Qed.








(** X15: what the request is made of: a POST to the endpoint with the summary
    as its body and the title in the Title header; an Authorization header
    with the bearer token exactly when the token (the argument, or else the
    configured one) is not empty; the Priority header exactly when a
    priority is given; the Tags header, joined with commas, exactly when the
    array of tags is not empty.  No header written later replaces an earlier
    one. *)
Theorem ntfy_me_request :
  forall (a : NotifyArgs) (w : World),
    match notifyMarkdown md_parse a with
    | Rejected _ => requests (snd (run a w)) = requests w
    | Fulfilled _ =>
        exists req,
          requests (snd (run a w)) = requests w ++ [req] /\
          req_url req = notifyEndpoint env a /\
          req_method req = Some "POST"%string /\
          req_body req = Some (taskSummary a) /\
          getHeader (req_headers req) (str "Title") = Some (taskTitle a) /\
          getHeader (req_headers req) (str "Authorization") =
            (match orElse (accessToken a) (NTFY_TOKEN env) with
             | [] => None
             | token => Some (str "Bearer " ++ token)
             end) /\
          getHeader (req_headers req) (str "Priority") =
            option_map Priority_string (priority a) /\
          getHeader (req_headers req) (str "Tags") =
            (match tags a with
             | Some (t :: ts) => Some (Array_join (str ",") (t :: ts))
             | _ => None
             end)
    end.
Proof.
  intros a w. pose proof (ntfy_me_run a w) as H.
  destruct (notifyMarkdown md_parse a) as [b|message]; [|rewrite H; reflexivity].
  cbv zeta in H. rewrite H. eexists. split; [reflexivity|].
  cbn [req_url req_method req_body req_headers notifyRequest].
  unfold notifyHeaders, notifyToken, truthy.
  destruct (orElse (accessToken a) (NTFY_TOKEN env)) as [|c tk]; cbn [isEmptyString negb];
    destruct (priority a), b, (tags a) as [[|t ts]|],
      (0 <? length (notifyActions URL_hostname a));
    cbn [option_map]; repeat split; header_lookup.
Qed.

End NtfyMeFacts.

(** ** Start-up *)

(** X16: the server is created only when NTFY_TOPIC is set and not empty; the
    settings it runs with then have that topic, a server URL that is not
    empty, and, when the topic is declared protected, a token that is not
    empty.  In every other case the process exits with code 1 after one
    call of [console.error]. *)
Theorem initializeServer_settings :
  forall (getenv : string -> option jsstring) (prompts : Startup.Prompted),
    match Startup.initializeServer getenv prompts with
    | (Startup.Serve env, _, errs) =>
        getenv "NTFY_TOPIC"%string = Some (Tool.NTFY_TOPIC env) /\
        Tool.NTFY_TOPIC env <> [] /\
        Tool.NTFY_URL env <> [] /\
        (Startup.PROTECTED_TOPIC getenv = false \/ Tool.NTFY_TOKEN env <> []) /\
        errs = []
    | (Startup.Exit code, _, errs) => code = 1 /\ length errs = 1
    end.
Proof.
  intros getenv prompts. unfold Startup.initializeServer, Startup.NTFY_TOPIC.
  assert (Hurl : Startup.NTFY_URL getenv <> []).
  { unfold Startup.NTFY_URL, Tool.orElse.
    destruct (getenv "NTFY_URL"%string) as [[|c u]|]; discriminate. }
  destruct (getenv "NTFY_TOPIC"%string) as [[|c t]|]; try (split; reflexivity).
  destruct (Startup.PROTECTED_TOPIC getenv) eqn:Ep; cbn [andb negb].
  - destruct (Tool.truthy (Startup.NTFY_TOKEN getenv)) eqn:Et; cbn [negb].
    + cbn [Tool.NTFY_TOPIC Tool.NTFY_URL Tool.NTFY_TOKEN]. repeat split; try discriminate;
        try exact Hurl.
      right. intros E. rewrite E in Et. discriminate Et.
    + destruct prompts as [token| |message]; try (split; reflexivity).
      destruct (Tool.truthy (Tool.orElse token [])) eqn:Ek; cbn [negb];
        [|split; reflexivity].
      cbn [Tool.NTFY_TOPIC Tool.NTFY_URL Tool.NTFY_TOKEN]. repeat split; try discriminate;
        try exact Hurl.
      right. intros E. rewrite E in Ek. discriminate Ek.
  - cbn [Tool.NTFY_TOPIC Tool.NTFY_URL Tool.NTFY_TOKEN]. repeat split; try discriminate;
      try exact Hurl.
    left. reflexivity.
Qed.

(** ** Fetching messages *)

Lemma split_LF_app (a b : jsstring) :
  forall cur,
    Messages.split_LF cur (a ++ 10%N :: b) =
    Messages.split_LF cur a ++ Messages.split_LF [] b.
Proof.
  induction a as [|c a IH]; intros cur; cbn [app Messages.split_LF].
  - reflexivity.
  - destruct (N.eqb c 10); [rewrite IH; reflexivity|apply IH].
Qed.

Lemma split_LF_no_LF (s : jsstring) :
  forall cur, ~ In 10%N s -> Messages.split_LF cur s = [rev cur ++ s].
Proof.
  induction s as [|c s IH]; intros cur Hno; cbn [Messages.split_LF].
  - rewrite app_nil_r. reflexivity.
  - destruct (N.eqb_spec c 10) as [->|Hc]; [exfalso; apply Hno; left; reflexivity|].
    rewrite IH by (intros H; apply Hno; right; exact H).
    cbn [rev]. rewrite <- app_assoc. reflexivity.
Qed.

Lemma trimStart_blank (s : jsstring) :
  forallb isWhiteSpace s = true -> trimStart s = [].
Proof.
  induction s as [|c s IH]; [reflexivity|]. cbn [forallb trimStart].
  rewrite andb_true_iff. intros [-> Hs]. apply IH, Hs.
Qed.

Lemma split_LF_blank (s : jsstring) :
  forall cur,
    forallb isWhiteSpace cur = true ->
    forallb isWhiteSpace s = true ->
    Forall (fun line => forallb isWhiteSpace line = true) (Messages.split_LF cur s).
Proof.
  induction s as [|c s IH]; intros cur Hc Hs; cbn [Messages.split_LF].
  - constructor; [apply forallb_rev, Hc|constructor].
  - cbn [forallb] in Hs. apply andb_true_iff in Hs. destruct Hs as [Hc' Hs].
    destruct (N.eqb c 10).
    + constructor; [apply forallb_rev, Hc|apply IH; [reflexivity|exact Hs]].
    + apply IH; [cbn [forallb]; rewrite Hc', Hc; reflexivity|exact Hs].
Qed.

(** White space gives no line to parse. *)
Lemma messageLines_blank (s : jsstring) :
  forallb isWhiteSpace s = true -> Messages.messageLines s = [].
Proof.
  intros Hs. unfold Messages.messageLines.
  pose proof (split_LF_blank s [] eq_refl Hs) as Hall.
  induction Hall as [|line l Hline _ IH]; [reflexivity|].
  cbn [filter]. unfold trim. rewrite (trimStart_blank _ Hline).
  cbn [trimEnd rev trimStart length Nat.ltb Nat.leb]. exact IH.
Qed.

Lemma forallb_filter_same (A : Type) (p : A -> bool) (l : list A) :
  forallb p (filter p l) = true.
Proof.
  induction l as [|x l IH]; [reflexivity|]. cbn [filter].
  destruct (p x) eqn:E; [cbn [forallb]; rewrite E; exact IH|exact IH].
Qed.

(** X17: the lines of a response body are taken one by one: the lines kept of
    two pieces joined by a line feed are those of the first followed by
    those of the second, and white space between two line feeds, or at the
    end of the body, gives none.  So a final line feed and blank lines in
    between add nothing.  (The white space of any string stands for any
    string of white space.) *)
Theorem messageLines_compose :
  forall a b blank : jsstring,
    let space := filter isWhiteSpace blank in
    Messages.messageLines (a ++ [10%N] ++ b) =
      Messages.messageLines a ++ Messages.messageLines b /\
    Messages.messageLines (a ++ [10%N] ++ space ++ [10%N] ++ b) =
      Messages.messageLines a ++ Messages.messageLines b /\
    Messages.messageLines (a ++ [10%N] ++ space) = Messages.messageLines a.
Proof.
  intros a b blank space.
  assert (Hcomp : forall x y, Messages.messageLines (x ++ [10%N] ++ y) =
                    Messages.messageLines x ++ Messages.messageLines y).
  { intros x y. unfold Messages.messageLines. cbn [app].
    rewrite split_LF_app, filter_app. reflexivity. }
  assert (Hspace : Messages.messageLines space = [])
    by apply messageLines_blank, forallb_filter_same.
  split; [apply Hcomp|]. split.
  - rewrite !Hcomp, Hspace. reflexivity.
  - rewrite Hcomp, Hspace. apply app_nil_r.
Qed.

Section MessagesFacts.

Import Tool.

Variable Value : Type.
Variable JSON_parse : jsstring -> attempt (option Value).
Variable topicKey : Value -> attempt jsstring.
Variable inherited : jsstring -> bool.
Variable notAFunction : jsstring.

Let parseLines := Messages.parseLines JSON_parse.
Let groupLoop := Messages.groupLoop topicKey inherited notAFunction.

(** The messages with topic key [k], in their order. *)
Let groupOf := withTopic topicKey.
Let fits := canFile topicKey inherited.

Lemma parseLines_run (lines : list jsstring) :
  forall w,
    parseLines lines w =
    (Fulfilled (map (parsedOf JSON_parse) lines),
     mkWorld (console w) (errors w ++ parseErrors JSON_parse lines) (requests w)).
Proof.
  induction lines as [|line lines IH]; intros w.
  - cbn. rewrite app_nil_r. destruct w; reflexivity.
  - unfold parseLines in *. cbn [Messages.parseLines].
    unfold bindIO, tryIO, liftAttempt, console_error, ret, parsedOf in *.
    cbn [parseErrors flat_map map].
    destruct (JSON_parse line) as [v|message]; rewrite IH; cbn [console errors requests].
    + reflexivity.
    + rewrite <- app_assoc. reflexivity.
Qed.

Lemma string_eqb_refl (s : jsstring) : string_eqb s s = true.
Proof. apply string_eqb_eq. reflexivity. Qed.

Lemma string_eqb_sym (s t : jsstring) : string_eqb s t = string_eqb t s.
Proof.
  destruct (string_eqb s t) eqn:E1, (string_eqb t s) eqn:E2; try reflexivity.
  - apply string_eqb_eq in E1. subst. rewrite string_eqb_refl in E2. discriminate.
  - apply string_eqb_eq in E2. subst. rewrite string_eqb_refl in E1. discriminate.
Qed.

Lemma lookup_push_same (r : Messages.Records Value) (k : jsstring) (data : Value) (g : list Value) :
  Messages.lookup r k = Some g ->
  Messages.lookup (Messages.push r k data) k = Some (g ++ [data]).
Proof.
  induction r as [|[k' v] r IH]; cbn [Messages.lookup Messages.push]; [discriminate|].
  destruct (string_eqb k' k) eqn:E; cbn [Messages.lookup]; rewrite E.
  - intros [= ->]. reflexivity.
  - exact IH.
Qed.

Lemma lookup_push_other (r : Messages.Records Value) (k k' : jsstring) (data : Value) :
  string_eqb k k' = false ->
  Messages.lookup (Messages.push r k data) k' = Messages.lookup r k'.
Proof.
  intros Hne. induction r as [|[k0 v] r IH]; cbn [Messages.lookup Messages.push];
    [reflexivity|].
  destruct (string_eqb k0 k) eqn:E; cbn [Messages.lookup].
  - apply string_eqb_eq in E. subst k0. rewrite Hne. reflexivity.
  - rewrite IH. reflexivity.
Qed.

Lemma push_keys (r : Messages.Records Value) (k : jsstring) (data : Value) :
  map fst (Messages.push r k data) = map fst r.
Proof.
  induction r as [|[k' v] r IH]; [reflexivity|]. cbn [Messages.push].
  destruct (string_eqb k' k); cbn [map fst]; [reflexivity|rewrite IH; reflexivity].
Qed.

Lemma lookup_app (r r' : Messages.Records Value) (k : jsstring) :
  Messages.lookup (r ++ r') k =
  match Messages.lookup r k with
  | Some g => Some g
  | None => Messages.lookup r' k
  end.
Proof.
  induction r as [|[k' v] r IH]; [reflexivity|]. cbn [app Messages.lookup].
  destruct (string_eqb k' k); [reflexivity|exact IH].
Qed.

Lemma lookup_None_keys (r : Messages.Records Value) (k : jsstring) :
  Messages.lookup r k = None <-> ~ In k (map fst r).
Proof.
  induction r as [|[k' v] r IH]; cbn [Messages.lookup map fst In]; [tauto|].
  destruct (string_eqb k' k) eqn:E.
  - apply string_eqb_eq in E. split; [discriminate|]. intros H. exfalso. apply H. left. exact E.
  - rewrite IH. split; [|tauto]. intros H [H'|H']; [|tauto].
    subst. rewrite string_eqb_refl in E. discriminate.
Qed.

Lemma NoDup_snoc (A : Type) (l : list A) (x : A) :
  NoDup l -> ~ In x l -> NoDup (l ++ [x]).
Proof.
  induction l as [|y l IH]; intros Hnd Hx; cbn [app].
  - constructor; [intros []|constructor].
  - inversion Hnd as [|? ? Hy Hl]; subst. constructor.
    + rewrite in_app_iff. intros [H|[H|[]]]; [exact (Hy H)|].
      apply Hx. left. symmetry. exact H.
    + apply IH; [exact Hl|]. intros H. apply Hx. right. exact H.
Qed.

(** The loop, from any records built so far. *)
Lemma groupLoop_from (msgs : list Value) :
  forall acc,
    forallb fits msgs = true ->
    NoDup (map fst acc) ->
    exists records,
      groupLoop msgs acc = Fulfilled records /\
      NoDup (map fst records) /\
      (forall k,
         Messages.lookup records k =
         match Messages.lookup acc k with
         | Some g => Some (g ++ groupOf k msgs)
         | None =>
             match groupOf k msgs with
             | [] => None
             | g => Some g
             end
         end).
Proof.
  induction msgs as [|data msgs IH]; intros acc Hfile Hnd.
  - exists acc. split; [reflexivity|]. split; [exact Hnd|].
    intros k. cbn. destruct (Messages.lookup acc k); [rewrite app_nil_r|]; reflexivity.
  - unfold groupLoop in *. cbn [Messages.groupLoop].
    cbn [forallb] in Hfile. apply andb_true_iff in Hfile. destruct Hfile as [Hdata Hfile].
    unfold fits, canFile in Hdata. unfold groupOf, withTopic, hasTopic. cbn [filter].
    destruct (topicKey data) as [topic|message]; [|discriminate].
    apply negb_true_iff in Hdata.
    destruct (Messages.lookup acc topic) as [g|] eqn:El.
    + destruct (IH (Messages.push acc topic data) Hfile) as (records & E & Hnd' & Hl).
      { rewrite push_keys. exact Hnd. }
      exists records. split; [exact E|]. split; [exact Hnd'|].
      intros k. rewrite Hl. unfold groupOf, withTopic, hasTopic.
      destruct (string_eqb topic k) eqn:Ek.
      * apply string_eqb_eq in Ek. subst k.
        rewrite (@lookup_push_same _ _ data _ El), El, <- app_assoc. reflexivity.
      * rewrite (@lookup_push_other acc _ _ data Ek). reflexivity.
    + rewrite Hdata.
      destruct (IH (acc ++ [(topic, [data])]) Hfile) as (records & E & Hnd' & Hl).
      { rewrite map_app. cbn [map fst]. apply NoDup_snoc.
        - exact Hnd.
        - apply lookup_None_keys, El. }
      exists records. split; [exact E|]. split; [exact Hnd'|].
      intros k. rewrite Hl, lookup_app. unfold groupOf, withTopic, hasTopic.
      cbn [Messages.lookup].
      destruct (string_eqb topic k) eqn:Ek.
      * apply string_eqb_eq in Ek. subst k. rewrite El. reflexivity.
      * destruct (Messages.lookup acc k); reflexivity.
Qed.

Lemma lookup_existsb (r : Messages.Records Value) (k : jsstring) :
  existsb (fun k' => string_eqb k' k) (map fst r) =
  match Messages.lookup r k with
  | Some _ => true
  | None => false
  end.
Proof.
  induction r as [|[k' v] r IH]; cbn [map fst existsb Messages.lookup]; [reflexivity|].
  destruct (string_eqb k' k); [reflexivity|exact IH].
Qed.

(** The keys of the records the loop ends with. *)
Lemma groupLoop_keys (msgs : list Value) :
  forall acc records,
    groupLoop msgs acc = Fulfilled records ->
    map fst records =
    map fst acc ++ firstOccurrences (map fst acc) (topicKeys topicKey msgs).
Proof.
  induction msgs as [|data msgs IH]; intros acc records; unfold groupLoop in *;
    cbn [Messages.groupLoop topicKeys flat_map firstOccurrences].
  - intros [= <-]. rewrite app_nil_r. reflexivity.
  - destruct (topicKey data) as [topic|message]; [|discriminate].
    cbn [app firstOccurrences]. rewrite lookup_existsb.
    destruct (Messages.lookup acc topic) as [g|] eqn:El.
    + intros E. apply IH in E. rewrite push_keys in E. exact E.
    + destruct (inherited topic); [discriminate|].
      intros E. apply IH in E. rewrite map_app in E. cbn [map fst] in E.
      rewrite <- app_assoc in E. exact E.
Qed.

(** The sum of the lengths of the groups. *)
Let total (r : Messages.Records Value) : nat :=
  list_sum (map (fun e => length (snd e)) r).

Lemma total_push (r : Messages.Records Value) (k : jsstring) (data : Value) (g : list Value) :
  Messages.lookup r k = Some g -> total (Messages.push r k data) = S (total r).
Proof.
  unfold total, list_sum.
  induction r as [|[k' v] r IH]; cbn [Messages.lookup Messages.push]; [discriminate|].
  destruct (string_eqb k' k); cbn [map fold_right snd].
  - intros _. rewrite length_app. cbn [length]. lia.
  - intros H. rewrite (IH H). lia.
Qed.

Lemma groupLoop_total (msgs : list Value) :
  forall acc records,
    groupLoop msgs acc = Fulfilled records ->
    total records = total acc + length msgs.
Proof.
  induction msgs as [|data msgs IH]; intros acc records; unfold groupLoop in *;
    cbn [Messages.groupLoop length].
  - intros [= <-]. lia.
  - destruct (topicKey data) as [topic|message]; [|discriminate].
    destruct (Messages.lookup acc topic) as [g|] eqn:El.
    + intros E. apply IH in E. rewrite (@total_push _ _ data _ El) in E. lia.
    + destruct (inherited topic); [discriminate|].
      intros E. apply IH in E. unfold total in *. rewrite map_app, list_sum_app in E.
      unfold list_sum in *. cbn [map fold_right snd length] in E. lia.
Qed.

Lemma string_eqb_neq (s t : jsstring) : s <> t -> string_eqb s t = false.
Proof.
  intros Hne. destruct (string_eqb s t) eqn:E; [|reflexivity].
  apply string_eqb_eq in E. contradiction.
Qed.

(** Records without a repeated key are given by their keys and what is
    found under them. *)
Lemma records_by_lookup (g : jsstring -> list Value) (r : Messages.Records Value) :
  NoDup (map fst r) ->
  (forall k, In k (map fst r) -> Messages.lookup r k = Some (g k)) ->
  r = map (fun k => (k, g k)) (map fst r).
Proof.
  induction r as [|[k v] r IH]; intros Hnd Hl; [reflexivity|].
  cbn [map fst] in *. inversion Hnd as [|? ? Hk Hr]; subst.
  f_equal.
  - specialize (Hl k (or_introl eq_refl)). cbn [Messages.lookup] in Hl.
    rewrite string_eqb_refl in Hl. injection Hl as <-. reflexivity.
  - apply IH; [exact Hr|]. intros k' Hk'.
    specialize (Hl k' (or_intror Hk')). cbn [Messages.lookup] in Hl.
    rewrite string_eqb_neq in Hl; [exact Hl|].
    intros ->. exact (Hk Hk').
Qed.

(** Every message can be filed exactly when none throws. *)
Lemma firstThrow_None (msgs : list Value) :
  firstThrow topicKey inherited notAFunction msgs = None <->
  forallb (canFile topicKey inherited) msgs = true.
Proof.
  induction msgs as [|m msgs IH]; cbn [firstThrow forallb]; [tauto|].
  unfold canFile at 1. destruct (topicKey m) as [k|message].
  - destruct (inherited k); cbn [negb andb]; [split; discriminate|exact IH].
  - cbn [andb]. split; discriminate.
Qed.

(** The messages before the first one that cannot be filed do not count. *)
Lemma firstThrow_app (before rest : list Value) :
  forallb (canFile topicKey inherited) before = true ->
  firstThrow topicKey inherited notAFunction (before ++ rest) =
  firstThrow topicKey inherited notAFunction rest.
Proof.
  induction before as [|m before IH]; cbn [app forallb firstThrow]; [reflexivity|].
  unfold canFile at 1. destruct (topicKey m) as [k|message]; [|discriminate].
  destruct (inherited k); cbn [negb andb]; [discriminate|exact IH].
Qed.

(** The loop throws the error of the first message that cannot be
    filed. *)
Lemma groupLoop_throws (msgs : list Value) :
  forall acc message,
    (forall k, In k (map fst acc) -> inherited k = false) ->
    firstThrow topicKey inherited notAFunction msgs = Some message ->
    groupLoop msgs acc = Rejected message.
Proof.
  induction msgs as [|data msgs IH]; intros acc message Hacc Hex; unfold groupLoop in *;
    cbn [Messages.groupLoop firstThrow] in *; [discriminate|].
  destruct (topicKey data) as [topic|e]; [|congruence].
  destruct (Messages.lookup acc topic) as [g|] eqn:El.
  - assert (Hin : In topic (map fst acc)).
    { destruct (in_dec (list_eq_dec N.eq_dec) topic (map fst acc)) as [H|H];
        [exact H|]. apply lookup_None_keys in H. rewrite H in El. discriminate. }
    rewrite (Hacc _ Hin) in Hex.
    apply IH; [rewrite push_keys; exact Hacc|exact Hex].
  - destruct (inherited topic) eqn:Ei; [congruence|].
    apply IH; [|exact Hex].
    intros k. rewrite map_app, in_app_iff. cbn [map fst In].
    intros [H|[<-|[]]]; [apply Hacc, H|exact Ei].
Qed.

(** What the loop returns, from empty records. *)
Lemma groupLoop_closed_form :
  forall msgs : list Value,
    Messages.groupLoop topicKey inherited notAFunction msgs [] =
    match firstThrow topicKey inherited notAFunction msgs with
    | Some message => Rejected message
    | None => Fulfilled (grouped topicKey msgs)
    end.
Proof.
  intros msgs. destruct (firstThrow _ _ _ msgs) as [message|] eqn:Ex.
  - apply groupLoop_throws; [intros k []|exact Ex].
  - apply firstThrow_None in Ex.
    destruct (@groupLoop_from msgs [] Ex (NoDup_nil _)) as (records & E & Hnd & Hl).
    fold groupLoop. rewrite E. f_equal.
    pose proof (groupLoop_keys _ _ E) as Hk. cbn [map app] in Hk.
    unfold grouped, topicsOf. rewrite <- Hk.
    apply records_by_lookup; [exact Hnd|].
    intros k Hin. rewrite Hl. cbn [Messages.lookup].
    fold (groupOf k msgs).
    destruct (groupOf k msgs) eqn:Ew; [|reflexivity].
    exfalso. apply (proj1 (lookup_None_keys records k)); [|exact Hin].
    rewrite Hl. cbn [Messages.lookup]. rewrite Ew. reflexivity.
Qed.

(** X18: the grouping loop puts every message under the key its topic
    converts to: the records have one property for every topic key, in the
    order in which the keys first occur, each holding its messages in their
    order.  It throws instead exactly when some message cannot be filed,
    because its topic cannot be converted to a property key or its key is
    one that every object inherits, such as [constructor]; the error is
    that of the first such message: the TypeError of the conversion, or
    that of calling [push] on the inherited value. *)
Theorem groupLoop_groups :
  forall msgs : list Value,
    Messages.groupLoop topicKey inherited notAFunction msgs [] =
    match firstThrow topicKey inherited notAFunction msgs with
    | Some message => Rejected message
    | None => Fulfilled (grouped topicKey msgs)
    end.
Proof. exact groupLoop_closed_form. Qed.

End MessagesFacts.

Section FetchFacts.

Import Tool.

Variable Num : Type.
Variable Num_toString : Num -> jsstring.
Variable Value : Type.
Variable JSON_parse : jsstring -> attempt (option Value).
Variable topicKey : Value -> attempt jsstring.
Variable inherited : jsstring -> bool.
Variable notAFunction : jsstring.
Variable fetch : Request -> attempt Response.

Let fetchMessages :=
  Messages.fetchMessages Num_toString JSON_parse topicKey inherited notAFunction fetch.

Lemma fetchMessages_run (options : Messages.NtfyFetchOptions Num) (w : World) :
  let req := fetchRequest Num_toString options in
  let sent := mkWorld (console w ++ [fetchLine Num_toString options]) (errors w)
                      (requests w ++ [req]) in
  let thrown (es : list (list jsstring)) (message : jsstring) :=
    (@Rejected (option (Messages.Records Value)) message,
     mkWorld (console sent)
             (errors sent ++ es ++ [[str "Error fetching messages:"; message]])
             (requests sent)) in
  fetchMessages options w =
  match fetch req with
  | Rejected message => thrown [] message
  | Fulfilled response =>
      if ok response then
        match text response with
        | Rejected message => thrown [] message
        | Fulfilled rawResponse =>
            if truthy rawResponse then
              let es := parseErrors JSON_parse (Messages.messageLines rawResponse) in
              match Messages.groupLoop topicKey inherited notAFunction
                      (messagesOf JSON_parse rawResponse) [] with
              | Rejected message => thrown es message
              | Fulfilled records =>
                  (Fulfilled (Some records),
                   mkWorld (console sent) (errors sent ++ es) (requests sent))
              end
            else (Fulfilled None, sent)
        end
      else if (status response =? 401) || (status response =? 403) then
        thrown [] (str "Authentication failed when fetching messages from " ++
                   Messages.topic options ++ str ". " ++
                   str "This ntfy topic requires an access token.")
      else
        match text response with
        | Rejected message => thrown [] message
        | Fulfilled body =>
            thrown [] (str "Failed to fetch ntfy messages. Status code: " ++
                       Number_toString (status response) ++ str ", Message: " ++ body)
        end
  end.
Proof.
  unfold fetchMessages, Messages.fetchMessages, Messages.fetchMessages_try,
    fetchRequest, fetchLine, fetchFilterInfo, fetchHeaders, fetchEndpoint, fetchBase.
  cbv zeta.
  set (line := str "Fetching messages from " ++ _).
  set (req := mkRequest _ _ _ _).
  unfold tryIO, bindIO, console_log, Messages.fetch_, throw, ret, liftAttempt, console_error.
  cbn [console errors requests fst snd app].
  destruct (fetch req) as [response|message]; [|reflexivity].
  destruct (ok response); cbn [negb].
  - destruct (text response) as [rawResponse|message]; [|reflexivity].
    destruct (truthy rawResponse); cbn [negb]; [|reflexivity].
    rewrite parseLines_run. cbn [console errors requests fst snd].
    unfold messagesOf.
    destruct (Messages.groupLoop _ _ _ _ _); cbn [console errors requests];
      rewrite <- ?app_assoc; reflexivity.
  - destruct ((status response =? 401) || (status response =? 403)); [reflexivity|].
    destruct (text response); reflexivity.
Qed.

Lemma getHeader_cond_same (h : Headers) (k v : jsstring) (b : bool) :
  getHeader (if b then setHeader h k v else h) k = if b then Some v else getHeader h k.
Proof. destruct b; [apply getHeader_setHeader_same|reflexivity]. Qed.

Lemma getHeader_cond_other (h : Headers) (k k' v : jsstring) (b : bool) :
  string_eqb k k' = false ->
  getHeader (if b then setHeader h k v else h) k' = getHeader h k'.
Proof. intros H. destruct b; [apply getHeader_setHeader_other, H|reflexivity]. Qed.

Ltac filter_lookup :=
  repeat match goal with
         | |- context [getHeader (if ?b then setHeader ?h ?k ?v else _) ?k'] =>
             first [rewrite (@getHeader_cond_other h k k' v b) by reflexivity
                   |rewrite (@getHeader_cond_same h k v b)]
         | |- context [getHeader (setHeader ?h ?k ?v) ?k'] =>
             first [rewrite (@getHeader_setHeader_other h k k' v) by reflexivity
                   |rewrite (@getHeader_setHeader_same h k v)]
         end;
  cbn [getHeader];
  try match goal with
      | |- context [Messages.truthyOpt ?x] => destruct x as [[|? ?]|]
      end;
  reflexivity.

(** The request, with the header of every option. *)
Lemma fetchMessages_sends :
  forall (options : Messages.NtfyFetchOptions Num) (w : World),
    exists req,
      requests (snd (fetchMessages options w)) = requests w ++ [req] /\
      req_method req = None /\
      req_body req = None /\
      req_url req =
        fetchBase options ++ str "/" ++ Messages.topic options ++ str "/json?poll=1" ++
        match Messages.since options with
        | Some s => str "&since=" ++ Messages.Since_toString Num_toString s
        | None => []
        end /\
      let given (o : option jsstring) :=
        match o with
        | Some (c :: s) => Some (c :: s)
        | _ => None
        end in
      let listed (o : option Messages.StringOrArray) :=
        match o with
        | Some (Messages.OneString (c :: s)) => Some (c :: s)
        | Some (Messages.ManyStrings l) => Some (Array_join (str ",") l)
        | _ => None
        end in
      getHeader (req_headers req) (str "Authorization") =
        option_map (fun t => str "Bearer " ++ t) (given (Messages.token options)) /\
      getHeader (req_headers req) (str "X-ID") = given (Messages.messageId options) /\
      getHeader (req_headers req) (str "X-Message") = given (Messages.messageText options) /\
      getHeader (req_headers req) (str "X-Title") = given (Messages.messageTitle options) /\
      getHeader (req_headers req) (str "X-Priority") = listed (Messages.priorities options) /\
      getHeader (req_headers req) (str "X-Tags") = listed (Messages.tags options).
Proof.
  intros options w. exists (fetchRequest Num_toString options). split.
  - pose proof (fetchMessages_run options w) as H. cbv zeta in H. rewrite H.
    destruct (fetch _) as [response|message]; [|reflexivity].
    destruct (ok response).
    + destruct (text response) as [raw|message]; [|reflexivity].
      destruct (truthy raw); [|reflexivity].
      destruct (Messages.groupLoop _ _ _ _ _); reflexivity.
    + destruct ((status response =? 401) || (status response =? 403)); [reflexivity|].
      destruct (text response); reflexivity.
  - split; [reflexivity|]. split; [reflexivity|]. split.
    + cbn [req_url fetchRequest]. unfold fetchEndpoint. cbv zeta.
      destruct (Messages.since options); rewrite <- ?app_assoc, ?app_nil_r; reflexivity.
    + cbv zeta. cbn [req_headers fetchRequest]. unfold fetchHeaders. cbv zeta.
      destruct (Messages.priorities options) as [[[|c5 s5]|l5]|],
               (Messages.tags options) as [[[|c6 s6]|l6]|];
        cbn [Messages.truthyFilter Messages.filterValue truthy isEmptyString negb];
        repeat split; filter_lookup.
Qed.

(** X19: fetchMessages sends exactly one request, whatever comes of it: one
    without method or body, a GET, to [base/topic/json?poll=1], followed by [&since=] and the
    value when one is given.  The Authorization header carries the bearer
    token exactly when the token is not empty, and each filter has its
    header exactly when it is truthy: an empty string sets none, but an
    array sets one even when it is empty. *)
Theorem fetchMessages_request :
  forall (options : Messages.NtfyFetchOptions Num) (w : World),
    exists req,
      requests (snd (fetchMessages options w)) = requests w ++ [req] /\
      req_method req = None /\
      req_body req = None /\
      req_url req =
        fetchBase options ++ str "/" ++ Messages.topic options ++ str "/json?poll=1" ++
        match Messages.since options with
        | Some s => str "&since=" ++ Messages.Since_toString Num_toString s
        | None => []
        end /\
      let given (o : option jsstring) :=
        match o with
        | Some (c :: s) => Some (c :: s)
        | _ => None
        end in
      let listed (o : option Messages.StringOrArray) :=
        match o with
        | Some (Messages.OneString (c :: s)) => Some (c :: s)
        | Some (Messages.ManyStrings l) => Some (Array_join (str ",") l)
        | _ => None
        end in
      getHeader (req_headers req) (str "Authorization") =
        option_map (fun t => str "Bearer " ++ t) (given (Messages.token options)) /\
      getHeader (req_headers req) (str "X-ID") = given (Messages.messageId options) /\
      getHeader (req_headers req) (str "X-Message") = given (Messages.messageText options) /\
      getHeader (req_headers req) (str "X-Title") = given (Messages.messageTitle options) /\
      getHeader (req_headers req) (str "X-Priority") = listed (Messages.priorities options) /\
      getHeader (req_headers req) (str "X-Tags") = listed (Messages.tags options).
Proof. exact fetchMessages_sends. Qed.

(** X20: fetchMessages writes one line to the console, and reports every
    failure before it passes it on: when it throws, the last call of
    [console.error] carries the message it throws; when it returns, all it
    has reported are lines that did not parse. *)
Theorem fetchMessages_reports :
  forall (options : Messages.NtfyFetchOptions Num) (w : World),
    let after := snd (fetchMessages options w) in
    (exists line, console after = console w ++ [line]) /\
    match fst (fetchMessages options w) with
    | Rejected message =>
        exists es,
          errors after = errors w ++ es ++ [[str "Error fetching messages:"; message]]
    | Fulfilled _ =>
        exists lines,
          errors after = errors w ++ parseErrors JSON_parse lines
    end.
Proof.
  intros options w after. subst after.
  pose proof (fetchMessages_run options w) as H. cbv zeta in H. rewrite H. clear H.
  destruct (fetch _) as [response|message].
  2: { split; [eexists; reflexivity|]. exists []. reflexivity. }
  destruct (ok response).
  - destruct (text response) as [raw|message].
    2: { split; [eexists; reflexivity|]. exists []. reflexivity. }
    destruct (truthy raw).
    + destruct (Messages.groupLoop _ _ _ _ _).
      * split; [eexists; reflexivity|]. eexists. reflexivity.
      * split; [eexists; reflexivity|]. eexists. reflexivity.
    + split; [eexists; reflexivity|]. exists []. cbn. rewrite app_nil_r. reflexivity.
  - destruct ((status response =? 401) || (status response =? 403)).
    + split; [eexists; reflexivity|]. exists []. reflexivity.
    + destruct (text response); (split; [eexists; reflexivity|]); exists []; reflexivity.
Qed.

(** X21: a response with status 401 or 403 makes fetchMessages throw the
    authentication message that names the topic; the body of the response
    is not read. *)
Theorem fetchMessages_unauthorized :
  forall (options : Messages.NtfyFetchOptions Num) (w : World) (response : Response),
    fetch (fetchRequest Num_toString options) = Fulfilled response ->
    ok response = false ->
    status response = 401 \/ status response = 403 ->
    fst (fetchMessages options w) =
    Rejected (str "Authentication failed when fetching messages from " ++
              Messages.topic options ++
              str ". This ntfy topic requires an access token.").
Proof.
  intros options w response Hf Hok Hst.
  pose proof (fetchMessages_run options w) as H. cbv zeta in H. rewrite H, Hf, Hok.
  assert (E : (status response =? 401) || (status response =? 403) = true)
    by (destruct Hst as [-> | ->]; reflexivity).
  rewrite E. reflexivity.
Qed.

(** What comes of an accepted response with a body. *)
Lemma fetchMessages_accepted :
  forall (options : Messages.NtfyFetchOptions Num) (w : World) (response : Response)
         (rawResponse : jsstring),
    fetch (fetchRequest Num_toString options) = Fulfilled response ->
    ok response = true ->
    text response = Fulfilled rawResponse ->
    rawResponse <> [] ->
    let messageData := messagesOf JSON_parse rawResponse in
    fst (fetchMessages options w) =
      match firstThrow topicKey inherited notAFunction messageData with
      | Some message => Rejected message
      | None => Fulfilled (Some (grouped topicKey messageData))
      end /\
    exists es,
      errors (snd (fetchMessages options w)) =
      errors w ++ parseErrors JSON_parse (Messages.messageLines rawResponse) ++ es.
Proof.
  intros options w response raw Hf Hok Ht Hraw messageData. subst messageData.
  pose proof (fetchMessages_run options w) as H. cbv zeta in H. rewrite H, Hf, Hok, Ht.
  clear H. destruct raw as [|c raw]; [contradiction|]. cbn [truthy isEmptyString negb].
  rewrite groupLoop_closed_form.
  destruct (firstThrow _ _ _ _); cbn [fst snd errors].
  - split; [reflexivity|]. eexists. reflexivity.
  - split; [reflexivity|]. exists []. rewrite app_nil_r. reflexivity.
Qed.

(** X22: from an accepted response with a body that is not empty,
    fetchMessages returns the messages of the lines that parse to something
    other than [null], grouped by topic key: one property for every topic
    key, in the order in which the keys first occur, each with its messages
    in the order of their lines.  The lines that do not parse are reported
    and left out.  It throws instead exactly when some message cannot be
    filed, because its topic cannot be converted to a property key or its
    key is one that every object inherits, and then with the error of the
    first such message. *)
Theorem fetchMessages_groups :
  forall (options : Messages.NtfyFetchOptions Num) (w : World) (response : Response)
         (rawResponse : jsstring),
    fetch (fetchRequest Num_toString options) = Fulfilled response ->
    ok response = true ->
    text response = Fulfilled rawResponse ->
    rawResponse <> [] ->
    let messageData := messagesOf JSON_parse rawResponse in
    fst (fetchMessages options w) =
      match firstThrow topicKey inherited notAFunction messageData with
      | Some message => Rejected message
      | None => Fulfilled (Some (grouped topicKey messageData))
      end /\
    exists es,
      errors (snd (fetchMessages options w)) =
      errors w ++ parseErrors JSON_parse (Messages.messageLines rawResponse) ++ es.
Proof. exact fetchMessages_accepted. Qed.

End FetchFacts.

(** ** The handler of ntfy_me_fetch *)

Lemma fold_left_lengths (A : Type) (l : list (list A)) :
  forall acc,
    fold_left (fun sum messages => sum + length messages) l acc =
    acc + list_sum (map (@length A) l).
Proof.
  induction l as [|x l IH]; intros acc; cbn [fold_left map list_sum fold_right].
  - lia.
  - rewrite IH. unfold list_sum. lia.
Qed.

Section EntriesFacts.

Variable V : Type.
Variable f : jsstring * V -> nat.

Lemma insertByIndex_sum (e : jsstring * V) (l : list (jsstring * V)) :
  list_sum (map f (NtfyMeFetch.insertByIndex e l)) = f e + list_sum (map f l).
Proof.
  unfold list_sum.
  induction l as [|x l IH]; cbn [NtfyMeFetch.insertByIndex map fold_right]; [reflexivity|].
  destruct (N.leb _ _); cbn [map fold_right]; [reflexivity|]. rewrite IH. lia.
Qed.

Lemma Object_entries_sum (o : list (jsstring * V)) :
  list_sum (map f (NtfyMeFetch.Object_entries o)) = list_sum (map f o).
Proof.
  unfold NtfyMeFetch.Object_entries. rewrite map_app, list_sum_app.
  induction o as [|e o IH]; [reflexivity|]. cbn [filter].
  destruct (NtfyMeFetch.isArrayIndex (fst e)); cbn [negb fold_right map].
  - rewrite insertByIndex_sum. unfold list_sum in *. cbn [fold_right]. lia.
  - unfold list_sum in *. cbn [fold_right]. lia.
Qed.

Lemma Object_entries_plain (o : list (jsstring * V)) :
  existsb NtfyMeFetch.isArrayIndex (map fst o) = false ->
  NtfyMeFetch.Object_entries o = o.
Proof.
  intros H. unfold NtfyMeFetch.Object_entries.
  assert (H1 : filter (fun e => NtfyMeFetch.isArrayIndex (fst e)) o = []).
  { induction o as [|e o IH]; [reflexivity|]. cbn [map existsb filter] in *.
    apply orb_false_iff in H. destruct H as [He Ho]. rewrite He. apply IH, Ho. }
  assert (H2 : filter (fun e => negb (NtfyMeFetch.isArrayIndex (fst e))) o = o).
  { clear H1. induction o as [|e o IH]; [reflexivity|]. cbn [map existsb filter] in *.
    apply orb_false_iff in H. destruct H as [He Ho]. rewrite He. cbn [negb].
    rewrite (IH Ho). reflexivity. }
  rewrite H1, H2. reflexivity.
Qed.

Lemma insertByIndex_length (e : jsstring * V) (l : list (jsstring * V)) :
  length (NtfyMeFetch.insertByIndex e l) = S (length l).
Proof.
  induction l as [|x l IH]; cbn [NtfyMeFetch.insertByIndex length]; [reflexivity|].
  destruct (N.leb _ _); cbn [length]; [reflexivity|]. rewrite IH. reflexivity.
Qed.

Lemma Object_entries_length (o : list (jsstring * V)) :
  length (NtfyMeFetch.Object_entries o) = length o.
Proof.
  unfold NtfyMeFetch.Object_entries. rewrite length_app.
  induction o as [|e o IH]; [reflexivity|]. cbn [filter].
  destruct (NtfyMeFetch.isArrayIndex (fst e)); cbn [negb fold_right length].
  - rewrite insertByIndex_length. lia.
  - lia.
Qed.

End EntriesFacts.

(** Grouping loses and repeats no message. *)
Lemma grouped_total (Value : Type) (topicKey : Value -> Tool.attempt jsstring)
    (inherited : jsstring -> bool) (notAFunction : jsstring) (msgs : list Value) :
  firstThrow topicKey inherited notAFunction msgs = None ->
  list_sum (map (fun e => length (snd e)) (grouped topicKey msgs)) = length msgs.
Proof.
  intros Hnone.
  pose proof (groupLoop_closed_form topicKey inherited notAFunction msgs) as H.
  rewrite Hnone in H. apply groupLoop_total in H. exact H.
Qed.

Section NtfyMeFetchFacts.

Import Tool.

Variable Num : Type.
Variable Num_toString : Num -> jsstring.
Variable Num_truthy : Num -> bool.
Variable Value : Type.
Variable JSON_parse : jsstring -> attempt (option Value).
Variable topicKey : Value -> attempt jsstring.
Variable inherited : jsstring -> bool.
Variable notAFunction : jsstring.
Variable JSON_stringify_pretty : list Value -> jsstring.
Variable fetch : Request -> attempt Response.
Variable env : Env.

Let handler :=
  NtfyMeFetch.ntfy_me_fetch Num_toString Num_truthy JSON_parse topicKey inherited
    notAFunction JSON_stringify_pretty fetch env.

Let fetched (a : NtfyMeFetch.FetchArgs Num) (w : World) :=
  Messages.fetchMessages Num_toString JSON_parse topicKey inherited notAFunction fetch
    (fetchOptions Num_truthy env a) w.

(** The text for one topic. *)
Let block (e : jsstring * list Value) : jsstring :=
  str "Topic: " ++ fst e ++ [10%N] ++ str "Messages: " ++
  Number_toString (length (snd e)) ++ [10%N] ++ JSON_stringify_pretty (snd e).

Let summary (messages topics : nat) : jsstring :=
  str "Successfully fetched " ++ Number_toString messages ++ str " message(s) from " ++
  Number_toString topics ++ str " topic(s)".

Lemma ntfy_me_fetch_run (a : NtfyMeFetch.FetchArgs Num) (w : World) :
  handler a w =
  (Fulfilled
     match fst (fetched a w) with
     | Rejected message =>
         mkToolResult [str "Failed to fetch ntfy messages: " ++ message] true
     | Fulfilled None =>
         mkToolResult [str "No messages found in topic " ++ fetchTopic env a] false
     | Fulfilled (Some records) =>
         mkToolResult
           (summary (list_sum (map (fun e => length (snd e)) records)) (length records)
            :: map block (NtfyMeFetch.Object_entries records))
           false
     end,
   snd (fetched a w)).
Proof.
  unfold handler, fetched, NtfyMeFetch.ntfy_me_fetch, NtfyMeFetch.ntfy_me_fetch_try,
    fetchOptions, fetchTopic, tryIO, bindIO, ret.
  cbv zeta.
  destruct (Messages.fetchMessages _ _ _ _ _ _ _ w) as [[[records|]|message] w'];
    cbn [fst snd]; try reflexivity.
  unfold summary, block, NtfyMeFetch.Object_values, NtfyMeFetch.Object_keys.
  rewrite fold_left_lengths, !length_map, Object_entries_length. cbn [Nat.add].
  rewrite map_map, (Object_entries_sum (fun e => length (snd e))).
  reflexivity.
Qed.

(** X23: the handler of ntfy_me_fetch never throws, and adds nothing to what
    fetchMessages wrote and sent.  When fetchMessages throws, it answers with
    [isError] and the message after "Failed to fetch ntfy messages: "; when
    fetchMessages returns [null], with "No messages found in topic" and the
    topic; otherwise with one summary text followed by one text for every
    topic of the records, the summary giving the number of all messages in
    the records and the number of topics. *)
Theorem ntfy_me_fetch_outcome :
  forall (a : NtfyMeFetch.FetchArgs Num) (w : World),
    snd (handler a w) = snd (fetched a w) /\
    exists result,
      fst (handler a w) = Fulfilled result /\
      match fst (fetched a w) with
      | Rejected message =>
          result = mkToolResult [str "Failed to fetch ntfy messages: " ++ message] true
      | Fulfilled None =>
          result = mkToolResult [str "No messages found in topic " ++ fetchTopic env a] false
      | Fulfilled (Some records) =>
          isError result = false /\
          exists texts,
            content result =
              (str "Successfully fetched " ++
               Number_toString (list_sum (map (fun e => length (snd e)) records)) ++
               str " message(s) from " ++ Number_toString (length records) ++
               str " topic(s)") :: texts /\
            length texts = length records
      end.
Proof.
  intros a w. rewrite ntfy_me_fetch_run. split; [reflexivity|].
  eexists. split; [reflexivity|]. cbn [fst].
  destruct (fst (fetched a w)) as [[records|]|message]; try reflexivity.
  split; [reflexivity|]. eexists. split; [reflexivity|].
  rewrite length_map. apply Object_entries_length.
Qed.

(** X24: the request of ntfy_me_fetch: the server, the topic and the token are
    the arguments, or else the configured ones; one final slash of the
    server URL is dropped; and there is always a [since] parameter, "10m"
    when the argument is missing, the empty string or a falsy number. *)
Theorem ntfy_me_fetch_request :
  forall (a : NtfyMeFetch.FetchArgs Num) (w : World),
    exists req,
      requests (snd (handler a w)) = requests w ++ [req] /\
      req_url req =
        (let url := orElse (NtfyMeFetch.ntfyUrl a) (NTFY_URL env) in
         if endsWith url (str "/") then slice_0_m1 url else url) ++
        str "/" ++ orElse (NtfyMeFetch.ntfyTopic a) (NTFY_TOPIC env) ++
        str "/json?poll=1&since=" ++
        match NtfyMeFetch.since a with
        | Some (Messages.SinceString (c :: s)) => c :: s
        | Some (Messages.SinceNumber x) =>
            if Num_truthy x then Num_toString x else str "10m"
        | _ => str "10m"
        end /\
      getHeader (req_headers req) (str "Authorization") =
        match orElse (NtfyMeFetch.accessToken a) (NTFY_TOKEN env) with
        | [] => None
        | token => Some (str "Bearer " ++ token)
        end.
Proof.
  intros a w. rewrite ntfy_me_fetch_run. cbn [snd]. unfold fetched.
  destruct (fetchMessages_sends Num_toString JSON_parse topicKey inherited notAFunction
              fetch (fetchOptions Num_truthy env a) w)
    as (req & Hreq & _ & _ & Hurl & Hauth & _).
  exists req. split; [exact Hreq|]. split.
  - rewrite Hurl. unfold fetchBase, fetchOptions, fetchTopic.
    cbn [Messages.ntfyUrl Messages.topic Messages.since]. cbv zeta.
    f_equal. f_equal. f_equal.
    change (str "/json?poll=1&since=") with (str "/json?poll=1" ++ str "&since=").
    rewrite <- app_assoc. f_equal. f_equal.
    unfold NtfyMeFetch.sinceOrDefault.
    destruct (NtfyMeFetch.since a) as [[[|c s]|x]|]; try reflexivity.
    destruct (Num_truthy x); reflexivity.
  - rewrite Hauth. unfold fetchOptions. cbn [Messages.token].
    destruct (orElse _ _); reflexivity.
Qed.

(** X25: from an accepted response with a body that is not empty and whose
    messages can all be filed (every topic converts to a property key, and
    to one that is not inherited), the answer opens with the number of
    lines that parsed to a message and the number of different topic keys
    among them, and has one more text for every such key. *)
Theorem ntfy_me_fetch_counts :
  forall (a : NtfyMeFetch.FetchArgs Num) (w : World) (response : Response)
         (rawResponse : jsstring),
    fetch (fetchRequest Num_toString (fetchOptions Num_truthy env a)) = Fulfilled response ->
    ok response = true ->
    text response = Fulfilled rawResponse ->
    rawResponse <> [] ->
    forallb (canFile topicKey inherited) (messagesOf JSON_parse rawResponse) = true ->
    exists texts,
      fst (handler a w) =
        Fulfilled
          (mkToolResult
             ((str "Successfully fetched " ++
               Number_toString (length (messagesOf JSON_parse rawResponse)) ++
               str " message(s) from " ++
               Number_toString (length (topicsOf topicKey (messagesOf JSON_parse rawResponse))) ++
               str " topic(s)") :: texts)
             false) /\
      length texts = length (topicsOf topicKey (messagesOf JSON_parse rawResponse)).
Proof.
  intros a w response raw Hf Hok Ht Hraw Hfile.
  apply (firstThrow_None topicKey inherited notAFunction) in Hfile.
  rewrite ntfy_me_fetch_run. cbn [fst]. unfold fetched.
  destruct (@fetchMessages_accepted _ Num_toString _ JSON_parse topicKey inherited
              notAFunction fetch _ w _ _ Hf Hok Ht Hraw) as [E _].
  cbv zeta in E. rewrite Hfile in E. rewrite E.
  eexists. split.
  - unfold summary. rewrite (grouped_total _ _ _ _ Hfile). unfold grouped at 1.
    rewrite length_map. reflexivity.
  - rewrite length_map, Object_entries_length. unfold grouped. apply length_map.
Qed.

(** X26: from an accepted response with a body that is not empty, whose
    messages can all be filed (every topic converts to a property key, and
    to one that is not inherited) and have no topic key that is an array
    index, the texts after the summary are those of the topics in the order
    in which they first occur in the body, each with the number of its
    messages and the messages themselves in the order of their lines. *)
Theorem ntfy_me_fetch_topics_in_order :
  forall (a : NtfyMeFetch.FetchArgs Num) (w : World) (response : Response)
         (rawResponse : jsstring),
    fetch (fetchRequest Num_toString (fetchOptions Num_truthy env a)) = Fulfilled response ->
    ok response = true ->
    text response = Fulfilled rawResponse ->
    rawResponse <> [] ->
    let messageData := messagesOf JSON_parse rawResponse in
    forallb (canFile topicKey inherited) messageData = true ->
    existsb NtfyMeFetch.isArrayIndex (topicsOf topicKey messageData) = false ->
    exists result,
      fst (handler a w) = Fulfilled result /\
      tl (content result) =
        map (fun topic =>
               str "Topic: " ++ topic ++ [10%N] ++ str "Messages: " ++
               Number_toString (length (withTopic topicKey topic messageData)) ++ [10%N] ++
               JSON_stringify_pretty (withTopic topicKey topic messageData))
            (topicsOf topicKey messageData).
Proof.
  intros a w response raw Hf Hok Ht Hraw messageData Hfile Hidx. subst messageData.
  apply (firstThrow_None topicKey inherited notAFunction) in Hfile.
  rewrite ntfy_me_fetch_run. cbn [fst]. unfold fetched.
  destruct (@fetchMessages_accepted _ Num_toString _ JSON_parse topicKey inherited
              notAFunction fetch _ w _ _ Hf Hok Ht Hraw) as [E _].
  cbv zeta in E. rewrite Hfile in E. rewrite E.
  eexists. split; [reflexivity|]. cbn [content tl].
  rewrite Object_entries_plain.
  - unfold grouped. rewrite map_map. reflexivity.
  - unfold grouped. rewrite map_map. cbn [fst]. rewrite map_id. exact Hidx.
Qed.

(** X27: an accepted response with an empty body is answered with "No
    messages found in topic"; one whose body has white space only, a single
    line feed say, is answered with a summary of 0 messages from 0
    topics. *)
Theorem ntfy_me_fetch_blank_body :
  forall (a : NtfyMeFetch.FetchArgs Num) (w : World) (response : Response)
         (rawResponse : jsstring),
    fetch (fetchRequest Num_toString (fetchOptions Num_truthy env a)) = Fulfilled response ->
    ok response = true ->
    text response = Fulfilled rawResponse ->
    forallb isWhiteSpace rawResponse = true ->
    fst (handler a w) =
    Fulfilled
      (mkToolResult
         [match rawResponse with
          | [] => str "No messages found in topic " ++ fetchTopic env a
          | _ => str "Successfully fetched 0 message(s) from 0 topic(s)"
          end]
         false).
Proof.
  intros a w response raw Hf Hok Ht Hblank.
  rewrite ntfy_me_fetch_run. cbn [fst]. unfold fetched.
  destruct raw as [|c raw].
  - pose proof (fetchMessages_run Num_toString JSON_parse topicKey inherited notAFunction
                  fetch (fetchOptions Num_truthy env a) w) as H.
    cbv zeta in H. rewrite Hf, Hok, Ht in H. cbn [truthy isEmptyString negb] in H.
    rewrite H. reflexivity.
  - assert (Hraw : c :: raw <> []) by discriminate.
    destruct (@fetchMessages_accepted _ Num_toString _ JSON_parse topicKey inherited
                notAFunction fetch _ w _ _ Hf Hok Ht Hraw) as [E _].
    cbv zeta in E. unfold messagesOf in E.
    rewrite (messageLines_blank _ Hblank) in E. cbn in E. rewrite E. reflexivity.
Qed.

(** X28: one message whose topic key is inherited by every object, such as
    [constructor], makes the whole call fail when the messages before it
    can be filed: the answer is the error text of the TypeError of [push],
    and no message of the body is shown.  In general the first message that
    cannot be filed decides: if its topic cannot be converted to a property
    key, the answer carries the error of that conversion. *)
Theorem ntfy_me_fetch_inherited_topic :
  forall (a : NtfyMeFetch.FetchArgs Num) (w : World) (response : Response)
         (rawResponse : jsstring) (before after : list Value) (data : Value),
    fetch (fetchRequest Num_toString (fetchOptions Num_truthy env a)) = Fulfilled response ->
    ok response = true ->
    text response = Fulfilled rawResponse ->
    rawResponse <> [] ->
    messagesOf JSON_parse rawResponse = before ++ data :: after ->
    forallb (canFile topicKey inherited) before = true ->
    canFile topicKey inherited data = false ->
    fst (handler a w) =
    Fulfilled
      (mkToolResult
         [str "Failed to fetch ntfy messages: " ++
          match topicKey data with
          | Fulfilled _ => notAFunction
          | Rejected message => message
          end]
         true).
Proof.
  intros a w response raw before after data Hf Hok Ht Hraw Hsplit Hbefore Hdata.
  rewrite ntfy_me_fetch_run. cbn [fst]. unfold fetched.
  destruct (@fetchMessages_accepted _ Num_toString _ JSON_parse topicKey inherited
              notAFunction fetch _ w _ _ Hf Hok Ht Hraw) as [E _].
  cbv zeta in E. rewrite Hsplit, (firstThrow_app _ _ notAFunction _ _ Hbefore) in E.
  cbn [firstThrow] in E. unfold canFile in Hdata.
  destruct (topicKey data) as [k|message].
  - apply negb_false_iff in Hdata. rewrite Hdata in E. rewrite E. reflexivity.
  - rewrite E. reflexivity.
Qed.

End NtfyMeFetchFacts.

(** ** Examples *)

Lemma ntfy_me_trailing_slash_witness :
  snd (NtfyMe.ntfy_me MarkdownIt.parse plainHostname 0 (Sample.accepting []) Sample.env
         (withNtfyUrl Sample.args (str "https://ntfy.example.org" ++ str "/")) Sample.world) =
  snd (NtfyMe.ntfy_me MarkdownIt.parse plainHostname 0 (Sample.accepting []) Sample.env
         (withNtfyUrl Sample.args (str "https://ntfy.example.org")) Sample.world).
Proof.
  apply ntfy_me_trailing_slash; [discriminate|reflexivity].
Defined.


Lemma fetchMessages_unauthorized_witness :
  fst (Messages.fetchMessages Tool.Number_toString Sample.JSON_parse Sample.topicKey
         Sample.inherited Sample.notAFunction (Sample.refusing 401)
         (Sample.options (str "https://ntfy.sh")) Sample.world) =
  Tool.Rejected (str "Authentication failed when fetching messages from builds. This ntfy topic requires an access token.").
Proof.
  apply (@fetchMessages_unauthorized _ Tool.Number_toString _ Sample.JSON_parse
           Sample.topicKey Sample.inherited Sample.notAFunction (Sample.refusing 401)
           (Sample.options (str "https://ntfy.sh")) Sample.world
           (Tool.mkResponse false 401 (Tool.Rejected (str "body unusable"))));
    [reflexivity|reflexivity|left; reflexivity].
Defined.

Lemma fetchMessages_groups_witness :
  fst (Messages.fetchMessages Tool.Number_toString Sample.JSON_parse Sample.topicKey
         Sample.inherited Sample.notAFunction (Sample.accepting Sample.body)
         (Sample.options (str "https://ntfy.sh")) Sample.world) =
  Tool.Fulfilled
    (Some [(str "builds", [(str "builds", str "ok"); (str "builds", str "failed")]);
           (str "deploy", [(str "deploy", str "done")])]) /\
  exists es,
    Tool.errors
      (snd (Messages.fetchMessages Tool.Number_toString Sample.JSON_parse Sample.topicKey
              Sample.inherited Sample.notAFunction (Sample.accepting Sample.body)
              (Sample.options (str "https://ntfy.sh")) Sample.world)) =
    [[str "Error parsing line:"; str "not json"; str "SyntaxError: Unexpected token"]] ++ es.
Proof.
  apply (@fetchMessages_groups _ Tool.Number_toString _ Sample.JSON_parse
           Sample.topicKey Sample.inherited Sample.notAFunction (Sample.accepting Sample.body)
           (Sample.options (str "https://ntfy.sh")) Sample.world
           (Tool.mkResponse true 200 (Tool.Fulfilled Sample.body)) Sample.body);
    [reflexivity|reflexivity|reflexivity|discriminate].
Defined.

Lemma ntfy_me_fetch_counts_witness :
  exists texts,
    fst (NtfyMeFetch.ntfy_me_fetch Tool.Number_toString Sample.Num_truthy Sample.JSON_parse
           Sample.topicKey Sample.inherited Sample.notAFunction Sample.JSON_stringify_pretty
           (Sample.accepting Sample.body) Sample.env Sample.fetchArgs Sample.world) =
    Tool.Fulfilled
      (Tool.mkToolResult
         (str "Successfully fetched 3 message(s) from 2 topic(s)" :: texts) false) /\
    length texts = 2.
Proof.
  apply (@ntfy_me_fetch_counts _ Tool.Number_toString Sample.Num_truthy _ Sample.JSON_parse
           Sample.topicKey Sample.inherited Sample.notAFunction Sample.JSON_stringify_pretty
           (Sample.accepting Sample.body) Sample.env Sample.fetchArgs Sample.world
           (Tool.mkResponse true 200 (Tool.Fulfilled Sample.body)) Sample.body);
    [reflexivity|reflexivity|reflexivity|discriminate|reflexivity].
Defined.

Lemma ntfy_me_fetch_topics_in_order_witness :
  exists result,
    fst (NtfyMeFetch.ntfy_me_fetch Tool.Number_toString Sample.Num_truthy Sample.JSON_parse
           Sample.topicKey Sample.inherited Sample.notAFunction Sample.JSON_stringify_pretty
           (Sample.accepting Sample.body) Sample.env Sample.fetchArgs Sample.world) =
    Tool.Fulfilled result /\
    tl (Tool.content result) =
      [str "Topic: builds" ++ [10%N] ++ str "Messages: 2" ++ [10%N] ++
       str "ok" ++ [10%N] ++ str "failed";
       str "Topic: deploy" ++ [10%N] ++ str "Messages: 1" ++ [10%N] ++ str "done"].
Proof.
  apply (@ntfy_me_fetch_topics_in_order _ Tool.Number_toString Sample.Num_truthy _
           Sample.JSON_parse Sample.topicKey Sample.inherited Sample.notAFunction
           Sample.JSON_stringify_pretty (Sample.accepting Sample.body) Sample.env
           Sample.fetchArgs Sample.world
           (Tool.mkResponse true 200 (Tool.Fulfilled Sample.body)) Sample.body);
    [reflexivity|reflexivity|reflexivity|discriminate|reflexivity|reflexivity].
Defined.

Lemma ntfy_me_fetch_blank_body_witness :
  fst (NtfyMeFetch.ntfy_me_fetch Tool.Number_toString Sample.Num_truthy Sample.JSON_parse
         Sample.topicKey Sample.inherited Sample.notAFunction Sample.JSON_stringify_pretty
         (Sample.accepting [10%N]) Sample.env Sample.fetchArgs Sample.world) =
  Tool.Fulfilled
    (Tool.mkToolResult [str "Successfully fetched 0 message(s) from 0 topic(s)"] false).
Proof.
  apply (@ntfy_me_fetch_blank_body _ Tool.Number_toString Sample.Num_truthy _
           Sample.JSON_parse Sample.topicKey Sample.inherited Sample.notAFunction
           Sample.JSON_stringify_pretty (Sample.accepting [10%N]) Sample.env
           Sample.fetchArgs Sample.world
           (Tool.mkResponse true 200 (Tool.Fulfilled [10%N])) [10%N]);
    reflexivity.
Defined.

Lemma ntfy_me_fetch_inherited_topic_witness :
  fst (NtfyMeFetch.ntfy_me_fetch Tool.Number_toString Sample.Num_truthy Sample.JSON_parse
         Sample.topicKey Sample.inherited Sample.notAFunction Sample.JSON_stringify_pretty
         (Sample.accepting (Sample.body ++ str "constructor:x")) Sample.env
         Sample.fetchArgs Sample.world) =
  Tool.Fulfilled
    (Tool.mkToolResult
       [str "Failed to fetch ntfy messages: messageRecords[topic].push is not a function"]
       true) /\
  fst (NtfyMeFetch.ntfy_me_fetch Tool.Number_toString Sample.Num_truthy Sample.JSON_parse
         Sample.topicKey Sample.inherited Sample.notAFunction Sample.JSON_stringify_pretty
         (Sample.accepting (str "{}:x" ++ [10%N] ++ str "constructor:y")) Sample.env
         Sample.fetchArgs Sample.world) =
  Tool.Fulfilled
    (Tool.mkToolResult
       [str "Failed to fetch ntfy messages: Cannot convert object to primitive value"]
       true).
Proof.
  split.
  - apply (@ntfy_me_fetch_inherited_topic _ Tool.Number_toString Sample.Num_truthy _
             Sample.JSON_parse Sample.topicKey Sample.inherited Sample.notAFunction
             Sample.JSON_stringify_pretty
             (Sample.accepting (Sample.body ++ str "constructor:x")) Sample.env
             Sample.fetchArgs Sample.world
             (Tool.mkResponse true 200 (Tool.Fulfilled (Sample.body ++ str "constructor:x")))
             (Sample.body ++ str "constructor:x")
             [(str "builds", str "ok"); (str "deploy", str "done");
              (str "builds", str "failed")]
             [] (str "constructor", str "x"));
      [reflexivity|reflexivity|reflexivity|discriminate|reflexivity|reflexivity|reflexivity].
  - apply (@ntfy_me_fetch_inherited_topic _ Tool.Number_toString Sample.Num_truthy _
             Sample.JSON_parse Sample.topicKey Sample.inherited Sample.notAFunction
             Sample.JSON_stringify_pretty
             (Sample.accepting (str "{}:x" ++ [10%N] ++ str "constructor:y")) Sample.env
             Sample.fetchArgs Sample.world
             (Tool.mkResponse true 200
                (Tool.Fulfilled (str "{}:x" ++ [10%N] ++ str "constructor:y")))
             (str "{}:x" ++ [10%N] ++ str "constructor:y")
             [] [(str "constructor", str "y")] (str "{}", str "x"));
      [reflexivity|reflexivity|reflexivity|discriminate|reflexivity|reflexivity|reflexivity].
Defined.
